(** * N-body gravitational integrator (gravitational_nbody.jl)

    A shallow embedding of the velocity-Verlet N-body program and the
    verification of its specification.

    The program works on [Float64] values held in mutable arrays.  The
    embedding is written once, over an interface [Float64Ops] of the
    arithmetic operations the program uses, and is instantiated twice:

    - at Rocq's primitive binary64 floats ([FloatRun]), which evaluate the
      program bit for bit as IEEE 754 arithmetic does;
    - at the real numbers ([Exact]), the exact arithmetic in which the
      algebraic properties of the method are stated.

    Arrays are lists indexed from 1 as in Julia; an access out of range
    raises [BoundsError].  The two arrays the functions receive by
    reference, [bodies] and [a], live in a [store] that is threaded through a
    state-and-exception monad. *)

From Stdlib Require Import String Ascii DecimalString.
From Stdlib Require Import Floats.
From Stdlib Require Import List ZArith Lia Bool.
From Stdlib Require Import Reals Lra.
Import ListNotations.

Set Implicit Arguments.

(** ** Exceptions and the two monads *)

(** The exceptions the program can raise. *)
Inductive exn : Type :=
| BoundsError      (* array index out of range *)
| DivideError      (* division by zero *)
| DomainError      (* square root of a negative number *)
| ArgumentError    (* reducing over an empty collection *)
| MethodError.     (* no conversion of a scalar to a vector *)

Inductive result (A : Type) : Type :=
| Ok (r : A)
| Raise (e : exn).

Arguments Ok {A} r.
Arguments Raise {A} e.

Class Monad (T : Type -> Type) : Type := {
  ret : forall {A}, A -> T A;
  bind : forall {A B}, T A -> (A -> T B) -> T B
}.

Declare Scope monad_scope.
Delimit Scope monad_scope with monad.
Notation "x <- c ;; k" := (bind c (fun x => k))
  (at level 61, c at next level, right associativity) : monad_scope.
Notation "' p <- c ;; k" := (bind c (fun x => match x with p => k end))
  (at level 61, p pattern, c at next level, right associativity) : monad_scope.
Notation "c ;; k" := (bind c (fun _ => k))
  (at level 61, right associativity) : monad_scope.
Open Scope monad_scope.

Definition result_bind {A B} (c : result A) (k : A -> result B) : result B :=
  match c with
  | Ok r => k r
  | Raise e => Raise e
  end.

#[export] Instance result_Monad : Monad result :=
  {| ret := @Ok; bind := @result_bind |}.

(** A loop [for i in l ... end] that carries local variables [acc]. *)
Fixpoint for_fold {T} `{Monad T} {I B : Type}
    (l : list I) (acc : B) (body : I -> B -> T B) : T B :=
  match l with
  | [] => ret acc
  | i :: l' => acc' <- body i acc ;; for_fold l' acc' body
  end.

(** A loop without local variables. *)
Definition for_each {T} `{Monad T} {I : Type}
    (l : list I) (body : I -> T unit) : T unit :=
  for_fold l tt (fun i _ => body i).

(** The range [lo:hi] of Julia, empty when [hi < lo]. *)
Definition range (lo hi : nat) : list nat := seq lo (hi + 1 - lo).

(** The range [1:n] for a machine integer [n]. *)
Definition range1Z (n : Z) : list Z := map Z.of_nat (seq 1 (Z.to_nat n)).

(** ** Arrays, indexed from 1 *)

Definition getindex {A} (l : list A) (i : nat) : result A :=
  match i with
  | O => Raise BoundsError
  | S k => match nth_error l k with
           | Some y => Ok y
           | None => Raise BoundsError
           end
  end.

Fixpoint replace_nth {A} (l : list A) (k : nat) (y : A) : list A :=
  match l, k with
  | [], _ => []
  | _ :: l', O => y :: l'
  | z :: l', S k' => z :: replace_nth l' k' y
  end.

Definition setindex {A} (l : list A) (i : nat) (y : A) : result (list A) :=
  match i with
  | O => Raise BoundsError
  | S k => if k <? length l then Ok (replace_nth l k y) else Raise BoundsError
  end.

(** ** The arithmetic interface *)

(** What the program asks of [Float64]: the decimal literals it writes, the
    four operations, negation and the square root.  [fdiv] and [fsqrt] may
    raise: Julia's [sqrt] raises [DomainError] on a negative argument, and
    in exact arithmetic a division by zero has no value. *)
Class Float64Ops (F : Type) : Type := {
  lit : Z -> Z -> F;          (* [lit m e] is the literal m * 10^e *)
  fadd : F -> F -> F;
  fsub : F -> F -> F;
  fmul : F -> F -> F;
  fneg : F -> F;
  fdiv : F -> F -> result F;
  fsqrt : F -> result F
}.

Section Program.

Context {F : Type} `{Float64Ops F}.

Definition zero : F := lit 0 0.        (* 0.0 *)
Definition one : F := lit 1 0.         (* one(x) *)
Definition half : F := lit 5 (-1).     (* 0.5 *)

(** [inv(x) = one(x) / x]. *)
Definition finv (y : F) : result F := fdiv one y.

(** *** Configuration parameters *)

Definition G : F := lit 667430 (-16).  (* 6.67430e-11 *)
Definition NDIM : nat := 2.
Definition SOFTENING : F := lit 1 3.   (* 1e3 *)
Definition DT : F := lit 1 0.          (* 1.0 *)
Definition NSTEPS : Z := 10000.
Definition OUTPUT_EVERY : Z := 100.

(** *** Types *)

Record Body : Type := mkBody {
  m : F;
  x : list F;   (* length NDIM *)
  v : list F    (* length NDIM *)
}.

(** What the program prints: the progress line of [simulate!], with the
    values it formats, and the closing message of [main]. *)
Inductive output : Type :=
| Progress (k : Z) (t E : F)   (* "step=%d t=%.3f E=%.6e\n" *)
| Wrote.                       (* "Wrote energies.csv and positions.csv" *)

(** The arrays that the functions mutate in place, and the standard
    output. *)
Record store : Type := mkStore {
  bodies : list Body;
  a : list (list F);
  stdout : list output
}.

Definition M (A : Type) : Type := store -> result (A * store).

Definition M_bind {A B} (c : M A) (k : A -> M B) : M B :=
  fun s => match c s with
           | Ok (r, s') => k r s'
           | Raise e => Raise e
           end.

#[export] Instance M_Monad : Monad M :=
  {| ret := fun A (r : A) s => Ok (r, s); bind := @M_bind |}.

(** A computation on local values only. *)
Definition lift {A} (c : result A) : M A :=
  fun s => match c with
           | Ok r => Ok (r, s)
           | Raise e => Raise e
           end.

(** [length(bodies)] *)
Definition length_bodies : M nat := fun s => Ok (length (bodies s), s).

(** [bodies[i]] *)
Definition get_body (i : nat) : M Body := fun s =>
  match getindex (bodies s) i with
  | Ok b => Ok (b, s)
  | Raise e => Raise e
  end.

(** [a[i][d]] *)
Definition get_a (i d : nat) : M F := fun s =>
  match getindex (a s) i with
  | Ok row => lift (getindex row d) s
  | Raise e => Raise e
  end.

(** [a[i][d] = y] *)
Definition set_a (i d : nat) (y : F) : M unit := fun s =>
  match getindex (a s) i with
  | Ok row =>
      match setindex row d y with
      | Ok row' =>
          match setindex (a s) i row' with
          | Ok a' => Ok (tt, mkStore (bodies s) a' (stdout s))
          | Raise e => Raise e
          end
      | Raise e => Raise e
      end
  | Raise e => Raise e
  end.

(** [fill!(a[i], y)] *)
Definition fill_a (i : nat) (y : F) : M unit := fun s =>
  match getindex (a s) i with
  | Ok row =>
      match setindex (a s) i (map (fun _ => y) row) with
      | Ok a' => Ok (tt, mkStore (bodies s) a' (stdout s))
      | Raise e => Raise e
      end
  | Raise e => Raise e
  end.

(** [bodies[i].x[d] = y]: the struct is immutable, its vector is updated in
    place. *)
Definition set_x (i d : nat) (y : F) : M unit := fun s =>
  match getindex (bodies s) i with
  | Ok b =>
      match setindex (x b) d y with
      | Ok x' =>
          match setindex (bodies s) i (mkBody (m b) x' (v b)) with
          | Ok bs' => Ok (tt, mkStore bs' (a s) (stdout s))
          | Raise e => Raise e
          end
      | Raise e => Raise e
      end
  | Raise e => Raise e
  end.

(** [bodies[i].v[d] = y] *)
Definition set_v (i d : nat) (y : F) : M unit := fun s =>
  match getindex (bodies s) i with
  | Ok b =>
      match setindex (v b) d y with
      | Ok v' =>
          match setindex (bodies s) i (mkBody (m b) (x b) v') with
          | Ok bs' => Ok (tt, mkStore bs' (a s) (stdout s))
          | Raise e => Raise e
          end
      | Raise e => Raise e
      end
  | Raise e => Raise e
  end.

(** *** accelerations! *)

(** [similar(xi)]: a fresh vector of the length of [xi].  Its contents are
    not initialised; the program writes every entry before it reads it. *)
Definition similar (xi : list F) : list F := map (fun _ => zero) xi.

(** The displacement loop of a pair,
<<
    r2 = 0.0
    rvec = similar(xi)
    for d in 1:NDIM
        rvec[d] = xj[d] - xi[d]
        r2 += rvec[d]*rvec[d]
    end
>>
    ([@inbounds] removes the bounds checks; an access out of range is
    undefined there and is modelled as [BoundsError].) *)
Definition displacement (xi xj : list F) : result (list F * F) :=
  for_fold (range 1 NDIM) (similar xi, zero) (fun d '(rvec, r2) =>
    xjd <- getindex xj d ;;
    xid <- getindex xi d ;;
    rvec' <- setindex rvec d (fsub xjd xid) ;;
    rd <- getindex rvec' d ;;
    ret (rvec', fadd r2 (fmul rd rd))).

(** [invr3 = inv(sqrt(r2e)*r2e)] *)
Definition inv_r3 (r2e : F) : result F :=
  sq <- fsqrt r2e ;;
  finv (fmul sq r2e).

(** The body of the pair loop for the pair [(i, j)]. *)
Definition pair_force (eps2 : F) (i : nat) (xi : list F) (mi : F) (j : nat)
  : M unit :=
  bj <- get_body j ;;
  let xj := x bj in
  let mj := m bj in
  '(rvec, r2) <- lift (displacement xi xj) ;;
  let r2e := fadd r2 eps2 in
  invr3 <- lift (inv_r3 r2e) ;;
  let fac_i := fmul (fmul G mj) invr3 in
  let fac_j := fmul (fmul (fneg G) mi) invr3 in
  for_each (range 1 NDIM) (fun d =>
    rd <- lift (getindex rvec d) ;;
    aid <- get_a i d ;;
    set_a i d (fadd aid (fmul fac_i rd)) ;;
    ajd <- get_a j d ;;
    set_a j d (fadd ajd (fmul fac_j rd))).

(** Compute accelerations from Newtonian gravity with Plummer softening. *)
Definition accelerations : M unit :=
  N <- length_bodies ;;
  (* zero *)
  for_each (range 1 N) (fun i => fill_a i zero) ;;
  (* pair forces *)
  let eps2 := fmul SOFTENING SOFTENING in
  for_each (range 1 (N - 1)) (fun i =>
    bi <- get_body i ;;
    let xi := x bi in
    let mi := m bi in
    for_each (range (i + 1) N) (fun j => pair_force eps2 i xi mi j)).

(** *** total_energy *)

(** [vi2], the inner loop of the kinetic energy. *)
Definition speed2 (vi : list F) : result F :=
  for_fold (range 1 NDIM) zero (fun d vi2 =>
    vd <- getindex vi d ;;
    ret (fadd vi2 (fmul vd vd))).

(** [r2], the inner loop of the potential energy. *)
Definition dist2 (xi xj : list F) : result F :=
  for_fold (range 1 NDIM) zero (fun d r2 =>
    xjd <- getindex xj d ;;
    xid <- getindex xi d ;;
    ret (fadd r2 (fmul (fsub xjd xid) (fsub xjd xid)))).

(** The Plummer softened potential of one pair,
    [G*mi*mj / sqrt(r2 + eps2)]. *)
Definition pair_potential (eps2 mi mj r2 : F) : result F :=
  sq <- fsqrt (fadd r2 eps2) ;;
  fdiv (fmul (fmul G mi) mj) sq.

(** Compute total energy (kinetic + potential) with softening. *)
Definition total_energy : M F :=
  N <- length_bodies ;;
  (* kinetic *)
  K <- for_fold (range 1 N) zero (fun i K =>
         bi <- get_body i ;;
         vi2 <- lift (speed2 (v bi)) ;;
         ret (fadd K (fmul (fmul half (m bi)) vi2))) ;;
  (* potential *)
  let eps2 := fmul SOFTENING SOFTENING in
  U <- for_fold (range 1 (N - 1)) zero (fun i U =>
         bi <- get_body i ;;
         let xi := x bi in
         let mi := m bi in
         for_fold (range (i + 1) N) U (fun j U =>
           bj <- get_body j ;;
           let xj := x bj in
           let mj := m bj in
           r2 <- lift (dist2 xi xj) ;;
           p <- lift (pair_potential eps2 mi mj r2) ;;
           ret (fsub U p))) ;;
  ret (fadd K U).

(** *** vv_step! *)

(** The first pair of loops of [vv_step!]: x half-update with current
    acceleration. *)
Definition drift_and_half_kick (dt : F) (N : nat) : M unit :=
  for_each (range 1 N) (fun i =>
    for_each (range 1 NDIM) (fun d =>
      bi <- get_body i ;;
      xd <- lift (getindex (x bi) d) ;;
      vd <- lift (getindex (v bi) d) ;;
      ad <- get_a i d ;;
      set_x i d (fadd xd (fadd (fmul vd dt)
                               (fmul (fmul (fmul half ad) dt) dt))) ;;
      bi' <- get_body i ;;
      vd' <- lift (getindex (v bi') d) ;;
      ad' <- get_a i d ;;
      set_v i d (fadd vd' (fmul (fmul half ad') dt)))).

(** The last pair of loops of [vv_step!]: complete velocity update. *)
Definition half_kick (dt : F) (N : nat) : M unit :=
  for_each (range 1 N) (fun i =>
    for_each (range 1 NDIM) (fun d =>
      bi <- get_body i ;;
      vd <- lift (getindex (v bi) d) ;;
      ad <- get_a i d ;;
      set_v i d (fadd vd (fmul (fmul half ad) dt)))).

(** One velocity-Verlet step. *)
Definition vv_step (dt : F) : M unit :=
  N <- length_bodies ;;
  drift_and_half_kick dt N ;;
  (* compute new accelerations *)
  accelerations ;;
  half_kick dt N.

(** *** simulate! *)

(** [a = [zeros(Float64, NDIM) for _ in 1:N]] *)
Definition alloc_a (N : nat) : M unit := fun s =>
  Ok (tt, mkStore (bodies s) (map (fun _ => repeat zero NDIM) (range 1 N))
                  (stdout s)).

(** [reduce(vcat, (reduce(vcat, b.x) for b in bodies))].  Reducing over an
    empty collection raises; the reduction of a one-element vector is its
    element, a scalar, which [push!] cannot convert to a vector when it is
    the whole sample. *)
Definition flat_positions : M (list F) := fun s =>
  match bodies s with
  | [] => Raise ArgumentError
  | b :: bs =>
      if existsb (fun b' => match x b' with [] => true | _ => false end)
                 (b :: bs)
      then Raise ArgumentError
      else match bs, x b with
           | [], [_] => Raise MethodError
           | _, _ => Ok (concat (map x (b :: bs)), s)
           end
  end.

(** [k % output_every] on machine integers. *)
Definition rem (k n : Z) : result Z :=
  if (n =? 0)%Z then Raise DivideError else Ok (Z.rem k n).

(** [@printf("step=%d t=%.3f E=%.6e\n", k, t, energies[end])] *)
Definition print (o : output) : M unit := fun s =>
  Ok (tt, mkStore (bodies s) (a s) (stdout s ++ [o])).

(** The local variables of [simulate!]. *)
Record recording : Type := mkRecording {
  times : list F;
  energies : list F;
  samples : list (list F);
  t : F
}.

(** Run simulation; returns trajectory samples and energies at output
    cadence. *)
Definition simulate (dt : F) (nsteps output_every : Z)
  : M (list F * list F * list (list F)) :=
  N <- length_bodies ;;
  alloc_a N ;;
  accelerations ;;
  (* record initial *)
  E0 <- total_energy ;;
  p0 <- flat_positions ;;
  rec <- for_fold (range1Z nsteps) (mkRecording [zero] [E0] [p0] zero)
           (fun k rec =>
              vv_step dt ;;
              let t' := fadd (t rec) dt in
              r <- lift (rem k output_every) ;;
              if (r =? 0)%Z then
                E <- total_energy ;;
                p <- flat_positions ;;
                print (Progress k t' E) ;;
                ret (mkRecording (times rec ++ [t']) (energies rec ++ [E])
                                 (samples rec ++ [p]) t')
              else
                ret (mkRecording (times rec) (energies rec) (samples rec) t')) ;;
  ret (times rec, energies rec, samples rec).

(** *** Example setups *)

(** Two-body circular-ish orbit setup for NDIM=2. *)
Definition two_body_demo : result (list Body) :=
  let m1 := lit 5972 21 in            (* 5.972e24 *)
  let m2 := lit 7348 19 in            (* 7.348e22 *)
  let r := lit 4 7 in                 (* 4.0e7 *)
  q <- fdiv (fmul G (fadd m1 m2)) r ;;
  vc <- fsqrt q ;;                    (* circular relative speed *)
  f1 <- fdiv (fneg m2) (fadd m1 m2) ;;
  f2 <- fdiv m1 (fadd m1 m2) ;;
  let x1 := [fmul f1 r; zero] in
  let x2 := [fmul f2 r; zero] in
  let v1 := [zero; fmul f1 vc] in
  let v2 := [zero; fmul f2 vc] in
  ret [mkBody m1 x1 v1; mkBody m2 x2 v2].

End Program.

Arguments Body F : clear implicits.
Arguments store F : clear implicits.
Arguments output F : clear implicits.
Arguments recording F : clear implicits.
Arguments M F A : clear implicits.

(** ** The program on binary64 floats *)

Module FloatRun.

(** An integer below 2^53 in absolute value, exactly. *)
Definition of_Z (n : Z) : float :=
  if (n <? 0)%Z then (- PrimFloat.of_uint63 (Uint63.of_Z (- n)))%float
  else PrimFloat.of_uint63 (Uint63.of_Z n).

(** 10^e for 0 <= e <= 22, exactly: 5^e fits 53 bits. *)
Definition pow10 (e : Z) : float :=
  Z.ldexp (PrimFloat.of_uint63 (Uint63.of_Z (5 ^ e))) e.

(** The literal m * 10^e, correctly rounded when |m| < 2^53 and
    |e| <= 22: one operation on two exact values. *)
Definition literal (m e : Z) : float :=
  if (0 <=? e)%Z then (of_Z m * pow10 e)%float
  else (of_Z m / pow10 (- e))%float.

(** [sqrt] raises [DomainError] below zero; NaN and -0.0 pass. *)
Definition sqrt_checked (y : float) : result float :=
  if (y <? 0)%float then Raise DomainError else Ok (PrimFloat.sqrt y).

#[export] Instance ops : Float64Ops float := {|
  lit := literal;
  fadd := PrimFloat.add;
  fsub := PrimFloat.sub;
  fmul := PrimFloat.mul;
  fneg := PrimFloat.opp;
  fdiv := fun y z => Ok (PrimFloat.div y z);
  fsqrt := sqrt_checked
|}.

End FloatRun.

(** ** The program in exact arithmetic *)

Module Exact.

Definition literal (m e : Z) : R := (IZR m * powerRZ 10 e)%R.

(** A division by zero has no value. *)
Definition div_checked (y z : R) : result R :=
  if Req_dec_T z 0 then Raise DivideError else Ok (y / z)%R.

Definition sqrt_checked (y : R) : result R :=
  if Rlt_dec y 0 then Raise DomainError else Ok (sqrt y).

#[export] Instance ops : Float64Ops R := {|
  lit := literal;
  fadd := Rplus;
  fsub := Rminus;
  fmul := Rmult;
  fneg := Ropp;
  fdiv := div_checked;
  fsqrt := sqrt_checked
|}.

End Exact.

(** ** Reading a store *)

Section Reading.

Context {F : Type} `{Float64Ops F}.

(** Total accessors, with the indices of the program (from 1). *)
Definition body_at (s : store F) (i : nat) : Body F :=
  nth (i - 1) (bodies s) (mkBody zero [] []).

Definition mass (s : store F) (i : nat) : F := m (body_at s i).
Definition pos (s : store F) (i d : nat) : F := nth (d - 1) (x (body_at s i)) zero.
Definition vel (s : store F) (i d : nat) : F := nth (d - 1) (v (body_at s i)) zero.
Definition acc (s : store F) (i d : nat) : F := nth (d - 1) (nth (i - 1) (a s) []) zero.

(** The number of bodies. *)
Definition nbodies (s : store F) : nat := length (bodies s).

(** The data model: every position and velocity is a vector of [NDIM]
    components. *)
Definition wf_bodies (bs : list (Body F)) : Prop :=
  Forall (fun b => length (x b) = NDIM /\ length (v b) = NDIM) bs.

(** The acceleration buffer is a parallel array: one vector of [NDIM]
    components per body. *)
Definition wf_buffer (N : nat) (buf : list (list F)) : Prop :=
  length buf = N /\ Forall (fun row => length row = NDIM) buf.

Definition wf (s : store F) : Prop :=
  wf_bodies (bodies s) /\ wf_buffer (nbodies s) (a s).

(** Weakest preconditions: [c] run from [s] either returns and [Q] holds of
    the result and the new store, or raises an exception in [E]. *)
Definition wp {A} (c : M F A) (Q : A -> store F -> Prop) (E : exn -> Prop)
    (s : store F) : Prop :=
  match c s with
  | Ok (r, s') => Q r s'
  | Raise e => E e
  end.

Definition rwp {A} (c : result A) (Q : A -> Prop) (E : exn -> Prop) : Prop :=
  match c with
  | Ok r => Q r
  | Raise e => E e
  end.

(** Whether the loops [for i ... for d ...] have been through [(k, d')]
    when they reach [(i, d)]. *)
Definition visited (i d k d' : nat) : bool :=
  (k <? i) || ((k =? i) && (d' <? d)).

(** No exception at all. *)
Definition never : exn -> Prop := fun _ => False.

(** No exception but an index out of range. *)
Definition only_bounds : exn -> Prop := fun e => e = BoundsError.

(** The start of [simulate!]: the buffer is allocated and the initial
    accelerations are computed. *)
Definition bootstrap : M F unit :=
  N <- length_bodies ;; alloc_a N ;; accelerations.

(** [n] steps of the integrator, one after the other. *)
Fixpoint steps (dt : F) (n : nat) : M F unit :=
  match n with
  | O => ret tt
  | S n' => steps dt n' ;; vv_step dt
  end.

End Reading.

(** ** Writing a store *)

Section Writing.

Context {F : Type} `{Float64Ops F}.

(** The store after [a[i][d] = y]. *)
Definition upd_a (s : store F) (i d : nat) (y : F) : store F :=
  mkStore (bodies s)
          (replace_nth (a s) (i - 1)
                       (replace_nth (nth (i - 1) (a s) []) (d - 1) y))
          (stdout s).

(** The store after [fill!(a[i], y)]. *)
Definition upd_row (s : store F) (i : nat) (y : F) : store F :=
  mkStore (bodies s)
          (replace_nth (a s) (i - 1) (map (fun _ => y) (nth (i - 1) (a s) [])))
          (stdout s).

(** The store after [bodies[i].x[d] = y]. *)
Definition upd_x (s : store F) (i d : nat) (y : F) : store F :=
  let b := body_at s i in
  mkStore (replace_nth (bodies s) (i - 1)
                       (mkBody (m b) (replace_nth (x b) (d - 1) y) (v b)))
          (a s) (stdout s).

(** The store after [bodies[i].v[d] = y]. *)
Definition upd_v (s : store F) (i d : nat) (y : F) : store F :=
  let b := body_at s i in
  mkStore (replace_nth (bodies s) (i - 1)
                       (mkBody (m b) (x b) (replace_nth (v b) (d - 1) y)))
          (a s) (stdout s).

End Writing.

(** ** The physics, in exact arithmetic *)

Section Physics.

Import Exact.
Local Open Scope R_scope.

(** A sum over a list of indices. *)
Definition Rsum {I : Type} (l : list I) (f : I -> R) : R :=
  fold_right (fun i r => f i + r) 0 l.

(** The square of the softening length, as both functions compute it. *)
Definition eps2 : R := fmul SOFTENING SOFTENING.

(** The squared separation of bodies [i] and [j]. *)
Definition sqdist (s : store R) (i j : nat) : R :=
  Rsum (range 1 NDIM)
       (fun d => (pos s j d - pos s i d) * (pos s j d - pos s i d)).

(** The squared speed of body [i]. *)
Definition sqspeed (s : store R) (i : nat) : R :=
  Rsum (range 1 NDIM) (fun d => vel s i d * vel s i d).

(** What the pair [(i, j)] adds to component [d] of the acceleration of
    body [k]: [fac_i * rvec[d]] for [i], [fac_j * rvec[d]] for [j]. *)
Definition invr3 (s : store R) (i j : nat) : R :=
  1 / (sqrt (sqdist s i j + eps2) * (sqdist s i j + eps2)).

Definition kick_i (s : store R) (i j d : nat) : R :=
  G * mass s j * invr3 s i j * (pos s j d - pos s i d).

Definition kick_j (s : store R) (i j d : nat) : R :=
  - G * mass s i * invr3 s i j * (pos s j d - pos s i d).

Definition pair_kick (s : store R) (i j k d : nat) : R :=
  (if (k =? i)%nat then kick_i s i j d else 0) +
  (if (k =? j)%nat then kick_j s i j d else 0).

(** The kicks of all the pairs, summed in the order of the two loops. *)
Definition pair_sum (s : store R) (k d : nat) : R :=
  Rsum (range 1 (nbodies s - 1)) (fun i =>
    Rsum (range (i + 1) (nbodies s)) (fun j => pair_kick s i j k d)).

(** The pairs in the order the kernel visits them. *)
Definition pairs (N : nat) : list (nat * nat) :=
  flat_map (fun i => map (fun j => (i, j)) (range (i + 1) N))
           (range 1 (N - 1)).

(** The acceleration of body [i] as the specification writes it: the sum
    over every other body [j] of
    G m_j (x_j - x_i) / (|x_j - x_i|^2 + eps^2)^(3/2). *)
Definition spec_acceleration (s : store R) (i d : nat) : R :=
  Rsum (filter (fun j => negb (j =? i)%nat) (range 1 (nbodies s)))
       (fun j => G * mass s j * (pos s j d - pos s i d)
                 / Rpower (sqdist s i j + SOFTENING * SOFTENING) (3 / 2)).

(** The energies as the specification writes them. *)
Definition spec_kinetic (s : store R) : R :=
  Rsum (range 1 (nbodies s)) (fun i => 0.5 * mass s i * sqspeed s i).

Definition spec_potential (s : store R) : R :=
  - Rsum (range 1 (nbodies s)) (fun i =>
      Rsum (filter (fun j => (i <? j)%nat) (range 1 (nbodies s))) (fun j =>
        G * mass s i * mass s j
        / sqrt (sqdist s i j + SOFTENING * SOFTENING))).

(** Total linear momentum, component [d]. *)
Definition momentum (s : store R) (d : nat) : R :=
  Rsum (range 1 (nbodies s)) (fun i => mass s i * vel s i d).

(** The buffer holds the accelerations at the current positions: computing
    them again changes nothing. *)
Definition current (s : store R) : Prop :=
  accelerations s = Ok (tt, s).

(** What [simulate!] has recorded after [c] steps when it records every
    [K] steps from the store [boot]: sample [j] is the time, the energy and
    the positions after [j * K] steps. *)
Definition recorded (dt : R) (K : nat) (boot : store R) (c : nat)
    (ts es : list R) (ps : list (list R)) : Prop :=
  length ts = S (c / K) /\ length es = S (c / K) /\ length ps = S (c / K) /\
  forall j, (j <= c / K)%nat ->
    exists sj,
      steps dt (j * K) boot = Ok (tt, sj) /\
      nth j ts 0 = INR (j * K) * dt /\
      total_energy sj = Ok (nth j es 0, sj) /\
      flat_positions sj = Ok (nth j ps [], sj).

(** Two concrete stores: a single body, and two bodies whose buffer holds
    the kicks of their pair. *)
Definition one_body : store R :=
  mkStore [mkBody 2 [1; 2] [3; 4]] [[zero; zero]] [].

Definition two_bodies_at_rest : store R :=
  mkStore [mkBody 2 [0; 0] [1; 0]; mkBody 3 [3; 4] [0; -1]]
          [[0; 0]; [0; 0]] [].

(** Two bodies at the same place, one without mass and one of negative
    mass. *)
Definition degenerate : store R :=
  mkStore [mkBody 0 [1; 2] [0; 0]; mkBody (-1) [1; 2] [0; 0]]
          [[0; 0]; [0; 0]] [].

Definition two_bodies : store R :=
  mkStore (bodies two_bodies_at_rest)
          [[kick_i two_bodies_at_rest 1 2 1; kick_i two_bodies_at_rest 1 2 2];
           [kick_j two_bodies_at_rest 1 2 1; kick_j two_bodies_at_rest 1 2 2]]
          [].

End Physics.

(** ** The output files *)

(** [main] writes two files with [@printf]; how a number is printed is a
    parameter here: [fmt_f p] is the conversion [%.pf], [fmt_e p] the
    conversion [%.pe]. *)

Section Output.

Context {F : Type}.
Variable fmt_f : nat -> F -> string.
Variable fmt_e : nat -> F -> string.

Definition newline : string := String (ascii_of_nat 10) EmptyString.

(** ["$(i)"] for an integer [i]. *)
Definition show_nat (i : nat) : string := NilZero.string_of_uint (Nat.to_uint i).

(** One row of energies.csv: [@printf(io, "%.6f,%.10e\n", t, E)]. *)
Definition energy_row (t E : F) : string :=
  (fmt_f 6 t ++ "," ++ fmt_e 10 E ++ newline)%string.

(** The file energies.csv. *)
Definition energies_csv (times energies : list F) : string :=
  (("t,E" ++ newline) ++
   String.concat "" (map (fun te => energy_row (fst te) (snd te))
                         (combine times energies)))%string.

(** The header of positions.csv:
    [hdr = ["x$(i)_$(d)" for i in 1:N for d in 1:NDIM]],
    then ["t," * join(hdr, ",")]. *)
Definition header_names (N : nat) : list string :=
  flat_map (fun i => map (fun d => ("x" ++ show_nat i ++ "_" ++ show_nat d)%string)
                         (range 1 NDIM))
           (range 1 N).

Definition positions_header (N : nat) : string :=
  ("t," ++ String.concat "," (header_names N) ++ newline)%string.

(** One row of positions.csv. *)
Definition position_row (t : F) (pos : list F) : string :=
  (fmt_f 6 t ++
   String.concat "" (map (fun y => ("," ++ fmt_e 10 y)%string) pos) ++
   newline)%string.

(** The file positions.csv: row [k] reads [samples[k]]. *)
Definition positions_csv (N : nat) (times : list F) (samples : list (list F))
  : result string :=
  rows <- for_fold (combine (seq 1 (length times)) times) []
            (fun kt rows =>
               pos <- getindex samples (fst kt) ;;
               ret (rows ++ [position_row (snd kt) pos])) ;;
  ret (positions_header N ++ String.concat "" rows)%string.

End Output.

(** ** Printing binary64 numbers *)

(** The conversions [%.pf] and [%.pe] of a binary64 number, computed on its
    exact value m * 2^e: the decimal expansion is rounded to the nearest,
    ties to even, as Julia's Printf does. *)

Module Printf.

Local Open Scope Z_scope.

(** a / b rounded to the nearest integer, ties to even (a >= 0, b > 0). *)
Definition round_div (n d : Z) : Z :=
  let q := n / d in
  let r := n mod d in
  if 2 * r <? d then q
  else if d <? 2 * r then q + 1
  else if Z.even q then q else q + 1.

Definition digit (n : Z) : ascii := ascii_of_nat (48 + Z.to_nat (n mod 10)).

(** The [w] low decimal digits of [n], most significant first. *)
Fixpoint digits_fixed (w : nat) (n : Z) : string :=
  match w with
  | O => EmptyString
  | S w' => (digits_fixed w' (n / 10) ++ String (digit n) EmptyString)%string
  end.

(** The number of decimal digits of [n > 0]. *)
Definition nb_digits (n : Z) : nat := Decimal.nb_digits (N.to_uint (Z.to_N n)).

(** [n >= 0] in decimal, without padding. *)
Definition decimal (n : Z) : string := digits_fixed (Nat.max 1 (nb_digits n)) n.

Definition sign_string (s : bool) : string := if s then "-"%string else ""%string.

(** The fraction num / den of the magnitude m * 2^e. *)
Definition fraction (m : positive) (e : Z) : Z * Z :=
  if 0 <=? e then (Zpos m * 2 ^ e, 1) else (Zpos m, 2 ^ (- e)).

(** [%.pf] of a finite magnitude. *)
Definition fixed (p : nat) (num den : Z) : string :=
  let n := round_div (num * 10 ^ Z.of_nat p) den in
  match p with
  | O => decimal n
  | S _ => (decimal (n / 10 ^ Z.of_nat p) ++ "." ++ digits_fixed p n)%string
  end.

(** The decimal exponent k of num / den: 10^k <= num / den < 10^(k+1). *)
Definition exponent10 (num den : Z) : Z :=
  if den <=? num then Z.of_nat (nb_digits (num / den)) - 1
  else
    let dq := Z.of_nat (nb_digits (den / num)) in
    if den <=? num * 10 ^ (dq - 1) then - (dq - 1) else - dq.

(** num / den * 10^j rounded, for any sign of [j]. *)
Definition scaled (num den j : Z) : Z :=
  if 0 <=? j then round_div (num * 10 ^ j) den
  else round_div num (den * 10 ^ (- j)).

(** The exponent field: a sign and at least two digits. *)
Definition exponent_string (k : Z) : string :=
  let sgn := if k <? 0 then "-"%string else "+"%string in
  (sgn ++ digits_fixed (Nat.max 2 (nb_digits (Z.abs k))) (Z.abs k))%string.

(** The mantissa field of [n], a number of [p + 1] digits. *)
Definition mantissa_string (p : nat) (n : Z) : string :=
  match p with
  | O => String (digit n) EmptyString
  | S _ => (String (digit (n / 10 ^ Z.of_nat p)) "." ++ digits_fixed p n)%string
  end.

(** [%.pe] of a finite magnitude that is not zero. *)
Definition scientific (p : nat) (num den : Z) : string :=
  let k := exponent10 num den in
  let n := scaled num den (Z.of_nat p - k) in
  (* rounding up to the next power of ten *)
  let '(n, k) := if 10 ^ (Z.of_nat p + 1) <=? n then (n / 10, k + 1)
                 else (n, k) in
  (mantissa_string p n ++ "e" ++ exponent_string k)%string.

(** [@printf("%.pf", y)] *)
Definition printf_f (p : nat) (y : float) : string :=
  match Prim2SF y with
  | S754_nan => "NaN"%string
  | S754_infinity s => (sign_string s ++ "Inf")%string
  | S754_zero s => (sign_string s ++ fixed p 0 1)%string
  | S754_finite s m e =>
      let '(num, den) := fraction m e in
      (sign_string s ++ fixed p num den)%string
  end.

(** [@printf("%.pe", y)] *)
Definition printf_e (p : nat) (y : float) : string :=
  match Prim2SF y with
  | S754_nan => "NaN"%string
  | S754_infinity s => (sign_string s ++ "Inf")%string
  | S754_zero s =>
      (sign_string s ++ mantissa_string p 0 ++ "e" ++ exponent_string 0)%string
  | S754_finite s m e =>
      let '(num, den) := fraction m e in
      (sign_string s ++ scientific p num den)%string
  end.

(** The digits of a printed number that are significant: those of the
    mantissa, before the exponent. *)
Definition is_digit (c : ascii) : bool :=
  let n := nat_of_ascii c in (48 <=? n)%nat && (n <=? 57)%nat.

Fixpoint significant_digits (s : string) : nat :=
  match s with
  | EmptyString => O
  | String c s' =>
      if Ascii.eqb c "e" then O
      else if is_digit c then S (significant_digits s')
      else significant_digits s'
  end.

(** The digits after the decimal point, up to the exponent. *)
Fixpoint decimal_places (s : string) : nat :=
  match s with
  | EmptyString => O
  | String c s' =>
      if Ascii.eqb c "." then significant_digits s' else decimal_places s'
  end.

Fixpoint all_digits (s : string) : bool :=
  match s with
  | EmptyString => true
  | String c s' => is_digit c && all_digits s'
  end.

(** A field of a row: no comma and no end of line in it. *)
Fixpoint plain (s : string) : bool :=
  match s with
  | EmptyString => true
  | String c s' =>
      negb (Ascii.eqb c ",") && negb (Ascii.eqb c (ascii_of_nat 10)) && plain s'
  end.

(** A text that does not run over the end of a line. *)
Fixpoint one_line (s : string) : bool :=
  match s with
  | EmptyString => true
  | String c s' => negb (Ascii.eqb c (ascii_of_nat 10)) && one_line s'
  end.

(** The lines of a file. *)
Fixpoint lines (s : string) : list string :=
  match s with
  | EmptyString => []
  | String c s' =>
      if Ascii.eqb c (ascii_of_nat 10) then EmptyString :: lines s'
      else match lines s' with
           | [] => [String c EmptyString]
           | l :: ls => String c l :: ls
           end
  end.

(** The form of [%.pe]: a sign, one digit, the point, [p] digits, the
    letter e, the sign of the exponent and two digits of exponent or more. *)
Definition scientific_shape (p : nat) (s : string) : Prop :=
  exists sgn lead frac esgn edig,
    s = (sgn ++ String lead ("." ++ frac ++ "e" ++ esgn ++ edig))%string /\
    (sgn = ""%string \/ sgn = "-"%string) /\
    is_digit lead = true /\
    String.length frac = p /\ all_digits frac = true /\
    (esgn = "+"%string \/ esgn = "-"%string) /\
    (2 <= String.length edig)%nat /\ all_digits edig = true.

(** The form of [%.pf]: a sign, the digits of the integer part, the point
    and [p] digits. *)
Definition fixed_shape (p : nat) (s : string) : Prop :=
  exists sgn int frac,
    s = (sgn ++ int ++ "." ++ frac)%string /\
    (sgn = ""%string \/ sgn = "-"%string) /\
    (1 <= String.length int)%nat /\ all_digits int = true /\
    String.length frac = p /\ all_digits frac = true.

(** The fields of a row. *)
Fixpoint fields (s : string) : list string :=
  match s with
  | EmptyString => [EmptyString]
  | String c s' =>
      if Ascii.eqb c "," then EmptyString :: fields s'
      else match fields s' with
           | [] => [String c EmptyString]
           | f :: fs => String c f :: fs
           end
  end.

End Printf.

(** ** main *)

Module Main.

Import FloatRun.

(** The two files and what was printed. *)
Record files : Type := mkFiles {
  energies_file : string;
  positions_file : string;
  printed : list (output float)
}.

(** The bodies of [two_body_demo], with a buffer of zeros. *)
Definition demo : store float :=
  match two_body_demo with
  | Ok bs => mkStore bs [[0; 0]; [0; 0]]%float []
  | Raise _ => mkStore [] [] []
  end.

(** Two bodies of masses 3 and 7 at (0, 0) and (1, 2). *)
Definition small : store float :=
  mkStore [mkBody 3 [0; 0] [0; 0]; mkBody 7 [1; 2] [0; 0]]%float
          [[0; 0]; [0; 0]]%float [].

Definition main : result files :=
  bs <- two_body_demo ;;
  match simulate DT NSTEPS OUTPUT_EVERY (mkStore bs [] []) with
  | Raise e => Raise e
  | Ok ((times, energies, samples), s) =>
      let ecsv := energies_csv Printf.printf_f Printf.printf_e times energies in
      pcsv <- positions_csv Printf.printf_f Printf.printf_e
                            (length (bodies s)) times samples ;;
      ret (mkFiles ecsv pcsv (stdout s ++ [Wrote]))
  end.

End Main.

(** ** Mechanical quantities *)

Section Mechanics.

Import Exact.
Local Open Scope R_scope.

(** The first moment of the masses, component [d]: the total mass times
    the centre of mass. *)
Definition mass_moment (s : store R) (d : nat) : R :=
  Rsum (range 1 (nbodies s)) (fun i => mass s i * pos s i d).

(** The angular momentum about the origin; the program is planar
    ([NDIM = 2]). *)
Definition angular_momentum (s : store R) : R :=
  Rsum (range 1 (nbodies s))
       (fun i => mass s i * (pos s i 1 * vel s i 2 - pos s i 2 * vel s i 1)).

(** The progress lines that go with the samples [ts], [es] recorded at the
    cadence [K]: one line for each sample but the first. *)
Definition progress_log (K : nat) (ts es : list R) : list (output R) :=
  map (fun j => Progress (Z.of_nat (j * K)) (nth j ts 0) (nth j es 0))
      (seq 1 (length ts - 1)).

(** *** random_system *)



End Mechanics.


(** * Proofs *)

Unset Implicit Arguments.



(** ** Arrays *)

Lemma getindex_nth {A} (l : list A) (i : nat) (dflt : A) :
  1 <= i <= length l -> getindex l i = Ok (nth (i - 1) l dflt).
Proof.
  intros Hi. destruct i as [|k]; [lia|]. simpl.
  replace (k - 0) with k by lia.
  destruct (nth_error l k) eqn:Hk.
  - now rewrite (nth_error_nth _ _ _ Hk).
  - apply nth_error_None in Hk. lia.
Qed.

Lemma getindex_Ok_inv {A} (l : list A) (i : nat) (y dflt : A) :
  getindex l i = Ok y -> 1 <= i <= length l /\ y = nth (i - 1) l dflt.
Proof.
  destruct i as [|k]; simpl; [discriminate|].
  destruct (nth_error l k) eqn:Hk; [|discriminate].
  intros [= <-]. split.
  - assert (k < length l) by (apply nth_error_Some; congruence). lia.
  - replace (k - 0) with k by lia. now rewrite (nth_error_nth _ _ _ Hk).
Qed.

Lemma setindex_replace {A} (l : list A) (i : nat) (y : A) :
  1 <= i <= length l -> setindex l i y = Ok (replace_nth l (i - 1) y).
Proof.
  intros Hi. destruct i as [|k]; [lia|]. simpl.
  replace (k - 0) with k by lia.
  destruct (Nat.ltb_spec k (length l)); [reflexivity|lia].
Qed.

Lemma length_replace_nth {A} (l : list A) (k : nat) (y : A) :
  length (replace_nth l k y) = length l.
Proof.
  revert k. induction l as [|z l IH]; intros [|k]; simpl; auto.
Qed.

Lemma nth_replace_nth {A} (l : list A) (k j : nat) (y dflt : A) :
  k < length l ->
  nth j (replace_nth l k y) dflt = if j =? k then y else nth j l dflt.
Proof.
  revert k j. induction l as [|z l IH]; intros k j Hk; simpl in Hk; [lia|].
  destruct k as [|k], j as [|j]; simpl; auto.
  apply IH. lia.
Qed.

Lemma Forall_replace_nth {A} (P : A -> Prop) (l : list A) (k : nat) (y : A) :
  Forall P l -> (k < length l -> P y) -> Forall P (replace_nth l k y).
Proof.
  intros Hl. revert k. induction Hl as [|z l Hz Hl IH]; intros [|k] Hy; simpl;
    constructor; auto.
  - apply Hy. simpl. lia.
  - apply IH. intros Hk. apply Hy. simpl. lia.
Qed.

Lemma seq_snoc (lo n : nat) : seq lo (S n) = seq lo n ++ [lo + n].
Proof. apply seq_S. Qed.

(** ** Rules for weakest preconditions *)

Section Rules.

Context {F : Type} `{Float64Ops F}.

Lemma wp_ret {A} (r : A) (Q : A -> store F -> Prop) E s :
  Q r s -> wp (ret r) Q E s.
Proof. intros HQ. exact HQ. Qed.

Lemma wp_bind {A B} (c : M F A) (k : A -> M F B) (Q : B -> store F -> Prop) E s :
  wp c (fun r s' => wp (k r) Q E s') E s -> wp (bind c k) Q E s.
Proof.
  unfold wp. cbn. unfold M_bind.
  destruct (c s) as [[r s']|e]; auto.
Qed.

Lemma wp_mono {A} (c : M F A) (Q Q' : A -> store F -> Prop) (E E' : exn -> Prop) s :
  wp c Q E s ->
  (forall r s', Q r s' -> Q' r s') -> (forall e, E e -> E' e) ->
  wp c Q' E' s.
Proof.
  unfold wp. destruct (c s) as [[r s']|e]; auto.
Qed.

Lemma wp_eq {A} (c : M F A) (Q : A -> store F -> Prop) E (s s' : store F) (r : A) :
  c s = Ok (r, s') -> Q r s' -> wp c Q E s.
Proof. intros Hc HQ. unfold wp. now rewrite Hc. Qed.

Lemma wp_Ok {A} (c : M F A) (Q : A -> store F -> Prop) (s : store F) :
  wp c Q never s -> exists r s', c s = Ok (r, s') /\ Q r s'.
Proof.
  unfold wp. destruct (c s) as [[r s']|e]; [eauto|intros []].
Qed.

Lemma wp_lift {A} (c : result A) (Q : A -> store F -> Prop) E s :
  rwp c (fun r => Q r s) E -> wp (lift c) Q E s.
Proof. unfold wp, rwp, lift. destruct c; auto. Qed.

Lemma rwp_bind {A B} (c : result A) (k : A -> result B) (Q : B -> Prop) E :
  rwp c (fun r => rwp (k r) Q E) E -> rwp (bind c k) Q E.
Proof. unfold rwp. cbn. destruct c; auto. Qed.

Lemma wp_for_seq {B} (body : nat -> B -> M F B)
    (Inv : nat -> B -> store F -> Prop) E (n : nat) :
  forall lo b s,
    Inv lo b s ->
    (forall i b' s', lo <= i < lo + n -> Inv i b' s' ->
                     wp (body i b') (Inv (S i)) E s') ->
    wp (for_fold (seq lo n) b body) (Inv (lo + n)) E s.
Proof.
  induction n as [|n IH]; intros lo b s H0 Hstep; simpl.
  - apply wp_ret. now rewrite Nat.add_0_r.
  - apply wp_bind. eapply wp_mono.
    + apply (Hstep lo b s); [lia|exact H0].
    + intros r s' Hr. cbv beta. replace (lo + S n) with (S lo + n) by lia.
      apply IH; [exact Hr|]. intros i b' s'' Hi. apply Hstep. lia.
    + auto.
Qed.

Lemma wp_for_range {B} (body : nat -> B -> M F B)
    (Inv : nat -> B -> store F -> Prop) E (lo hi : nat) b s :
  Inv lo b s ->
  (forall i b' s', lo <= i <= hi -> Inv i b' s' ->
                   wp (body i b') (Inv (S i)) E s') ->
  wp (for_fold (range lo hi) b body) (Inv (lo + (hi + 1 - lo))) E s.
Proof.
  intros H0 Hstep. unfold range. apply wp_for_seq; [exact H0|].
  intros i b' s' Hi. apply Hstep. lia.
Qed.

Lemma wp_for_each_range (body : nat -> M F unit)
    (Inv : nat -> store F -> Prop) E (lo hi : nat) s :
  Inv lo s ->
  (forall i s', lo <= i <= hi -> Inv i s' ->
                wp (body i) (fun _ => Inv (S i)) E s') ->
  wp (for_each (range lo hi) body) (fun _ => Inv (lo + (hi + 1 - lo))) E s.
Proof.
  intros H0 Hstep. unfold for_each.
  apply (wp_for_range (fun i _ => body i) (fun i _ => Inv i)); auto.
Qed.

End Rules.

Section Primitives.

Context {F : Type} `{Float64Ops F}.

Implicit Types s : store F.

Lemma wf_body_at s i :
  wf s -> 1 <= i <= nbodies s ->
  length (x (body_at s i)) = NDIM /\ length (v (body_at s i)) = NDIM.
Proof.
  intros [Hb _] Hi. unfold wf_bodies in Hb. rewrite Forall_forall in Hb.
  apply Hb. apply nth_In. unfold nbodies in Hi. lia.
Qed.

Lemma wf_row s i :
  wf s -> 1 <= i <= nbodies s -> length (nth (i - 1) (a s) []) = NDIM.
Proof.
  intros [_ [Hl Hr]] Hi. rewrite Forall_forall in Hr.
  apply Hr. apply nth_In. lia.
Qed.

Lemma get_body_at s i :
  1 <= i <= nbodies s -> get_body i s = Ok (body_at s i, s).
Proof.
  intros Hi. unfold get_body, body_at.
  now rewrite (getindex_nth (bodies s) i (mkBody zero [] []) Hi).
Qed.

Lemma get_a_acc s i d :
  wf s -> 1 <= i <= nbodies s -> 1 <= d <= NDIM ->
  get_a i d s = Ok (acc s i d, s).
Proof.
  intros Hwf Hi Hd. unfold get_a, acc.
  pose proof (wf_row s i Hwf Hi) as Hr. destruct Hwf as [_ [Hl _]].
  rewrite (getindex_nth (a s) i []) by lia.
  unfold lift. rewrite (getindex_nth _ d zero) by lia. reflexivity.
Qed.

Lemma set_a_upd s i d y :
  wf s -> 1 <= i <= nbodies s -> 1 <= d <= NDIM ->
  set_a i d y s = Ok (tt, upd_a s i d y).
Proof.
  intros Hwf Hi Hd. unfold set_a, upd_a.
  pose proof (wf_row s i Hwf Hi) as Hr. destruct Hwf as [_ [Hl _]].
  rewrite (getindex_nth (a s) i []) by lia.
  rewrite setindex_replace by lia.
  rewrite setindex_replace by lia. reflexivity.
Qed.

Lemma fill_a_upd s i y :
  wf s -> 1 <= i <= nbodies s -> fill_a i y s = Ok (tt, upd_row s i y).
Proof.
  intros Hwf Hi. unfold fill_a, upd_row. destruct Hwf as [_ [Hl _]].
  rewrite (getindex_nth (a s) i []) by lia.
  rewrite setindex_replace by lia. reflexivity.
Qed.

Lemma set_x_upd s i d y :
  wf s -> 1 <= i <= nbodies s -> 1 <= d <= NDIM ->
  set_x i d y s = Ok (tt, upd_x s i d y).
Proof.
  intros Hwf Hi Hd. unfold set_x, upd_x.
  destruct (wf_body_at s i Hwf Hi) as [Hx _]. unfold body_at in *.
  rewrite (getindex_nth (bodies s) i (mkBody zero [] []) Hi).
  rewrite setindex_replace by lia.
  rewrite setindex_replace by exact Hi. reflexivity.
Qed.

Lemma set_v_upd s i d y :
  wf s -> 1 <= i <= nbodies s -> 1 <= d <= NDIM ->
  set_v i d y s = Ok (tt, upd_v s i d y).
Proof.
  intros Hwf Hi Hd. unfold set_v, upd_v.
  destruct (wf_body_at s i Hwf Hi) as [_ Hv]. unfold body_at in *.
  rewrite (getindex_nth (bodies s) i (mkBody zero [] []) Hi).
  rewrite setindex_replace by lia.
  rewrite setindex_replace by exact Hi. reflexivity.
Qed.

(** Well-formedness is kept by every write. *)

Lemma wf_upd_a s i d y : wf s -> wf (upd_a s i d y).
Proof.
  intros [Hb [Hl Hr]]. split; [exact Hb|]. split; simpl.
  - rewrite length_replace_nth. exact Hl.
  - apply Forall_replace_nth; [exact Hr|]. intros Hlt.
    rewrite length_replace_nth.
    rewrite Forall_forall in Hr. apply Hr. now apply nth_In.
Qed.

Lemma wf_upd_row s i y : wf s -> wf (upd_row s i y).
Proof.
  intros [Hb [Hl Hr]]. split; [exact Hb|]. split; simpl.
  - rewrite length_replace_nth. exact Hl.
  - apply Forall_replace_nth; [exact Hr|]. intros Hlt.
    rewrite length_map.
    rewrite Forall_forall in Hr. apply Hr. now apply nth_In.
Qed.

Lemma wf_upd_x s i d y : wf s -> wf (upd_x s i d y).
Proof.
  intros [Hb [Hl Hr]]. unfold wf, nbodies, upd_x. simpl.
  rewrite length_replace_nth. split; [|split; assumption].
  apply Forall_replace_nth; [exact Hb|]. intros Hlt. simpl.
  rewrite length_replace_nth.
  unfold wf_bodies in Hb. rewrite Forall_forall in Hb.
  apply Hb. unfold body_at. now apply nth_In.
Qed.

Lemma wf_upd_v s i d y : wf s -> wf (upd_v s i d y).
Proof.
  intros [Hb [Hl Hr]]. unfold wf, nbodies, upd_v. simpl.
  rewrite length_replace_nth. split; [|split; assumption].
  apply Forall_replace_nth; [exact Hb|]. intros Hlt. simpl.
  rewrite length_replace_nth.
  unfold wf_bodies in Hb. rewrite Forall_forall in Hb.
  apply Hb. unfold body_at. now apply nth_In.
Qed.

(** What a write changes, and what it leaves. *)

Lemma acc_upd_a s i d y i' d' :
  wf s -> 1 <= i <= nbodies s -> 1 <= d <= NDIM -> 1 <= i' -> 1 <= d' ->
  acc (upd_a s i d y) i' d' =
  if (i' =? i) && (d' =? d) then y else acc s i' d'.
Proof.
  intros Hwf Hi Hd Hi' Hd'. pose proof (wf_row s i Hwf Hi) as Hr.
  destruct Hwf as [_ [Hl _]]. unfold acc, upd_a. simpl.
  rewrite nth_replace_nth by lia.
  destruct (Nat.eqb_spec (i' - 1) (i - 1)) as [Hii|Hii].
  - replace (i' =? i) with true by (symmetry; apply Nat.eqb_eq; lia).
    rewrite nth_replace_nth by lia.
    destruct (Nat.eqb_spec (d' - 1) (d - 1)) as [Hdd|Hdd].
    + replace (d' =? d) with true by (symmetry; apply Nat.eqb_eq; lia).
      reflexivity.
    + replace (d' =? d) with false by (symmetry; apply Nat.eqb_neq; lia).
      simpl. now rewrite Hii.
  - replace (i' =? i) with false by (symmetry; apply Nat.eqb_neq; lia).
    reflexivity.
Qed.

Lemma acc_upd_row s i y i' d' :
  wf s -> 1 <= i <= nbodies s -> 1 <= i' -> 1 <= d' <= NDIM ->
  acc (upd_row s i y) i' d' = if i' =? i then y else acc s i' d'.
Proof.
  intros Hwf Hi Hi' Hd'. pose proof (wf_row s i Hwf Hi) as Hr.
  destruct Hwf as [_ [Hl _]]. unfold acc, upd_row. simpl.
  rewrite nth_replace_nth by lia.
  destruct (Nat.eqb_spec (i' - 1) (i - 1)) as [Hii|Hii].
  - replace (i' =? i) with true by (symmetry; apply Nat.eqb_eq; lia).
    rewrite (nth_indep _ zero y) by (rewrite length_map; lia).
    now rewrite (map_nth (fun _ => y)).
  - replace (i' =? i) with false by (symmetry; apply Nat.eqb_neq; lia).
    reflexivity.
Qed.

Lemma body_at_upd_x s i d y i' :
  1 <= i <= nbodies s -> 1 <= i' ->
  body_at (upd_x s i d y) i' =
  if i' =? i
  then mkBody (m (body_at s i)) (replace_nth (x (body_at s i)) (d - 1) y)
              (v (body_at s i))
  else body_at s i'.
Proof.
  intros Hi Hi'. unfold body_at at 1, upd_x. simpl. unfold nbodies in Hi.
  rewrite nth_replace_nth by lia.
  destruct (Nat.eqb_spec (i' - 1) (i - 1)) as [Hii|Hii].
  - replace (i' =? i) with true by (symmetry; apply Nat.eqb_eq; lia).
    reflexivity.
  - replace (i' =? i) with false by (symmetry; apply Nat.eqb_neq; lia).
    reflexivity.
Qed.

Lemma body_at_upd_v s i d y i' :
  1 <= i <= nbodies s -> 1 <= i' ->
  body_at (upd_v s i d y) i' =
  if i' =? i
  then mkBody (m (body_at s i)) (x (body_at s i))
              (replace_nth (v (body_at s i)) (d - 1) y)
  else body_at s i'.
Proof.
  intros Hi Hi'. unfold body_at at 1, upd_v. simpl. unfold nbodies in Hi.
  rewrite nth_replace_nth by lia.
  destruct (Nat.eqb_spec (i' - 1) (i - 1)) as [Hii|Hii].
  - replace (i' =? i) with true by (symmetry; apply Nat.eqb_eq; lia).
    reflexivity.
  - replace (i' =? i) with false by (symmetry; apply Nat.eqb_neq; lia).
    reflexivity.
Qed.

Lemma pos_upd_x s i d y i' d' :
  wf s -> 1 <= i <= nbodies s -> 1 <= d <= NDIM -> 1 <= i' -> 1 <= d' ->
  pos (upd_x s i d y) i' d' =
  if (i' =? i) && (d' =? d) then y else pos s i' d'.
Proof.
  intros Hwf Hi Hd Hi' Hd'. destruct (wf_body_at s i Hwf Hi) as [Hx _].
  unfold pos. rewrite body_at_upd_x by assumption.
  destruct (Nat.eqb_spec i' i) as [->|Hii]; simpl; [|reflexivity].
  rewrite nth_replace_nth by lia.
  destruct (Nat.eqb_spec (d' - 1) (d - 1)) as [Hdd|Hdd].
  - replace (d' =? d) with true by (symmetry; apply Nat.eqb_eq; lia).
    reflexivity.
  - replace (d' =? d) with false by (symmetry; apply Nat.eqb_neq; lia).
    reflexivity.
Qed.

Lemma vel_upd_x s i d y i' d' :
  1 <= i <= nbodies s -> 1 <= i' -> vel (upd_x s i d y) i' d' = vel s i' d'.
Proof.
  intros Hi Hi'. unfold vel. rewrite body_at_upd_x by assumption.
  destruct (Nat.eqb_spec i' i) as [->|Hii]; reflexivity.
Qed.

Lemma mass_upd_x s i d y i' :
  1 <= i <= nbodies s -> 1 <= i' -> mass (upd_x s i d y) i' = mass s i'.
Proof.
  intros Hi Hi'. unfold mass. rewrite body_at_upd_x by assumption.
  destruct (Nat.eqb_spec i' i) as [->|Hii]; reflexivity.
Qed.

Lemma vel_upd_v s i d y i' d' :
  wf s -> 1 <= i <= nbodies s -> 1 <= d <= NDIM -> 1 <= i' -> 1 <= d' ->
  vel (upd_v s i d y) i' d' =
  if (i' =? i) && (d' =? d) then y else vel s i' d'.
Proof.
  intros Hwf Hi Hd Hi' Hd'. destruct (wf_body_at s i Hwf Hi) as [_ Hv].
  unfold vel. rewrite body_at_upd_v by assumption.
  destruct (Nat.eqb_spec i' i) as [->|Hii]; simpl; [|reflexivity].
  rewrite nth_replace_nth by lia.
  destruct (Nat.eqb_spec (d' - 1) (d - 1)) as [Hdd|Hdd].
  - replace (d' =? d) with true by (symmetry; apply Nat.eqb_eq; lia).
    reflexivity.
  - replace (d' =? d) with false by (symmetry; apply Nat.eqb_neq; lia).
    reflexivity.
Qed.

Lemma pos_upd_v s i d y i' d' :
  1 <= i <= nbodies s -> 1 <= i' -> pos (upd_v s i d y) i' d' = pos s i' d'.
Proof.
  intros Hi Hi'. unfold pos. rewrite body_at_upd_v by assumption.
  destruct (Nat.eqb_spec i' i) as [->|Hii]; reflexivity.
Qed.

Lemma mass_upd_v s i d y i' :
  1 <= i <= nbodies s -> 1 <= i' -> mass (upd_v s i d y) i' = mass s i'.
Proof.
  intros Hi Hi'. unfold mass. rewrite body_at_upd_v by assumption.
  destruct (Nat.eqb_spec i' i) as [->|Hii]; reflexivity.
Qed.

Lemma nbodies_upd_x s i d y : nbodies (upd_x s i d y) = nbodies s.
Proof. unfold nbodies, upd_x. simpl. apply length_replace_nth. Qed.

Lemma nbodies_upd_v s i d y : nbodies (upd_v s i d y) = nbodies s.
Proof. unfold nbodies, upd_v. simpl. apply length_replace_nth. Qed.

End Primitives.


(** ** Exact arithmetic *)

Section ExactFacts.

Import Exact.
Local Open Scope R_scope.

Implicit Types s : store R.

Lemma lit_0 : literal 0 0 = 0.
Proof. unfold literal. simpl. lra. Qed.

Lemma lit_1 : literal 1 0 = 1.
Proof. unfold literal. simpl. lra. Qed.

Lemma lit_half : literal 5 (-1) = 0.5.
Proof. unfold literal. simpl. lra. Qed.

Lemma zero_R : @zero R _ = 0.
Proof. unfold zero. cbn. unfold literal. simpl. lra. Qed.

Lemma one_R : @one R _ = 1.
Proof. unfold one. cbn. unfold literal. simpl. lra. Qed.

Lemma half_R : @half R _ = 0.5.
Proof. unfold half. cbn. unfold literal. simpl. lra. Qed.

Lemma eps2_pos : 0 < eps2.
Proof. unfold eps2, SOFTENING. cbn. unfold literal. simpl. lra. Qed.

Lemma Rsum_nil {I : Type} (f : I -> R) : Rsum [] f = 0.
Proof. reflexivity. Qed.

Lemma Rsum_app {I : Type} (l1 l2 : list I) (f : I -> R) : Rsum (l1 ++ l2) f = Rsum l1 f + Rsum l2 f.
Proof.
  induction l1 as [|i l1 IH]; simpl.
  - lra.
  - rewrite IH. lra.
Qed.

Lemma Rsum_snoc lo n f :
  Rsum (seq lo (S n)) f = Rsum (seq lo n) f + f (lo + n)%nat.
Proof. rewrite seq_S, Rsum_app. simpl. lra. Qed.

Lemma Rsum_ext {I : Type} (l : list I) (f g : I -> R) :
  (forall i, In i l -> f i = g i) -> Rsum l f = Rsum l g.
Proof.
  induction l as [|i l IH]; intros Hfg; simpl; [reflexivity|].
  rewrite (Hfg i) by (left; reflexivity).
  rewrite IH; [reflexivity|]. intros j Hj. apply Hfg. now right.
Qed.

Lemma Rsum_zero {I : Type} (l : list I) (f : I -> R) : (forall i, In i l -> f i = 0) -> Rsum l f = 0.
Proof.
  induction l as [|i l IH]; intros Hf; simpl; [reflexivity|].
  rewrite (Hf i) by (left; reflexivity).
  rewrite IH; [lra|]. intros j Hj. apply Hf. now right.
Qed.

Lemma Rsum_plus {I : Type} (l : list I) (f g : I -> R) :
  Rsum l (fun i => f i + g i) = Rsum l f + Rsum l g.
Proof. induction l as [|i l IH]; simpl; [lra|]. rewrite IH. lra. Qed.

Lemma Rsum_scal {I : Type} (l : list I) (c : R) (f : I -> R) : Rsum l (fun i => c * f i) = c * Rsum l f.
Proof. induction l as [|i l IH]; simpl; [lra|]. rewrite IH. lra. Qed.

Lemma Rsum_nonneg {I : Type} (l : list I) (f : I -> R) : (forall i, 0 <= f i) -> 0 <= Rsum l f.
Proof.
  intros Hf. induction l as [|i l IH]; simpl; [lra|].
  specialize (Hf i). lra.
Qed.

Lemma Rsum_swap {I J : Type} (l1 : list I) (l2 : list J) (f : I -> J -> R) :
  Rsum l1 (fun i => Rsum l2 (fun j => f i j)) =
  Rsum l2 (fun j => Rsum l1 (fun i => f i j)).
Proof.
  induction l1 as [|i l1 IH]; simpl.
  - symmetry. apply Rsum_zero. reflexivity.
  - rewrite IH. now rewrite Rsum_plus.
Qed.

(** The sum that selects one index. *)
Lemma Rsum_pick lo n k (f : nat -> R) :
  Rsum (seq lo n) (fun i => if (k =? i)%nat then f i else 0) =
  if ((lo <=? k) && (k <? lo + n))%nat then f k else 0.
Proof.
  revert lo. induction n as [|n IH]; intros lo; simpl.
  - destruct (lo <=? k)%nat eqn:H1; simpl; [|reflexivity].
    destruct (Nat.ltb_spec k (lo + 0)); [|reflexivity].
    apply Nat.leb_le in H1. lia.
  - rewrite IH. destruct (Nat.eqb_spec k lo) as [->|Hne].
    + replace (S lo <=? lo)%nat with false by (symmetry; apply Nat.leb_gt; lia).
      replace (lo <=? lo)%nat with true by (symmetry; apply Nat.leb_le; lia).
      replace (lo <? lo + S n)%nat with true by (symmetry; apply Nat.ltb_lt; lia).
      simpl. lra.
    + destruct (Nat.leb_spec (S lo) k), (Nat.leb_spec lo k); try lia; simpl.
      * replace (lo + S n)%nat with (S lo + n)%nat by lia. simpl. lra.
      * lra.
Qed.

Lemma sqdist_nonneg s i j : 0 <= sqdist s i j.
Proof.
  unfold sqdist. apply Rsum_nonneg. intros d.
  set (r := pos s j d - pos s i d). nra.
Qed.

Lemma sqdist_sym s i j : sqdist s i j = sqdist s j i.
Proof. unfold sqdist. apply Rsum_ext. intros d _. ring. Qed.

Lemma softened_pos s i j : 0 < sqdist s i j + eps2.
Proof. pose proof (sqdist_nonneg s i j). pose proof eps2_pos. lra. Qed.

Lemma invr3_sym s i j : invr3 s i j = invr3 s j i.
Proof. unfold invr3. now rewrite sqdist_sym. Qed.

(** The two local computations of a pair. *)

Lemma vec2 {A} (l : list A) :
  length l = NDIM -> exists y z, l = [y; z].
Proof.
  destruct l as [|y [|z [|w l]]]; simpl; try discriminate. eauto.
Qed.

Lemma displacement_exact (xi xj : list R) :
  length xi = NDIM -> length xj = NDIM ->
  exists rvec,
    displacement xi xj =
      Ok (rvec, Rsum (range 1 NDIM)
                  (fun d => (nth (d - 1) xj zero - nth (d - 1) xi zero) *
                            (nth (d - 1) xj zero - nth (d - 1) xi zero))) /\
    length rvec = NDIM /\
    forall d, (1 <= d <= NDIM)%nat ->
              getindex rvec d = Ok (nth (d - 1) xj zero - nth (d - 1) xi zero).
Proof.
  intros Hi Hj.
  destruct (vec2 xi Hi) as (xi1 & xi2 & ->).
  destruct (vec2 xj Hj) as (xj1 & xj2 & ->).
  exists [xj1 - xi1; xj2 - xi2]. split; [|split].
  - unfold displacement. cbn. rewrite lit_0. f_equal. f_equal. ring.
  - reflexivity.
  - intros d Hd. unfold NDIM in Hd.
    assert (d = 1 \/ d = 2)%nat as [-> | ->] by lia; reflexivity.
Qed.

Lemma inv_r3_exact (r2e : R) :
  0 < r2e -> inv_r3 r2e = Ok (1 / (sqrt r2e * r2e)).
Proof.
  intros Hpos. unfold inv_r3. cbn. unfold sqrt_checked.
  destruct (Rlt_dec r2e 0) as [Hneg|_]; [lra|]. cbn.
  unfold finv. cbn. unfold div_checked.
  assert (0 < sqrt r2e) by now apply sqrt_lt_R0.
  destruct (Req_dec_T (sqrt r2e * r2e) 0) as [Hz|_]; [nra|].
  now rewrite lit_1.
Qed.

End ExactFacts.


(** ** The force kernel *)

Section Kernel.

Import Exact.
Local Open Scope R_scope.

Implicit Types s : store R.

(** Quantities that read the bodies only. *)

Lemma body_at_frame s s' i : bodies s' = bodies s -> body_at s' i = body_at s i.
Proof. intros Hb. unfold body_at. now rewrite Hb. Qed.

Lemma nbodies_frame s s' : bodies s' = bodies s -> nbodies s' = nbodies s.
Proof. intros Hb. unfold nbodies. now rewrite Hb. Qed.

Lemma pos_frame s s' i d : bodies s' = bodies s -> pos s' i d = pos s i d.
Proof. intros Hb. unfold pos. now rewrite (body_at_frame _ _ i Hb). Qed.

Lemma vel_frame s s' i d : bodies s' = bodies s -> vel s' i d = vel s i d.
Proof. intros Hb. unfold vel. now rewrite (body_at_frame _ _ i Hb). Qed.

Lemma mass_frame s s' i : bodies s' = bodies s -> mass s' i = mass s i.
Proof. intros Hb. unfold mass. now rewrite (body_at_frame _ _ i Hb). Qed.

(** One pair adds its two kicks and nothing else. *)
Lemma wp_pair_force s0 s i j :
  wf s -> bodies s = bodies s0 ->
  (1 <= i <= nbodies s0)%nat -> (1 <= j <= nbodies s0)%nat ->
  wp (pair_force eps2 i (x (body_at s0 i)) (m (body_at s0 i)) j)
     (fun _ s' =>
        bodies s' = bodies s0 /\ stdout s' = stdout s /\ wf s' /\
        forall k d, (1 <= k)%nat -> (1 <= d <= NDIM)%nat ->
                    acc s' k d = acc s k d + pair_kick s0 i j k d)
     never s.
Proof.
  intros Hwf Hb Hi Hj.
  assert (HN : nbodies s = nbodies s0) by now apply nbodies_frame.
  assert (Hwf0 : wf_bodies (bodies s0)) by (rewrite <- Hb; apply Hwf).
  assert (Hxi : length (x (body_at s0 i)) = NDIM /\ length (x (body_at s0 j)) = NDIM).
  { unfold wf_bodies in Hwf0. rewrite Forall_forall in Hwf0. unfold nbodies in *.
    split; apply Hwf0; apply nth_In; lia. }
  destruct Hxi as [Hxi Hxj].
  destruct (displacement_exact _ _ Hxi Hxj) as (rvec & Hdisp & Hlen & Hget).
  fold (pos s0 i) in Hdisp, Hget. 
  unfold pair_force. apply wp_bind.
  eapply wp_eq; [apply get_body_at; lia|]. cbv beta.
  rewrite (body_at_frame _ _ j Hb).
  apply wp_bind. eapply wp_eq; [unfold lift; rewrite Hdisp; reflexivity|].
  cbv beta iota.
  change (Rsum (range 1 NDIM)
            (fun d => (nth (d - 1) (x (body_at s0 j)) zero -
                       nth (d - 1) (x (body_at s0 i)) zero) *
                      (nth (d - 1) (x (body_at s0 j)) zero -
                       nth (d - 1) (x (body_at s0 i)) zero)))
    with (sqdist s0 i j).
  apply wp_bind.
  eapply wp_eq; [unfold lift; cbn [fadd ops];
                 rewrite (inv_r3_exact _ (softened_pos s0 i j)); reflexivity|].
  fold (invr3 s0 i j). cbv beta.
  eapply wp_mono;
    [apply (wp_for_each_range _
      (fun d s' =>
         bodies s' = bodies s0 /\ stdout s' = stdout s /\ wf s' /\
         forall k d', (1 <= k)%nat -> (1 <= d' <= NDIM)%nat ->
           acc s' k d' = acc s k d' +
                         (if (d' <? d)%nat then pair_kick s0 i j k d' else 0))) | | ].
  - (* before the loop *)
    split; [exact Hb|]. split; [reflexivity|]. split; [exact Hwf|].
    intros k d' Hk Hd'.
    replace (d' <? 1)%nat with false by (symmetry; apply Nat.ltb_ge; lia). lra.
  - (* one component *)
    intros d s1 Hd (Hb1 & Ho1 & Hwf1 & Hacc1).
    assert (HN1 : nbodies s1 = nbodies s0) by now apply nbodies_frame.
    apply wp_bind. eapply wp_eq; [unfold lift; rewrite (Hget d Hd); reflexivity|].
    apply wp_bind. eapply wp_eq; [apply get_a_acc; [assumption|lia|assumption]|].
    apply wp_bind. eapply wp_eq; [apply set_a_upd; [assumption|lia|assumption]|].
    set (s2 := upd_a s1 i d _).
    assert (Hwf2 : wf s2) by (apply wf_upd_a; assumption).
    assert (HN2 : nbodies s2 = nbodies s0) by exact HN1.
    apply wp_bind. eapply wp_eq; [apply get_a_acc; [assumption|lia|assumption]|].
    eapply wp_eq; [apply set_a_upd; [assumption|lia|assumption]|].
    split; [exact Hb1|]. split; [exact Ho1|].
    split; [apply wf_upd_a; assumption|].
    { intros k d' Hk Hd'.
      rewrite acc_upd_a; try assumption; try lia.
      unfold s2. rewrite !acc_upd_a; try assumption; try lia.
      rewrite (Hacc1 k d' Hk Hd'), (Hacc1 i d), (Hacc1 j d); try lia.
      replace (d <? d)%nat with false by (symmetry; apply Nat.ltb_ge; lia).
      unfold pair_kick, kick_i, kick_j, pos, mass. cbn [fadd fmul fneg ops].
      destruct (Nat.eqb_spec k i) as [Hki|Hki], (Nat.eqb_spec k j) as [Hkj|Hkj],
               (Nat.eqb_spec d' d) as [Hdd|Hdd];
        subst; rewrite ?Nat.eqb_refl; simpl andb; cbv iota;
        try (replace (d <? S d)%nat with true by (symmetry; apply Nat.ltb_lt; lia));
        try (replace (d' <? S d)%nat with (d' <? d)%nat
              by (destruct (Nat.ltb_spec d' d), (Nat.ltb_spec d' (S d)); lia || reflexivity));
        try (replace (j =? i)%nat with false by (symmetry; apply Nat.eqb_neq; lia));
        rewrite ?Nat.ltb_irrefl; simpl andb; cbv iota; lra. }
  - (* after the loop *)
    intros _ s' (Hb' & Ho' & Hwf' & Hacc').
    split; [exact Hb'|]. split; [exact Ho'|]. split; [exact Hwf'|].
    intros k d Hk Hd. rewrite (Hacc' k d Hk Hd).
    replace (d <? 1 + (NDIM + 1 - 1))%nat with true
      by (symmetry; apply Nat.ltb_lt; unfold NDIM in *; lia).
    reflexivity.
  - intros e He. exact He.
Qed.

End Kernel.


Section KernelLoop.

Import Exact.
Local Open Scope R_scope.

Implicit Types s : store R.

(** The kernel leaves the bodies alone and overwrites the buffer with the
    sum of the kicks of all pairs. *)
Lemma wp_accelerations s :
  wf s ->
  wp accelerations
     (fun _ s' =>
        bodies s' = bodies s /\ stdout s' = stdout s /\ wf s' /\
        forall k d, (1 <= k <= nbodies s)%nat -> (1 <= d <= NDIM)%nat ->
                    acc s' k d = pair_sum s k d)
     never s.
Proof.
  intros Hwf. unfold accelerations.
  apply wp_bind. eapply wp_eq; [reflexivity|]. cbv beta.
  fold (nbodies s). set (N := nbodies s).
  (* zero *)
  apply wp_bind.
  eapply wp_mono;
    [apply (wp_for_each_range _
      (fun i s1 =>
         bodies s1 = bodies s /\ stdout s1 = stdout s /\ wf s1 /\
         forall k d, (1 <= k < i)%nat -> (1 <= d <= NDIM)%nat ->
                     acc s1 k d = 0)) | | intros e He; exact He].
  { split; [reflexivity|]. split; [reflexivity|]. split; [exact Hwf|].
    intros k d Hk. lia. }
  { intros i s1 Hi (Hb1 & Ho1 & Hwf1 & Hz).
    assert (HN1 : nbodies s1 = N) by now apply nbodies_frame.
    eapply wp_eq; [apply fill_a_upd; [assumption|lia]|].
    split; [exact Hb1|]. split; [exact Ho1|].
    split; [apply wf_upd_row; assumption|].
    intros k d Hk Hd. rewrite acc_upd_row; try assumption; try lia.
    destruct (Nat.eqb_spec k i) as [->|Hki]; [apply zero_R|].
    apply Hz; lia. }
  intros _ s1 (Hb1 & Ho1 & Hwf1 & Hz). cbv beta.
  (* pair forces *)
  eapply wp_mono;
    [apply (wp_for_each_range _
      (fun i s2 =>
         bodies s2 = bodies s /\ stdout s2 = stdout s /\ wf s2 /\
         forall k d, (1 <= k <= N)%nat -> (1 <= d <= NDIM)%nat ->
           acc s2 k d =
           Rsum (seq 1 (i - 1)) (fun i' =>
             Rsum (range (i' + 1) N) (fun j => pair_kick s i' j k d)))) | | intros e He; exact He].
  { split; [exact Hb1|]. split; [exact Ho1|]. split; [exact Hwf1|].
    intros k d Hk Hd. simpl. apply Hz; [lia|assumption]. }
  { intros i s2 Hi (Hb2 & Ho2 & Hwf2 & Hacc2).
    assert (HN2 : nbodies s2 = N) by now apply nbodies_frame.
    apply wp_bind. eapply wp_eq; [apply get_body_at; lia|]. cbv beta.
    rewrite (body_at_frame _ _ i Hb2).
    eapply wp_mono;
      [apply (wp_for_each_range _
        (fun j s3 =>
           bodies s3 = bodies s /\ stdout s3 = stdout s /\ wf s3 /\
           forall k d, (1 <= k <= N)%nat -> (1 <= d <= NDIM)%nat ->
             acc s3 k d =
             acc s2 k d +
             Rsum (seq (i + 1) (j - (i + 1)))
                  (fun j' => pair_kick s i j' k d))) | | intros e He; exact He].
    - split; [exact Hb2|]. split; [exact Ho2|]. split; [exact Hwf2|].
      intros k d Hk Hd. rewrite Nat.sub_diag. simpl. lra.
    - intros j s3 Hj (Hb3 & Ho3 & Hwf3 & Hacc3).
      eapply wp_mono; [apply (wp_pair_force s s3 i j); [assumption|assumption|fold N; lia|fold N; lia] | | intros e He; exact He].
      intros _ s4 (Hb4 & Ho4 & Hwf4 & Hacc4).
      split; [exact Hb4|]. split; [congruence|]. split; [exact Hwf4|].
      intros k d Hk Hd. rewrite Hacc4 by lia. rewrite Hacc3 by lia.
      replace (S j - (i + 1))%nat with (S (j - (i + 1))) by lia.
      rewrite Rsum_snoc.
      replace (i + 1 + (j - (i + 1)))%nat with j by lia. lra.
    - intros _ s3 (Hb3 & Ho3 & Hwf3 & Hacc3).
      split; [exact Hb3|]. split; [exact Ho3|]. split; [exact Hwf3|].
      intros k d Hk Hd. rewrite Hacc3 by lia. rewrite Hacc2 by lia.
      replace (S i - 1)%nat with (S (i - 1)) by lia.
      rewrite Rsum_snoc.
      replace (1 + (i - 1))%nat with i by lia.
      replace (i + 1 + (N + 1 - (i + 1)) - (i + 1))%nat
        with (N + 1 - (i + 1))%nat by lia.
      reflexivity. }
  intros _ s2 (Hb2 & Ho2 & Hwf2 & Hacc2).
  split; [exact Hb2|]. split; [exact Ho2|]. split; [exact Hwf2|].
  intros k d Hk Hd. rewrite Hacc2 by assumption.
  unfold pair_sum. fold N. unfold range at 2.
  replace (1 + (N - 1 + 1 - 1) - 1)%nat with (N - 1 + 1 - 1)%nat by lia.
  reflexivity.
Qed.

End KernelLoop.


Section ClosedForm.

Import Exact.
Local Open Scope R_scope.

Implicit Types s : store R.

Lemma Rsum_filter {I : Type} (p : I -> bool) (l : list I) (f : I -> R) :
  Rsum (filter p l) f = Rsum l (fun i => if p i then f i else 0).
Proof.
  induction l as [|i l IH]; simpl; [reflexivity|].
  destruct (p i); simpl; rewrite IH; lra.
Qed.

Lemma Rsum_map {I J : Type} (g : I -> J) (l : list I) (f : J -> R) :
  Rsum (map g l) f = Rsum l (fun i => f (g i)).
Proof. induction l as [|i l IH]; simpl; [reflexivity|]. now rewrite IH. Qed.

Lemma Rsum_flat_map {I J : Type} (g : I -> list J) (l : list I) (f : J -> R) :
  Rsum (flat_map g l) f = Rsum l (fun i => Rsum (g i) f).
Proof.
  induction l as [|i l IH]; simpl; [reflexivity|].
  now rewrite Rsum_app, IH.
Qed.

Lemma Rsum_if {I : Type} (c : bool) (l : list I) (f : I -> R) :
  Rsum l (fun i => if c then f i else 0) = if c then Rsum l f else 0.
Proof. destruct c; [reflexivity|]. apply Rsum_zero. reflexivity. Qed.

(** A sum cut below [k]. *)
Lemma Rsum_below (lo n k : nat) (f : nat -> R) :
  (lo <= k <= lo + n)%nat ->
  Rsum (seq lo n) (fun i => if (i <? k)%nat then f i else 0) =
  Rsum (seq lo (k - lo)) f.
Proof.
  intros Hk. replace n with ((k - lo) + (n - (k - lo)))%nat at 1 by lia.
  rewrite seq_app, Rsum_app.
  rewrite (Rsum_ext (seq lo (k - lo)) _ f).
  - rewrite (Rsum_zero (seq (lo + (k - lo)) (n - (k - lo)))); [lra|].
    intros i Hi. apply in_seq in Hi.
    destruct (Nat.ltb_spec i k); [lia|reflexivity].
  - intros i Hi. apply in_seq in Hi.
    destruct (Nat.ltb_spec i k); [reflexivity|lia].
Qed.

(** The double loop over pairs [i < j], read at one body [k]: each other
    body is met once, as the second of a pair when it comes after [k] and
    as the first when it comes before. *)
Lemma triangle_sum (T : nat -> nat -> R) (N k : nat) :
  (1 <= k <= N)%nat ->
  Rsum (range 1 (N - 1)) (fun i =>
    Rsum (range (i + 1) N) (fun j =>
      (if (k =? i)%nat then T i j else 0) +
      (if (k =? j)%nat then T j i else 0))) =
  Rsum (filter (fun j => negb (j =? k)%nat) (range 1 N)) (fun j => T k j).
Proof.
  intros Hk. unfold range.
  rewrite (Rsum_ext _ _ (fun i =>
             (if (k =? i)%nat then Rsum (seq (i + 1) (N + 1 - (i + 1))) (fun j => T i j) else 0) +
             (if (i <? k)%nat then T k i else 0))).
  2:{ intros i Hi. apply in_seq in Hi. rewrite Rsum_plus. f_equal.
      - apply Rsum_if.
      - rewrite (Rsum_pick (i + 1) (N + 1 - (i + 1)) k (fun j => T j i)).
        destruct (Nat.leb_spec (i + 1) k), (Nat.ltb_spec k (i + 1 + (N + 1 - (i + 1)))),
                 (Nat.ltb_spec i k); simpl; try reflexivity; lia. }
  rewrite Rsum_plus.
  rewrite (Rsum_pick 1 (N - 1 + 1 - 1) k
             (fun i => Rsum (seq (i + 1) (N + 1 - (i + 1))) (fun j => T i j))).
  rewrite Rsum_below by lia.
  rewrite Rsum_filter.
  replace (N + 1 - 1)%nat with ((k - 1) + (1 + (N - k)))%nat by lia.
  rewrite seq_app, Rsum_app. rewrite seq_app, Rsum_app.
  replace (1 + (k - 1))%nat with k by lia. simpl seq. simpl Rsum at 4.
  rewrite Nat.eqb_refl. simpl negb. cbv iota.
  rewrite (Rsum_ext (seq 1 (k - 1)) (fun i => if negb (i =? k)%nat then T k i else 0)
             (fun i => T k i)).
  2:{ intros i Hi. apply in_seq in Hi.
      destruct (Nat.eqb_spec i k); [lia|reflexivity]. }
  rewrite (Rsum_ext (seq (k + 1) (N - k)) (fun i => if negb (i =? k)%nat then T k i else 0)
             (fun i => T k i)).
  2:{ intros i Hi. apply in_seq in Hi.
      destruct (Nat.eqb_spec i k); [lia|reflexivity]. }
  destruct (Nat.leb_spec 1 k); [|lia]. simpl andb.
  replace (N + 1 - (k + 1))%nat with (N - k)%nat by lia.
  change (fun i : nat => T k i) with (T k).
  match goal with |- context [if ?c then _ else _] => destruct c eqn:Hc end.
  - lra.
  - apply Nat.ltb_ge in Hc. assert (k = N) by lia. subst k.
    replace (N - N)%nat with 0%nat by lia. simpl. lra.
Qed.

Lemma Rpower_3_2 (r : R) : 0 < r -> Rpower r (3 / 2) = sqrt r * r.
Proof.
  intros Hr. replace (3 / 2) with (/ 2 + 1) by lra.
  rewrite Rpower_plus, Rpower_sqrt, Rpower_1 by assumption. reflexivity.
Qed.

(** The kick body [i] takes from the pair is the Newtonian term of [j];
    the kick body [j] takes is the Newtonian term of [i]. *)
Lemma kick_i_newton s i j d :
  kick_i s i j d =
  G * mass s j * (pos s j d - pos s i d)
  / Rpower (sqdist s i j + SOFTENING * SOFTENING) (3 / 2).
Proof.
  pose proof (softened_pos s i j) as Hpos. unfold eps2 in Hpos.
  cbn [fmul ops] in Hpos.
  rewrite Rpower_3_2 by assumption. unfold kick_i, invr3, eps2. cbn [fmul ops].
  assert (0 < sqrt (sqdist s i j + SOFTENING * SOFTENING)) by now apply sqrt_lt_R0.
  field. split; lra.
Qed.

Lemma kick_j_newton s i j d :
  kick_j s i j d =
  G * mass s i * (pos s i d - pos s j d)
  / Rpower (sqdist s j i + SOFTENING * SOFTENING) (3 / 2).
Proof.
  rewrite <- kick_i_newton. unfold kick_j, kick_i.
  rewrite (invr3_sym s j i). ring.
Qed.

Lemma pair_sum_newton s k d :
  (1 <= k <= nbodies s)%nat -> pair_sum s k d = spec_acceleration s k d.
Proof.
  intros Hk. unfold pair_sum, spec_acceleration, pair_kick.
  rewrite <- (triangle_sum
                (fun i j => G * mass s j * (pos s j d - pos s i d)
                            / Rpower (sqdist s i j + SOFTENING * SOFTENING) (3 / 2))
                (nbodies s) k Hk).
  apply Rsum_ext. intros i _. apply Rsum_ext. intros j _.
  now rewrite kick_i_newton, kick_j_newton.
Qed.

(** Newton's third law for one pair. *)
Lemma pair_opposite s i j d :
  mass s i * kick_i s i j d + mass s j * kick_j s i j d = 0.
Proof. unfold kick_i, kick_j. ring. Qed.

End ClosedForm.


Section KernelTheorems.

Import Exact.
Local Open Scope R_scope.

Implicit Types s : store R.

(** Two well-formed stores that agree on what the program can read are the
    same store. *)
Lemma buffer_ext (N : nat) (a1 a2 : list (list R)) :
  wf_buffer N a1 -> wf_buffer N a2 ->
  (forall i d, (1 <= i <= N)%nat -> (1 <= d <= NDIM)%nat ->
     nth (d - 1) (nth (i - 1) a1 []) zero = nth (d - 1) (nth (i - 1) a2 []) zero) ->
  a1 = a2.
Proof.
  intros [Hl1 Hr1] [Hl2 Hr2] Heq.
  apply (nth_ext a1 a2 [] []); [congruence|].
  intros n Hn. rewrite Forall_forall in Hr1, Hr2.
  assert (H1 : length (nth n a1 []) = NDIM) by (apply Hr1, nth_In; lia).
  assert (H2 : length (nth n a2 []) = NDIM) by (apply Hr2, nth_In; lia).
  apply (nth_ext _ _ zero zero); [congruence|].
  intros k Hk. specialize (Heq (n + 1)%nat (k + 1)%nat).
  replace (n + 1 - 1)%nat with n in Heq by lia.
  replace (k + 1 - 1)%nat with k in Heq by lia.
  apply Heq; lia.
Qed.

Lemma store_ext s1 s2 :
  wf s1 -> wf s2 -> bodies s1 = bodies s2 -> stdout s1 = stdout s2 ->
  (forall i d, (1 <= i <= nbodies s1)%nat -> (1 <= d <= NDIM)%nat ->
               acc s1 i d = acc s2 i d) ->
  s1 = s2.
Proof.
  intros [_ Hw1] [_ Hw2] Hb Ho Hacc.
  assert (Ha : a s1 = a s2).
  { apply (buffer_ext (nbodies s1)); [exact Hw1| |exact Hacc].
    unfold nbodies. rewrite Hb. exact Hw2. }
  destruct s1, s2. simpl in *. congruence.
Qed.

(** The pairs the kernel visits: every [i < j] once. *)

Lemma in_pairs (N i j : nat) :
  In (i, j) (pairs N) <-> (1 <= i < j /\ j <= N)%nat.
Proof.
  unfold pairs, range. rewrite in_flat_map. split.
  - intros (i' & Hi' & Hin). apply in_map_iff in Hin.
    destruct Hin as (j' & [= -> ->] & Hj'). apply in_seq in Hi', Hj'. lia.
  - intros Hij. exists i. split; [apply in_seq; lia|].
    apply in_map_iff. exists j. split; [reflexivity|apply in_seq; lia].
Qed.

Lemma NoDup_row (i : nat) (l : list nat) :
  NoDup l -> NoDup (map (fun j => (i, j)) l).
Proof.
  induction 1 as [|j l Hj Hl IH]; simpl; constructor; [|exact IH].
  intros Hin. apply in_map_iff in Hin. destruct Hin as (j' & [= ->] & Hj').
  contradiction.
Qed.

Lemma NoDup_rows (N : nat) (l : list nat) :
  NoDup l ->
  NoDup (flat_map (fun i => map (fun j => (i, j)) (range (i + 1) N)) l).
Proof.
  induction 1 as [|i l Hi Hl IH]; simpl; [constructor|].
  apply NoDup_app; [apply NoDup_row, seq_NoDup|exact IH|].
  intros [i' j'] Hrow Hrest. apply in_map_iff in Hrow.
  destruct Hrow as (j & [= <- <-] & _).
  apply in_flat_map in Hrest. destruct Hrest as (i2 & Hi2 & Hin).
  apply in_map_iff in Hin. destruct Hin as (j2 & [= -> _] & _). contradiction.
Qed.

Lemma NoDup_pairs (N : nat) : NoDup (pairs N).
Proof. apply NoDup_rows, seq_NoDup. Qed.

Lemma pair_sum_pairs s k d :
  pair_sum s k d =
  Rsum (pairs (nbodies s)) (fun p => pair_kick s (fst p) (snd p) k d).
Proof.
  unfold pair_sum, pairs. rewrite Rsum_flat_map.
  apply Rsum_ext. intros i _. now rewrite Rsum_map.
Qed.

(** The kicks of all pairs carry no net momentum. *)
Lemma Rsum_pick_l (lo n i : nat) (f : nat -> R) :
  Rsum (seq lo n) (fun k => if (k =? i)%nat then f k else 0) =
  if ((lo <=? i) && (i <? lo + n))%nat then f i else 0.
Proof.
  rewrite <- Rsum_pick. apply Rsum_ext. intros k _.
  now rewrite Nat.eqb_sym.
Qed.

Lemma pair_sum_momentum s d :
  Rsum (range 1 (nbodies s)) (fun k => mass s k * pair_sum s k d) = 0.
Proof.
  set (N := nbodies s).
  rewrite (Rsum_ext _ _ (fun k =>
             Rsum (range 1 (N - 1)) (fun i =>
               Rsum (range (i + 1) N) (fun j =>
                 mass s k * pair_kick s i j k d)))).
  2:{ intros k _. unfold pair_sum. fold N. rewrite <- Rsum_scal.
      apply Rsum_ext. intros i _. now rewrite Rsum_scal. }
  rewrite Rsum_swap. apply Rsum_zero. intros i Hi.
  rewrite Rsum_swap. apply Rsum_zero. intros j Hj.
  unfold range in Hi, Hj. apply in_seq in Hi, Hj.
  rewrite (Rsum_ext _ _ (fun k =>
             (if (k =? i)%nat then mass s k * kick_i s i j d else 0) +
             (if (k =? j)%nat then mass s k * kick_j s i j d else 0))).
  2:{ intros k _. unfold pair_kick.
      destruct (k =? i)%nat, (k =? j)%nat; ring. }
  rewrite Rsum_plus. unfold range.
  rewrite (Rsum_pick_l 1 (N + 1 - 1) i (fun k => mass s k * kick_i s i j d)).
  rewrite (Rsum_pick_l 1 (N + 1 - 1) j (fun k => mass s k * kick_j s i j d)).
  destruct (Nat.leb_spec 1 i), (Nat.ltb_spec i (1 + (N + 1 - 1))),
           (Nat.leb_spec 1 j), (Nat.ltb_spec j (1 + (N + 1 - 1))); try lia.
  simpl andb. cbv iota. apply pair_opposite.
Qed.

End KernelTheorems.


(** ** The integrator step *)

Section Grid.

Context {F : Type} `{Float64Ops F}.

Implicit Types s : store F.

Lemma visited_step (i d k d' : nat) :
  visited i (S d) k d' = visited i d k d' || ((k =? i) && (d' =? d)).
Proof.
  unfold visited.
  destruct (Nat.ltb_spec k i), (Nat.eqb_spec k i), (Nat.ltb_spec d' (S d)),
           (Nat.ltb_spec d' d), (Nat.eqb_spec d' d); simpl; try reflexivity; lia.
Qed.

Lemma visited_here (i d : nat) : visited i d i d = false.
Proof. unfold visited. now rewrite !Nat.ltb_irrefl, andb_false_r. Qed.

Lemma visited_row (i k d' : nat) :
  1 <= d' <= NDIM -> visited i (S NDIM) k d' = visited (S i) 1 k d'.
Proof.
  intros Hd. unfold visited.
  destruct (Nat.ltb_spec k i), (Nat.eqb_spec k i), (Nat.ltb_spec d' (S NDIM)),
           (Nat.ltb_spec k (S i)), (Nat.eqb_spec k (S i)), (Nat.ltb_spec d' 1);
    simpl; try reflexivity; lia.
Qed.

Lemma visited_none (k d' : nat) : 1 <= k -> 1 <= d' -> visited 1 1 k d' = false.
Proof.
  intros Hk Hd. unfold visited.
  destruct (Nat.ltb_spec k 1), (Nat.ltb_spec d' 1); try lia.
  all: now rewrite andb_false_r.
Qed.

Lemma visited_all (N k d' : nat) : k <= N -> visited (S N) 1 k d' = true.
Proof.
  intros Hk. unfold visited. destruct (Nat.ltb_spec k (S N)); [reflexivity|lia].
Qed.

(** The two nested loops over bodies and components. *)
Lemma wp_for_grid (body : nat -> nat -> M F unit)
    (J : nat -> nat -> store F -> Prop) E (N : nat) s :
  J 1 1 s ->
  (forall i d s1, 1 <= i <= N -> 1 <= d <= NDIM -> J i d s1 ->
                  wp (body i d) (fun _ => J i (S d)) E s1) ->
  (forall i s1, 1 <= i <= N -> J i (S NDIM) s1 -> J (S i) 1 s1) ->
  wp (for_each (range 1 N) (fun i => for_each (range 1 NDIM) (body i)))
     (fun _ => J (S N) 1) E s.
Proof.
  intros H0 Hstep Hrow.
  eapply wp_mono;
    [apply (wp_for_each_range _ (fun i s1 => J i 1 s1)); [exact H0|] | | intros e He; exact He].
  - intros i s1 Hi HJ.
    eapply wp_mono;
      [apply (wp_for_each_range _ (fun d s2 => J i d s2)); [exact HJ|] | | intros e He; exact He].
    + intros d s2 Hd HJ2. apply Hstep; assumption.
    + intros u s2 HJ2. apply Hrow; [assumption|].
      replace (S NDIM) with (1 + (NDIM + 1 - 1)) by (unfold NDIM; lia).
      exact HJ2.
  - intros u s1 HJ. replace (S N) with (1 + (N + 1 - 1)) by lia. exact HJ.
Qed.

Lemma get_pos s i d :
  wf s -> 1 <= i <= nbodies s -> 1 <= d <= NDIM ->
  getindex (x (body_at s i)) d = Ok (pos s i d).
Proof.
  intros Hwf Hi Hd. destruct (wf_body_at s i Hwf Hi) as [Hx _].
  unfold pos. apply getindex_nth. lia.
Qed.

Lemma get_vel s i d :
  wf s -> 1 <= i <= nbodies s -> 1 <= d <= NDIM ->
  getindex (v (body_at s i)) d = Ok (vel s i d).
Proof.
  intros Hwf Hi Hd. destruct (wf_body_at s i Hwf Hi) as [_ Hv].
  unfold vel. apply getindex_nth. lia.
Qed.

Lemma acc_frame s s' i d : a s' = a s -> acc s' i d = acc s i d.
Proof. intros Ha. unfold acc. now rewrite Ha. Qed.

End Grid.

Section Step.

Import Exact.
Local Open Scope R_scope.

Implicit Types s : store R.

(** The first pair of loops: drift, and first half-kick. *)
Lemma wp_drift s dt :
  wf s ->
  wp (drift_and_half_kick dt (nbodies s))
     (fun _ s' =>
        wf s' /\ a s' = a s /\ stdout s' = stdout s /\
        nbodies s' = nbodies s /\
        (forall k, (1 <= k <= nbodies s)%nat -> mass s' k = mass s k) /\
        forall k d, (1 <= k <= nbodies s)%nat -> (1 <= d <= NDIM)%nat ->
          pos s' k d = pos s k d + (vel s k d * dt + 0.5 * acc s k d * dt * dt) /\
          vel s' k d = vel s k d + 0.5 * acc s k d * dt)
     never s.
Proof.
  intros Hwf. unfold drift_and_half_kick. set (N := nbodies s).
  eapply wp_mono;
    [apply (wp_for_grid _
      (fun i d s1 =>
         wf s1 /\ a s1 = a s /\ stdout s1 = stdout s /\ nbodies s1 = N /\
         (forall k, (1 <= k <= N)%nat -> mass s1 k = mass s k) /\
         forall k d', (1 <= k <= N)%nat -> (1 <= d' <= NDIM)%nat ->
           pos s1 k d' =
             (if visited i d k d'
              then pos s k d' + (vel s k d' * dt + 0.5 * acc s k d' * dt * dt)
              else pos s k d') /\
           vel s1 k d' =
             (if visited i d k d'
              then vel s k d' + 0.5 * acc s k d' * dt
              else vel s k d'))) | | intros e He; exact He].
  - do 5 (split; [first [exact Hwf|reflexivity]|]).
    intros k d' Hk Hd'. rewrite visited_none by lia. split; reflexivity.
  - intros i d s1 Hi Hd (Hwf1 & Ha1 & Ho1 & HN1 & Hm1 & Hpv1).
    destruct (Hpv1 i d Hi Hd) as [Hp Hv]. rewrite visited_here in Hp, Hv.
    apply wp_bind. eapply wp_eq; [apply get_body_at; lia|]. cbv beta.
    apply wp_bind.
    eapply wp_eq; [unfold lift; rewrite get_pos by (assumption || lia); reflexivity|].
    apply wp_bind.
    eapply wp_eq; [unfold lift; rewrite get_vel by (assumption || lia); reflexivity|].
    apply wp_bind. eapply wp_eq; [apply get_a_acc; (assumption || lia)|].
    apply wp_bind. eapply wp_eq; [apply set_x_upd; (assumption || lia)|].
    set (s2 := upd_x s1 i d _).
    assert (Hwf2 : wf s2) by (apply wf_upd_x; assumption).
    assert (HN2 : nbodies s2 = N) by (unfold s2; rewrite nbodies_upd_x; exact HN1).
    apply wp_bind. eapply wp_eq; [apply get_body_at; lia|]. cbv beta.
    apply wp_bind.
    eapply wp_eq; [unfold lift; rewrite get_vel by (assumption || lia); reflexivity|].
    apply wp_bind. eapply wp_eq; [apply get_a_acc; (assumption || lia)|].
    eapply wp_eq; [apply set_v_upd; (assumption || lia)|].
    split; [apply wf_upd_v; assumption|]. split; [exact Ha1|].
    split; [exact Ho1|]. split; [rewrite nbodies_upd_v; exact HN2|].
    split.
    + intros k Hk. rewrite mass_upd_v by lia. unfold s2.
      rewrite mass_upd_x by lia. apply Hm1, Hk.
    + intros k d' Hk Hd'. destruct (Hpv1 k d' Hk Hd') as [Hpk Hvk].
      rewrite pos_upd_v by lia. rewrite vel_upd_v by (assumption || lia).
      unfold s2. rewrite pos_upd_x by (assumption || lia).
      rewrite !vel_upd_x by lia.
      change (acc (upd_x s1 i d _) i d) with (acc s1 i d).
      rewrite (acc_frame s s1 i d Ha1).
      rewrite visited_step, Hp, Hv, Hpk, Hvk. cbn [fadd fmul ops].
      rewrite half_R.
      destruct ((k =? i)%nat && (d' =? d)%nat) eqn:Hhere.
      * apply andb_true_iff in Hhere. destruct Hhere as [Hki Hdd].
        apply Nat.eqb_eq in Hki, Hdd. subst k d'.
        rewrite visited_here. simpl orb. cbv iota. split; reflexivity.
      * rewrite orb_false_r. split; reflexivity.
  - intros i s1 Hi (Hwf1 & Ha1 & Ho1 & HN1 & Hm1 & Hpv1).
    do 5 (split; [assumption|]).
    intros k d' Hk Hd'. rewrite <- visited_row by assumption. now apply Hpv1.
  - intros _ s' (Hwf1 & Ha1 & Ho1 & HN1 & Hm1 & Hpv1).
    do 5 (split; [assumption|]).
    intros k d Hk Hd. destruct (Hpv1 k d Hk Hd) as [Hp Hv].
    rewrite visited_all in Hp, Hv by (fold N; lia). split; assumption.
Qed.

End Step.


Section StepTheorems.

Import Exact.
Local Open Scope R_scope.

Implicit Types s : store R.

(** The last pair of loops: second half-kick. *)
Lemma wp_kick s dt N :
  wf s -> nbodies s = N ->
  wp (half_kick dt N)
     (fun _ s' =>
        wf s' /\ a s' = a s /\ stdout s' = stdout s /\
        nbodies s' = nbodies s /\
        (forall k, (1 <= k <= nbodies s)%nat -> mass s' k = mass s k) /\
        forall k d, (1 <= k <= nbodies s)%nat -> (1 <= d <= NDIM)%nat ->
          pos s' k d = pos s k d /\
          vel s' k d = vel s k d + 0.5 * acc s k d * dt)
     never s.
Proof.
  intros Hwf HN. subst N. unfold half_kick. set (N := nbodies s).
  eapply wp_mono;
    [apply (wp_for_grid _
      (fun i d s1 =>
         wf s1 /\ a s1 = a s /\ stdout s1 = stdout s /\ nbodies s1 = N /\
         (forall k, (1 <= k <= N)%nat -> mass s1 k = mass s k) /\
         forall k d', (1 <= k <= N)%nat -> (1 <= d' <= NDIM)%nat ->
           pos s1 k d' = pos s k d' /\
           vel s1 k d' =
             (if visited i d k d'
              then vel s k d' + 0.5 * acc s k d' * dt
              else vel s k d'))) | | intros e He; exact He].
  - do 5 (split; [first [exact Hwf|reflexivity]|]).
    intros k d' Hk Hd'. rewrite visited_none by lia. split; reflexivity.
  - intros i d s1 Hi Hd (Hwf1 & Ha1 & Ho1 & HN1 & Hm1 & Hpv1).
    destruct (Hpv1 i d Hi Hd) as [Hp Hv]. rewrite visited_here in Hv.
    apply wp_bind. eapply wp_eq; [apply get_body_at; lia|]. cbv beta.
    apply wp_bind.
    eapply wp_eq; [unfold lift; rewrite get_vel by (assumption || lia); reflexivity|].
    apply wp_bind. eapply wp_eq; [apply get_a_acc; (assumption || lia)|].
    eapply wp_eq; [apply set_v_upd; (assumption || lia)|].
    split; [apply wf_upd_v; assumption|]. split; [exact Ha1|].
    split; [exact Ho1|]. split; [rewrite nbodies_upd_v; exact HN1|].
    split.
    + intros k Hk. rewrite mass_upd_v by lia. apply Hm1, Hk.
    + intros k d' Hk Hd'. destruct (Hpv1 k d' Hk Hd') as [Hpk Hvk].
      rewrite pos_upd_v by lia. rewrite vel_upd_v by (assumption || lia).
      rewrite (acc_frame s s1 i d Ha1).
      rewrite visited_step, Hv, Hpk, Hvk. cbn [fadd fmul ops].
      rewrite half_R. split; [reflexivity|].
      destruct ((k =? i)%nat && (d' =? d)%nat) eqn:Hhere.
      * apply andb_true_iff in Hhere. destruct Hhere as [Hki Hdd].
        apply Nat.eqb_eq in Hki, Hdd. subst k d'.
        rewrite visited_here. reflexivity.
      * rewrite orb_false_r. reflexivity.
  - intros i s1 Hi (Hwf1 & Ha1 & Ho1 & HN1 & Hm1 & Hpv1).
    do 5 (split; [assumption|]).
    intros k d' Hk Hd'. rewrite <- visited_row by assumption. now apply Hpv1.
  - intros u s' (Hwf1 & Ha1 & Ho1 & HN1 & Hm1 & Hpv1).
    do 5 (split; [assumption|]).
    intros k d Hk Hd. destruct (Hpv1 k d Hk Hd) as [Hp Hv].
    rewrite visited_all in Hv by (fold N; lia). split; assumption.
Qed.

(** The kicks read the masses and the positions, nothing else. *)
Lemma sqdist_frame s s' i j :
  (forall k d, (1 <= k <= nbodies s)%nat -> (1 <= d <= NDIM)%nat ->
               pos s' k d = pos s k d) ->
  (1 <= i <= nbodies s)%nat -> (1 <= j <= nbodies s)%nat ->
  sqdist s' i j = sqdist s i j.
Proof.
  intros Hp Hi Hj. unfold sqdist. apply Rsum_ext. intros d Hd.
  unfold range in Hd. apply in_seq in Hd.
  rewrite !Hp by (assumption || lia). reflexivity.
Qed.

Lemma pair_kick_frame s s' i j k d :
  (forall k, (1 <= k <= nbodies s)%nat -> mass s' k = mass s k) ->
  (forall k d, (1 <= k <= nbodies s)%nat -> (1 <= d <= NDIM)%nat ->
               pos s' k d = pos s k d) ->
  (1 <= i <= nbodies s)%nat -> (1 <= j <= nbodies s)%nat ->
  (1 <= d <= NDIM)%nat ->
  pair_kick s' i j k d = pair_kick s i j k d.
Proof.
  intros Hm Hp Hi Hj Hd. unfold pair_kick, kick_i, kick_j, invr3.
  rewrite (sqdist_frame s s' i j Hp Hi Hj).
  rewrite !Hm, !Hp by assumption. reflexivity.
Qed.

Lemma pair_sum_frame s s' k d :
  nbodies s' = nbodies s ->
  (forall k, (1 <= k <= nbodies s)%nat -> mass s' k = mass s k) ->
  (forall k d, (1 <= k <= nbodies s)%nat -> (1 <= d <= NDIM)%nat ->
               pos s' k d = pos s k d) ->
  (1 <= d <= NDIM)%nat ->
  pair_sum s' k d = pair_sum s k d.
Proof.
  intros HN Hm Hp Hd. unfold pair_sum. rewrite HN.
  apply Rsum_ext. intros i Hi. apply Rsum_ext. intros j Hj.
  unfold range in Hi, Hj. apply in_seq in Hi, Hj.
  apply pair_kick_frame; (assumption || lia).
Qed.

(** A buffer that holds the kicks of all pairs is current. *)
Lemma current_pair_sum s :
  wf s ->
  (forall k d, (1 <= k <= nbodies s)%nat -> (1 <= d <= NDIM)%nat ->
               acc s k d = pair_sum s k d) ->
  current s.
Proof.
  intros Hwf Hacc. unfold current.
  destruct (wp_Ok _ _ _ (wp_accelerations s Hwf))
    as ([] & s' & Hrun & Hb & Ho & Hwf' & Hacc').
  rewrite Hrun. f_equal. f_equal.
  apply store_ext; try assumption.
  intros i d Hi Hd. rewrite (nbodies_frame s s' Hb) in Hi.
  rewrite Hacc', Hacc by assumption. reflexivity.
Qed.

Lemma pair_sum_current s :
  wf s -> current s ->
  forall k d, (1 <= k <= nbodies s)%nat -> (1 <= d <= NDIM)%nat ->
              acc s k d = pair_sum s k d.
Proof.
  intros Hwf Hcur k d Hk Hd.
  destruct (wp_Ok _ _ _ (wp_accelerations s Hwf))
    as ([] & s' & Hrun & Hb & Ho & Hwf' & Hacc').
  unfold current in Hcur. rewrite Hcur in Hrun.
  injection Hrun as <-. now apply Hacc'.
Qed.

(** One step of velocity Verlet. *)
Lemma wp_vv_step s dt :
  wf s ->
  wp (vv_step dt)
     (fun _ s' =>
        wf s' /\ stdout s' = stdout s /\ nbodies s' = nbodies s /\
        (forall k, (1 <= k <= nbodies s)%nat -> mass s' k = mass s k) /\
        (forall k d, (1 <= k <= nbodies s)%nat -> (1 <= d <= NDIM)%nat ->
           pos s' k d = pos s k d + (vel s k d * dt + 0.5 * acc s k d * dt * dt) /\
           vel s' k d = vel s k d + 0.5 * acc s k d * dt + 0.5 * acc s' k d * dt /\
           acc s' k d = pair_sum s' k d) /\
        current s')
     never s.
Proof.
  intros Hwf. unfold vv_step.
  apply wp_bind. eapply wp_eq; [reflexivity|]. cbv beta. fold (nbodies s).
  apply wp_bind.
  eapply wp_mono; [apply (wp_drift s dt Hwf)| |intros e He; exact He].
  intros u s1 (Hwf1 & Ha1 & Ho1 & HN1 & Hm1 & Hpv1). cbv beta.
  apply wp_bind.
  eapply wp_mono; [apply (wp_accelerations s1 Hwf1)| |intros e He; exact He].
  intros u2 s2 (Hb2 & Ho2 & Hwf2 & Hacc2). cbv beta.
  assert (HN2 : nbodies s2 = nbodies s)
    by (rewrite (nbodies_frame s1 s2 Hb2); exact HN1).
  eapply wp_mono; [apply (wp_kick s2 dt _ Hwf2 HN2)| |intros e He; exact He].
  intros u3 s3 (Hwf3 & Ha3 & Ho3 & HN3 & Hm3 & Hpv3). cbv beta.
  assert (Hps : forall k d, (1 <= k <= nbodies s)%nat -> (1 <= d <= NDIM)%nat ->
                            acc s3 k d = pair_sum s3 k d).
  { intros k d Hk Hd. rewrite (acc_frame s2 s3 k d Ha3).
    rewrite Hacc2 by (rewrite ?HN1; assumption).
    symmetry. apply pair_sum_frame; try assumption.
    - congruence.
    - intros k' Hk'. rewrite HN1 in Hk'. rewrite Hm3 by (rewrite ?HN2; assumption).
      apply mass_frame. exact Hb2.
    - intros k' d' Hk' Hd'. rewrite HN1 in Hk'.
      destruct (Hpv3 k' d') as [-> _]; [rewrite HN2; assumption|assumption|].
      apply pos_frame. exact Hb2. }
  split; [exact Hwf3|]. split; [congruence|]. split; [congruence|].
  split; [|split].
  - intros k Hk. rewrite Hm3 by (rewrite ?HN2; assumption).
    rewrite (mass_frame s1 s2 k Hb2). apply Hm1, Hk.
  - intros k d Hk Hd.
    destruct (Hpv3 k d) as [Hp3 Hv3]; [rewrite HN2; assumption|assumption|].
    destruct (Hpv1 k d Hk Hd) as [Hp1 Hv1].
    rewrite Hp3, Hv3, (pos_frame s1 s2 k d Hb2), (vel_frame s1 s2 k d Hb2).
    rewrite Hp1, Hv1, (acc_frame s2 s3 k d Ha3).
    split; [reflexivity|]. split; [reflexivity|].
    rewrite <- (acc_frame s2 s3 k d Ha3). apply Hps; assumption.
  - apply current_pair_sum; [exact Hwf3|].
    intros k d Hk Hd. apply Hps; [|assumption]. rewrite HN3, HN2 in Hk. exact Hk.
Qed.

End StepTheorems.


(** ** The energy diagnostic *)

Section Energy.

Import Exact.
Local Open Scope R_scope.

Implicit Types s : store R.

Lemma speed2_exact (vi : list R) :
  length vi = NDIM ->
  speed2 vi = Ok (Rsum (range 1 NDIM)
                    (fun d => nth (d - 1) vi zero * nth (d - 1) vi zero)).
Proof.
  intros Hv. destruct (vec2 vi Hv) as (v1 & v2 & ->).
  unfold speed2. cbn. rewrite lit_0. f_equal. ring.
Qed.

Lemma dist2_exact (xi xj : list R) :
  length xi = NDIM -> length xj = NDIM ->
  dist2 xi xj =
  Ok (Rsum (range 1 NDIM)
        (fun d => (nth (d - 1) xj zero - nth (d - 1) xi zero) *
                  (nth (d - 1) xj zero - nth (d - 1) xi zero))).
Proof.
  intros Hi Hj. destruct (vec2 xi Hi) as (xi1 & xi2 & ->).
  destruct (vec2 xj Hj) as (xj1 & xj2 & ->).
  unfold dist2. cbn. rewrite lit_0. f_equal. ring.
Qed.

Lemma pair_potential_exact (mi mj r2 : R) :
  0 < r2 + eps2 ->
  pair_potential eps2 mi mj r2 = Ok (G * mi * mj / sqrt (r2 + eps2)).
Proof.
  intros Hpos. unfold pair_potential.
  cbn [bind result_Monad fsqrt fdiv fadd fmul ops]. unfold sqrt_checked.
  destruct (Rlt_dec (r2 + eps2) 0) as [Hneg|_]; [lra|]. cbn [result_bind].
  unfold div_checked.
  assert (0 < sqrt (r2 + eps2)) by now apply sqrt_lt_R0.
  destruct (Req_dec_T (sqrt (r2 + eps2)) 0) as [Hz|_]; [lra|reflexivity].
Qed.

Lemma wf_bodies_at s i :
  wf_bodies (bodies s) -> (1 <= i <= nbodies s)%nat ->
  length (x (body_at s i)) = NDIM /\ length (v (body_at s i)) = NDIM.
Proof.
  intros Hb Hi. unfold wf_bodies in Hb. rewrite Forall_forall in Hb.
  apply Hb. apply nth_In. unfold nbodies in Hi. lia.
Qed.

(** A sum cut above [i]. *)
Lemma Rsum_above (lo n i : nat) (f : nat -> R) :
  (lo <= i + 1 <= lo + n)%nat ->
  Rsum (seq lo n) (fun j => if (i <? j)%nat then f j else 0) =
  Rsum (seq (i + 1) (lo + n - (i + 1))) f.
Proof.
  intros Hi. replace n with ((i + 1 - lo) + (lo + n - (i + 1)))%nat at 1 by lia.
  rewrite seq_app, Rsum_app.
  replace (lo + (i + 1 - lo))%nat with (i + 1)%nat by lia.
  rewrite (Rsum_zero (seq lo (i + 1 - lo))).
  - rewrite (Rsum_ext (seq (i + 1) (lo + n - (i + 1))) _ f); [lra|].
    intros j Hj. apply in_seq in Hj.
    destruct (Nat.ltb_spec i j); [reflexivity|lia].
  - intros j Hj. apply in_seq in Hj.
    destruct (Nat.ltb_spec i j); [lia|reflexivity].
Qed.

(** The pairs [i < j], by rows as the loops visit them. *)
Lemma Rsum_upper (N : nat) (f : nat -> nat -> R) :
  Rsum (range 1 N) (fun i =>
    Rsum (filter (fun j => (i <? j)%nat) (range 1 N)) (f i)) =
  Rsum (range 1 (N - 1)) (fun i => Rsum (range (i + 1) N) (f i)).
Proof.
  unfold range.
  rewrite (Rsum_ext (seq 1 (N + 1 - 1)) _
             (fun i => Rsum (seq (i + 1) (N + 1 - (i + 1))) (f i))).
  2:{ intros i Hi. apply in_seq in Hi. rewrite Rsum_filter.
      rewrite Rsum_above by lia. f_equal. f_equal. lia. }
  destruct N as [|N]; [reflexivity|].
  replace (S N + 1 - 1)%nat with (S N) by lia.
  replace (S N - 1 + 1 - 1)%nat with N by lia.
  rewrite Rsum_snoc.
  replace (S N + 1 - (1 + N + 1))%nat with 0%nat by lia. simpl seq.
  rewrite Rsum_nil. lra.
Qed.

(** The diagnostic returns the kinetic plus the potential energy, and
    writes nothing. *)
Lemma wp_total_energy s :
  wf_bodies (bodies s) ->
  wp total_energy
     (fun E s' => s' = s /\ E = spec_kinetic s + spec_potential s)
     never s.
Proof.
  intros Hwf. unfold total_energy.
  apply wp_bind. eapply wp_eq; [reflexivity|]. cbv beta.
  fold (nbodies s). set (N := nbodies s).
  (* kinetic *)
  apply wp_bind.
  eapply wp_mono;
    [apply (wp_for_range _
      (fun i K s1 =>
         s1 = s /\
         K = Rsum (seq 1 (i - 1)) (fun i' => 0.5 * mass s i' * sqspeed s i')))
    | | intros e He; exact He].
  { split; [reflexivity|]. simpl. apply zero_R. }
  { intros i K s1 Hi [-> HK].
    destruct (wf_bodies_at s i Hwf) as [_ Hv]; [fold N; lia|].
    apply wp_bind. eapply wp_eq; [apply get_body_at; fold N; lia|]. cbv beta.
    apply wp_bind.
    eapply wp_eq; [unfold lift; rewrite (speed2_exact _ Hv); reflexivity|].
    apply wp_ret. split; [reflexivity|].
    replace (S i - 1)%nat with (S (i - 1)) by lia. rewrite Rsum_snoc.
    replace (1 + (i - 1))%nat with i by lia.
    rewrite HK. cbn [fadd fmul ops]. rewrite half_R. reflexivity. }
  intros K s1 [-> HK]. cbv beta.
  (* potential *)
  apply wp_bind.
  eapply wp_mono;
    [apply (wp_for_range _
      (fun i U s1 =>
         s1 = s /\
         U = - Rsum (seq 1 (i - 1)) (fun i' =>
                 Rsum (range (i' + 1) N) (fun j =>
                   G * mass s i' * mass s j / sqrt (sqdist s i' j + eps2)))))
    | | intros e He; exact He].
  { split; [reflexivity|]. rewrite zero_R. simpl. lra. }
  { intros i U s1 Hi [-> HU].
    destruct (wf_bodies_at s i Hwf) as [Hxi _]; [fold N; lia|].
    apply wp_bind. eapply wp_eq; [apply get_body_at; fold N; lia|]. cbv beta.
    eapply wp_mono;
      [apply (wp_for_range _
        (fun j U' s1 =>
           s1 = s /\
           U' = U - Rsum (seq (i + 1) (j - (i + 1))) (fun j' =>
                      G * mass s i * mass s j' / sqrt (sqdist s i j' + eps2))))
      | | intros e He; exact He].
    - split; [reflexivity|]. rewrite Nat.sub_diag. simpl. lra.
    - intros j U' s1 Hj [-> HU'].
      destruct (wf_bodies_at s j Hwf) as [Hxj _]; [fold N; lia|].
      apply wp_bind. eapply wp_eq; [apply get_body_at; fold N; lia|]. cbv beta.
      apply wp_bind.
      eapply wp_eq; [unfold lift; rewrite (dist2_exact _ _ Hxi Hxj); reflexivity|].
      fold (pos s i) (pos s j).
      change (Rsum (range 1 NDIM)
                (fun d => (pos s j d - pos s i d) * (pos s j d - pos s i d)))
        with (sqdist s i j).
      apply wp_bind.
      eapply wp_eq;
        [unfold lift;
         rewrite (pair_potential_exact _ _ _ (softened_pos s i j)); reflexivity|].
      apply wp_ret. split; [reflexivity|].
      replace (S j - (i + 1))%nat with (S (j - (i + 1))) by lia.
      rewrite Rsum_snoc.
      replace (i + 1 + (j - (i + 1)))%nat with j by lia.
      rewrite HU'. cbn [fsub ops]. unfold mass. lra.
    - intros U' s1 [-> HU']. split; [reflexivity|].
      replace (S i - 1)%nat with (S (i - 1)) by lia. rewrite Rsum_snoc.
      replace (1 + (i - 1))%nat with i by lia.
      rewrite HU', HU.
      replace (i + 1 + (N + 1 - (i + 1)) - (i + 1))%nat
        with (N + 1 - (i + 1))%nat by lia.
      unfold range. lra. }
  intros U s1 [-> HU]. cbv beta.
  apply wp_ret. split; [reflexivity|].
  rewrite HK, HU. cbn [fadd ops]. unfold spec_kinetic, spec_potential.
  fold N. rewrite Rsum_upper. unfold range at 1 3.
  replace (1 + (N + 1 - 1) - 1)%nat with (N + 1 - 1)%nat by lia.
  replace (1 + (N - 1 + 1 - 1) - 1)%nat with (N - 1 + 1 - 1)%nat by lia.
  unfold eps2. cbn [fmul ops]. reflexivity.
Qed.

End Energy.


(** ** Runs of the integrator *)

Section Runs.

Import Exact.
Local Open Scope R_scope.

Implicit Types s : store R.

Lemma bodies_ext (bs1 bs2 : list (Body R)) :
  wf_bodies bs1 -> wf_bodies bs2 -> length bs1 = length bs2 ->
  (forall i, (i < length bs1)%nat ->
     let b1 := nth i bs1 (mkBody zero [] []) in
     let b2 := nth i bs2 (mkBody zero [] []) in
     m b1 = m b2 /\
     forall d, (d < NDIM)%nat ->
               nth d (x b1) zero = nth d (x b2) zero /\
               nth d (v b1) zero = nth d (v b2) zero) ->
  bs1 = bs2.
Proof.
  intros Hw1 Hw2 Hlen Heq.
  apply (nth_ext bs1 bs2 (mkBody zero [] []) (mkBody zero [] [])); [exact Hlen|].
  intros i Hi. destruct (Heq i Hi) as [Hm Hxv].
  unfold wf_bodies in Hw1, Hw2. rewrite Forall_forall in Hw1, Hw2.
  destruct (Hw1 (nth i bs1 (mkBody zero [] []))) as [Hx1 Hv1]; [apply nth_In; lia|].
  destruct (Hw2 (nth i bs2 (mkBody zero [] []))) as [Hx2 Hv2]; [apply nth_In; lia|].
  destruct (nth i bs1 _) as [m1 x1 v1], (nth i bs2 _) as [m2 x2 v2].
  simpl in *. f_equal; [exact Hm| |].
  - apply (nth_ext _ _ zero zero); [congruence|].
    intros d Hd. apply Hxv. lia.
  - apply (nth_ext _ _ zero zero); [congruence|].
    intros d Hd. apply Hxv. lia.
Qed.

Lemma bodies_ext_store s1 s2 :
  wf s1 -> wf s2 -> nbodies s1 = nbodies s2 ->
  (forall k, (1 <= k <= nbodies s1)%nat -> mass s1 k = mass s2 k) ->
  (forall k d, (1 <= k <= nbodies s1)%nat -> (1 <= d <= NDIM)%nat ->
               pos s1 k d = pos s2 k d /\ vel s1 k d = vel s2 k d) ->
  bodies s1 = bodies s2.
Proof.
  intros [Hw1 _] [Hw2 _] HN Hm Hpv.
  apply bodies_ext; try assumption.
  intros i Hi. cbv zeta. split.
  - specialize (Hm (i + 1)%nat). unfold mass, body_at in Hm.
    replace (i + 1 - 1)%nat with i in Hm by lia. apply Hm. unfold nbodies. lia.
  - intros d Hd. specialize (Hpv (i + 1)%nat (d + 1)%nat).
    unfold pos, vel, body_at in Hpv.
    replace (i + 1 - 1)%nat with i in Hpv by lia.
    replace (d + 1 - 1)%nat with d in Hpv by lia.
    apply Hpv; unfold nbodies; lia.
Qed.

(** The step reads and writes the bodies and the buffer only: what was
    printed before makes no difference. *)
Lemma vv_step_frame s1 s2 dt :
  wf s1 -> wf s2 -> bodies s1 = bodies s2 -> a s1 = a s2 ->
  exists s1' s2',
    vv_step dt s1 = Ok (tt, s1') /\ vv_step dt s2 = Ok (tt, s2') /\
    wf s1' /\ wf s2' /\ bodies s1' = bodies s2' /\ a s1' = a s2' /\
    stdout s1' = stdout s1 /\ stdout s2' = stdout s2 /\
    nbodies s1' = nbodies s1 /\ current s1'.
Proof.
  intros Hwf1 Hwf2 Hb Ha.
  destruct (wp_Ok _ _ _ (wp_vv_step s1 dt Hwf1))
    as ([] & s1' & Hrun1 & Hwf1' & Ho1 & HN1 & Hm1 & Hpv1 & Hcur1).
  destruct (wp_Ok _ _ _ (wp_vv_step s2 dt Hwf2))
    as ([] & s2' & Hrun2 & Hwf2' & Ho2 & HN2 & Hm2 & Hpv2 & Hcur2).
  exists s1', s2'.
  assert (HN : nbodies s2 = nbodies s1) by (apply nbodies_frame; congruence).
  assert (Hmass : forall k, (1 <= k <= nbodies s1')%nat -> mass s1' k = mass s2' k).
  { intros k Hk. rewrite HN1 in Hk. rewrite Hm1, Hm2 by (rewrite ?HN; assumption).
    apply mass_frame. congruence. }
  assert (Hpos : forall k d, (1 <= k <= nbodies s1')%nat -> (1 <= d <= NDIM)%nat ->
                             pos s1' k d = pos s2' k d).
  { intros k d Hk Hd. rewrite HN1 in Hk.
    destruct (Hpv1 k d Hk Hd) as [-> _].
    destruct (Hpv2 k d) as [-> _]; [rewrite HN; assumption|assumption|].
    rewrite (pos_frame s2 s1 k d), (vel_frame s2 s1 k d) by congruence.
    rewrite (acc_frame s2 s1 k d) by congruence. reflexivity. }
  assert (Hacc : forall k d, (1 <= k <= nbodies s1')%nat -> (1 <= d <= NDIM)%nat ->
                             acc s1' k d = acc s2' k d).
  { intros k d Hk Hd. rewrite HN1 in Hk.
    destruct (Hpv1 k d Hk Hd) as (_ & _ & ->).
    destruct (Hpv2 k d) as (_ & _ & ->); [rewrite HN; assumption|assumption|].
    apply pair_sum_frame; try assumption.
    - lia.
    - intros k' Hk'. apply Hmass. lia.
    - intros k' d' Hk' Hd'. apply Hpos; [lia|assumption]. }
  assert (Hbodies : bodies s1' = bodies s2').
  { apply bodies_ext_store; try assumption; [lia|].
    intros k d Hk Hd. split; [now apply Hpos|].
    pose proof (Hacc k d Hk Hd) as Hacc'. rewrite HN1 in Hk.
    destruct (Hpv1 k d Hk Hd) as (_ & -> & _).
    destruct (Hpv2 k d) as (_ & -> & _); [rewrite HN; assumption|assumption|].
    rewrite (vel_frame s2 s1 k d), (acc_frame s2 s1 k d), Hacc' by congruence.
    reflexivity. }
  repeat (split; [assumption|]).
  split; [|repeat (split; [assumption|]); assumption].
  destruct Hwf1' as [_ Hbuf1], Hwf2' as [_ Hbuf2].
  apply (buffer_ext (nbodies s1')); [exact Hbuf1| |exact Hacc].
  rewrite (nbodies_frame s2' s1' Hbodies). exact Hbuf2.
Qed.

End Runs.


Section Driver.

Import Exact.
Local Open Scope R_scope.

Implicit Types s : store R.

Lemma for_fold_map_M {I J B : Type} (g : I -> J) (l : list I)
    (acc0 : B) (body : J -> B -> M R B) s :
  for_fold (map g l) acc0 body s = for_fold l acc0 (fun i => body (g i)) s.
Proof.
  revert acc0 s. induction l as [|i l IH]; intros acc0 s; simpl; [reflexivity|].
  unfold M_bind. destruct (body (g i) acc0 s) as [[r s']|e]; [apply IH|reflexivity].
Qed.

Lemma total_energy_Ok s :
  wf_bodies (bodies s) ->
  total_energy s = Ok (spec_kinetic s + spec_potential s, s).
Proof.
  intros Hwf. destruct (wp_Ok _ _ _ (wp_total_energy s Hwf)) as (E & s' & Hrun & -> & ->).
  exact Hrun.
Qed.

Lemma energy_frame s s' :
  bodies s' = bodies s ->
  spec_kinetic s' + spec_potential s' = spec_kinetic s + spec_potential s.
Proof.
  intros Hb.
  unfold spec_kinetic, spec_potential, sqspeed, sqdist, mass, pos, vel, body_at,
    nbodies.
  rewrite Hb. reflexivity.
Qed.

Lemma flat_positions_Ok s :
  wf_bodies (bodies s) -> (1 <= nbodies s)%nat ->
  flat_positions s = Ok (concat (map x (bodies s)), s).
Proof.
  intros Hwf HN. unfold flat_positions, nbodies in *.
  destruct (bodies s) as [|b bs] eqn:Hbs; [simpl in HN; lia|].
  assert (Hex : existsb (fun b' => match x b' with [] => true | _ :: _ => false end)
                        (b :: bs) = false).
  { apply not_true_is_false. intros Hex. apply existsb_exists in Hex.
    destruct Hex as (b' & Hin & Hb'). unfold wf_bodies in Hwf.
    rewrite Forall_forall in Hwf. destruct (Hwf b' Hin) as [Hx _].
    destruct (x b'); [discriminate Hx|discriminate Hb']. }
  rewrite Hex. unfold wf_bodies in Hwf. rewrite Forall_forall in Hwf.
  destruct (Hwf b (or_introl eq_refl)) as [Hx _].
  destruct (vec2 _ Hx) as (x1 & x2 & ->). destruct bs; reflexivity.
Qed.

(** Counting the steps that are recorded. *)
Lemma div_step (K i : nat) :
  (1 <= K)%nat -> (1 <= i)%nat ->
  (i mod K = 0 -> i / K = S ((i - 1) / K) /\ i / K * K = i)%nat /\
  (i mod K <> 0 -> i / K = (i - 1) / K)%nat.
Proof.
  intros HK Hi.
  pose proof (Nat.div_mod_eq i K) as Hdm.
  pose proof (Nat.mod_upper_bound i K ltac:(lia)) as Hm.
  split.
  - intros H0. rewrite H0 in Hdm. split; [|lia].
    assert (Hq : (1 <= i / K)%nat) by nia.
    symmetry. replace (S ((i - 1) / K)) with ((i - 1) / K + 1)%nat by lia.
    assert (((i - 1) / K) = i / K - 1)%nat; [|lia].
    symmetry. apply (Nat.div_unique (i - 1) K (i / K - 1) (K - 1)); [lia|nia].
  - intros Hne.
    apply (Nat.div_unique (i - 1) K (i / K) (i mod K - 1)); [lia|nia].
Qed.

Lemma rem_nat (K i : nat) :
  (1 <= K)%nat ->
  rem (Z.of_nat i) (Z.of_nat K) = Ok (Z.of_nat (i mod K)).
Proof.
  intros HK. unfold rem.
  destruct (Z.eqb_spec (Z.of_nat K) 0); [lia|].
  rewrite Z.rem_mod_nonneg by lia. now rewrite Nat2Z.inj_mod.
Qed.

Lemma steps_succ s dt n s1 s2 :
  steps dt n s = Ok (tt, s1) -> vv_step dt s1 = Ok (tt, s2) ->
  steps dt (S n) s = Ok (tt, s2).
Proof.
  intros H1 H2. simpl. unfold M_bind. rewrite H1. exact H2.
Qed.

End Driver.


Section DriverLoop.

Import Exact.
Local Open Scope R_scope.

Implicit Types s : store R.

Lemma wp_for_fold_map {I J B : Type} (g : I -> J) (l : list I) (acc0 : B)
    (body : J -> B -> M R B) (Q : B -> store R -> Prop) E s :
  wp (for_fold l acc0 (fun i => body (g i))) Q E s ->
  wp (for_fold (map g l) acc0 body) Q E s.
Proof. unfold wp. now rewrite for_fold_map_M. Qed.

Lemma wf_alloc s :
  wf_bodies (bodies s) ->
  wf (mkStore (bodies s)
              (map (fun _ => repeat zero NDIM) (range 1 (nbodies s)))
              (stdout s)).
Proof.
  intros Hb. split; [exact Hb|]. split; simpl.
  - rewrite length_map. unfold range. rewrite length_seq.
    unfold nbodies. simpl. lia.
  - apply Forall_forall. intros row Hrow. apply in_map_iff in Hrow.
    destruct Hrow as (i & <- & _). reflexivity.
Qed.

Lemma recorded_start dt K boot E0 p0 :
  total_energy boot = Ok (E0, boot) -> flat_positions boot = Ok (p0, boot) ->
  recorded dt K boot 0 [zero] [E0] [p0].
Proof.
  intros HE Hp. unfold recorded.
  assert (H0 : (0 / K = 0)%nat) by apply Nat.Div0.div_0_l.
  rewrite H0. repeat (split; [reflexivity|]).
  intros j Hj. assert (j = 0)%nat by lia. subst j. exists boot.
  rewrite zero_R. simpl. repeat split; try assumption. lra.
Qed.

Lemma recorded_skip dt K boot i ts es ps :
  (1 <= K)%nat -> (1 <= i)%nat -> (i mod K <> 0)%nat ->
  recorded dt K boot (i - 1) ts es ps -> recorded dt K boot i ts es ps.
Proof.
  intros HK Hi Hmod. unfold recorded.
  destruct (div_step K i HK Hi) as [_ Hdiv]. rewrite (Hdiv Hmod). auto.
Qed.

Lemma recorded_push dt K boot i ts es ps si E p :
  (1 <= K)%nat -> (1 <= i)%nat -> (i mod K = 0)%nat ->
  recorded dt K boot (i - 1) ts es ps ->
  steps dt i boot = Ok (tt, si) ->
  total_energy si = Ok (E, si) -> flat_positions si = Ok (p, si) ->
  recorded dt K boot i (ts ++ [INR i * dt]) (es ++ [E]) (ps ++ [p]).
Proof.
  intros HK Hi Hmod (Hlt & Hle & Hlp & Hrec) Hsteps HE Hp.
  destruct (div_step K i HK Hi) as [Hdiv _].
  destruct (Hdiv Hmod) as [Hq Hqi]. unfold recorded. rewrite Hq.
  rewrite !length_app, Hlt, Hle, Hlp. simpl.
  repeat (split; [lia|]).
  intros j Hj. destruct (Nat.eq_dec j (S ((i - 1) / K))) as [->|Hne].
  - exists si.
    assert (Hi' : (S ((i - 1) / K) * K = i)%nat) by (rewrite <- Hq; exact Hqi).
    assert (Hn1 : nth (S ((i - 1) / K)) (ts ++ [INR i * dt]) 0 = INR i * dt)
      by (rewrite <- Hlt; apply nth_middle).
    assert (Hn2 : nth (S ((i - 1) / K)) (es ++ [E]) 0 = E)
      by (rewrite <- Hle; apply nth_middle).
    assert (Hn3 : nth (S ((i - 1) / K)) (ps ++ [p]) [] = p)
      by (rewrite <- Hlp; apply nth_middle).
    rewrite Hn1, Hn2, Hn3, Hi'. auto.
  - destruct (Hrec j) as (sj & H1 & H2 & H3 & H4); [lia|].
    exists sj. rewrite !app_nth1 by lia. auto.
Qed.

End DriverLoop.


Section DriverMain.

Import Exact.
Local Open Scope R_scope.

Implicit Types s : store R.

(** The driver, with the step count and the cadence as natural numbers. *)
Lemma simulate_recorded s0 dt (n K : nat) :
  wf_bodies (bodies s0) -> (1 <= nbodies s0)%nat -> (1 <= K)%nat ->
  exists boot ts es ps s_end s_n,
    bootstrap s0 = Ok (tt, boot) /\
    simulate dt (Z.of_nat n) (Z.of_nat K) s0 = Ok ((ts, es, ps), s_end) /\
    steps dt n boot = Ok (tt, s_n) /\
    bodies s_end = bodies s_n /\ a s_end = a s_n /\
    recorded dt K boot n ts es ps.
Proof.
  intros Hwf0 HN HK.
  pose proof (wf_alloc s0 Hwf0) as Hwfa.
  set (s_alloc := mkStore (bodies s0) _ (stdout s0)) in Hwfa.
  destruct (wp_Ok _ _ _ (wp_accelerations s_alloc Hwfa))
    as ([] & boot & Hboot & Hbb & Hbo & Hwfb & Haccb).
  assert (HNb : nbodies boot = nbodies s0) by (apply (nbodies_frame s_alloc boot Hbb)).
  assert (Hwfbb : wf_bodies (bodies boot)) by apply Hwfb.
  pose proof (total_energy_Ok boot Hwfbb) as HE0.
  pose proof (flat_positions_Ok boot Hwfbb ltac:(lia)) as Hp0.
  assert (Hbootstrap : bootstrap s0 = Ok (tt, boot)).
  { unfold bootstrap. cbn [bind M_Monad]. unfold M_bind at 1.
    unfold length_bodies. unfold M_bind at 1. unfold alloc_a.
    fold (nbodies s0). fold s_alloc. exact Hboot. }
  exists boot.
  cut (wp (simulate dt (Z.of_nat n) (Z.of_nat K))
          (fun r s_end =>
             exists s_n,
               steps dt n boot = Ok (tt, s_n) /\
               bodies s_end = bodies s_n /\ a s_end = a s_n /\
               recorded dt K boot n (fst (fst r)) (snd (fst r)) (snd r))
          never s0).
  { intros Hwp. apply wp_Ok in Hwp.
    destruct Hwp as ([[ts es] ps] & s_end & Hrun & s_n & H1 & H2 & H3 & H4).
    exists ts, es, ps, s_end, s_n. auto 10. }
  unfold simulate.
  apply wp_bind. eapply wp_eq; [reflexivity|]. cbv beta. fold (nbodies s0).
  apply wp_bind. eapply wp_eq; [reflexivity|]. fold s_alloc.
  apply wp_bind. eapply wp_eq; [exact Hboot|]. cbv beta.
  apply wp_bind. eapply wp_eq; [exact HE0|]. cbv beta.
  apply wp_bind. eapply wp_eq; [exact Hp0|]. cbv beta.
  apply wp_bind. unfold range1Z. rewrite Nat2Z.id.
  apply wp_for_fold_map.
  eapply wp_mono;
    [apply (wp_for_seq _
      (fun i rec s =>
         wf s /\ nbodies s = nbodies s0 /\
         (exists sr, steps dt (i - 1) boot = Ok (tt, sr) /\ wf sr /\
                     bodies s = bodies sr /\ a s = a sr) /\
         t rec = INR (i - 1) * dt /\
         recorded dt K boot (i - 1) (times rec) (energies rec) (samples rec)))
    | | intros e He; exact He].
  - (* before the loop *)
    split; [exact Hwfb|]. split; [exact HNb|]. split.
    { exists boot. simpl. auto. }
    split; [cbn [t]; rewrite zero_R; simpl; lra|].
    cbn [times energies samples]. apply recorded_start; assumption.
  - (* one step *)
    intros i rec s Hi (Hwf & HNi & (sr & Hsr & Hwfr & Hbr & Har) & Ht & Hrec).
    destruct (vv_step_frame s sr dt Hwf Hwfr Hbr Har)
      as (s' & sr' & Hrun & Hrunr & Hwf' & Hwfr' & Hb' & Ha' & Ho' & _ & HN' & _).
    assert (Hsteps : steps dt i boot = Ok (tt, sr')).
    { replace i with (S (i - 1)) at 1 by lia. eapply steps_succ; eassumption. }
    assert (Hti : fadd (t rec) dt = INR i * dt).
    { cbn [fadd ops]. rewrite Ht. replace i with (S (i - 1)) at 2 by lia.
      rewrite S_INR. lra. }
    apply wp_bind. eapply wp_eq; [exact Hrun|]. cbv beta.
    apply wp_bind.
    eapply wp_eq; [unfold lift; rewrite rem_nat by exact HK; reflexivity|].
    cbv beta. rewrite Hti.
    replace (S i - 1)%nat with i by lia.
    destruct (Z.eqb_spec (Z.of_nat (i mod K)) 0) as [Hz|Hnz].
    + (* a recorded step *)
      assert (Hwfb' : wf_bodies (bodies s')) by apply Hwf'.
      assert (Hwfbr' : wf_bodies (bodies sr')) by apply Hwfr'.
      assert (HNs : (1 <= nbodies s')%nat) by lia.
      apply wp_bind. eapply wp_eq; [apply total_energy_Ok; exact Hwfb'|]. cbv beta.
      apply wp_bind. eapply wp_eq; [apply flat_positions_Ok; assumption|]. cbv beta.
      apply wp_bind. eapply wp_eq; [reflexivity|]. cbv beta.
      apply wp_ret. cbn [times energies samples t bodies a].
      split; [exact Hwf'|]. split; [exact (eq_trans HN' HNi)|].
      split; [exists sr'; auto|]. split; [reflexivity|].
      apply (recorded_push dt K boot i _ _ _ sr'); try assumption; try lia.
      * rewrite (energy_frame sr' s' Hb'). apply total_energy_Ok. exact Hwfbr'.
      * rewrite Hb'. apply flat_positions_Ok; [exact Hwfbr'|].
        rewrite <- (nbodies_frame sr' s' Hb'). exact HNs.
    + apply wp_ret. cbn [times energies samples t].
      split; [exact Hwf'|]. split; [lia|].
      split; [exists sr'; auto|]. split; [reflexivity|].
      apply recorded_skip; try assumption; lia.
  - (* after the loop *)
    intros rec s (Hwf & HNi & (sr & Hsr & Hwfr & Hbr & Har) & Ht & Hrec). cbv beta.
    apply wp_ret. replace (1 + n - 1)%nat with n in * by lia.
    exists sr. cbn [fst snd]. auto.
Qed.

End DriverMain.


(** ** No division by zero *)

Section Safety.

Import Exact.
Local Open Scope R_scope.

Implicit Types s : store R.

Lemma getindex_raise {A} (l : list A) (i : nat) (e : exn) :
  getindex l i = Raise e -> e = BoundsError.
Proof.
  destruct i as [|k]; simpl; [congruence|].
  destruct (nth_error l k); congruence.
Qed.

Lemma setindex_raise {A} (l : list A) (i : nat) (y : A) (e : exn) :
  setindex l i y = Raise e -> e = BoundsError.
Proof.
  destruct i as [|k]; simpl; [congruence|].
  destruct (k <? length l)%nat; congruence.
Qed.

Lemma rwp_getindex {A} (l : list A) (i : nat) (Q : A -> Prop) :
  (forall y, Q y) -> rwp (getindex l i) Q only_bounds.
Proof.
  intros HQ. unfold rwp. destruct (getindex l i) eqn:Hg; [apply HQ|].
  exact (getindex_raise _ _ _ Hg).
Qed.

Lemma rwp_setindex {A} (l : list A) (i : nat) (y : A) (Q : list A -> Prop) :
  (forall l', Q l') -> rwp (setindex l i y) Q only_bounds.
Proof.
  intros HQ. unfold rwp. destruct (setindex l i y) eqn:Hg; [apply HQ|].
  exact (setindex_raise _ _ _ _ Hg).
Qed.

Lemma wp_get_body_safe s i (Q : Body R -> store R -> Prop) :
  (forall b, Q b s) -> wp (get_body i) Q only_bounds s.
Proof.
  intros HQ. unfold wp, get_body.
  destruct (getindex (bodies s) i) eqn:Hg; [apply HQ|].
  exact (getindex_raise _ _ _ Hg).
Qed.

Lemma wp_get_a_safe s i d (Q : R -> store R -> Prop) :
  (forall y, Q y s) -> wp (get_a i d) Q only_bounds s.
Proof.
  intros HQ. unfold wp, get_a.
  destruct (getindex (a s) i) eqn:Hg; [|exact (getindex_raise _ _ _ Hg)].
  unfold lift. destruct (getindex r d) eqn:Hg'; [apply HQ|].
  exact (getindex_raise _ _ _ Hg').
Qed.

Lemma wp_set_a_safe s i d y (Q : unit -> store R -> Prop) :
  (forall s', Q tt s') -> wp (set_a i d y) Q only_bounds s.
Proof.
  intros HQ. unfold wp, set_a.
  destruct (getindex (a s) i) eqn:Hg; [|exact (getindex_raise _ _ _ Hg)].
  destruct (setindex r d y) eqn:Hs; [|exact (setindex_raise _ _ _ _ Hs)].
  destruct (setindex (a s) i r0) eqn:Hs'; [apply HQ|].
  exact (setindex_raise _ _ _ _ Hs').
Qed.

Lemma wp_fill_a_safe s i y (Q : unit -> store R -> Prop) :
  (forall s', Q tt s') -> wp (fill_a i y) Q only_bounds s.
Proof.
  intros HQ. unfold wp, fill_a.
  destruct (getindex (a s) i) eqn:Hg; [|exact (getindex_raise _ _ _ Hg)].
  destruct (setindex (a s) i _) eqn:Hs; [apply HQ|].
  exact (setindex_raise _ _ _ _ Hs).
Qed.

Lemma sq_nonneg (r : R) : 0 <= r * r.
Proof. nra. Qed.

(** Whatever the two vectors, the squared separation is not negative. *)
Lemma displacement_nonneg (xi xj : list R) :
  rwp (displacement xi xj) (fun r => 0 <= snd r) only_bounds.
Proof.
  unfold displacement, rwp.
  destruct xi as [|xi1 [|xi2 xi]], xj as [|xj1 [|xj2 xj]];
    cbn; try reflexivity; rewrite lit_0;
    pose proof (sq_nonneg (xj1 - xi1)); pose proof (sq_nonneg (xj2 - xi2)); lra.
Qed.

Lemma dist2_nonneg (xi xj : list R) :
  rwp (dist2 xi xj) (fun r2 => 0 <= r2) only_bounds.
Proof.
  unfold dist2, rwp.
  destruct xi as [|xi1 [|xi2 xi]], xj as [|xj1 [|xj2 xj]];
    cbn; try reflexivity; rewrite lit_0;
    pose proof (sq_nonneg (xj1 - xi1)); pose proof (sq_nonneg (xj2 - xi2)); lra.
Qed.

Lemma speed2_safe (vi : list R) :
  rwp (speed2 vi) (fun _ => True) only_bounds.
Proof.
  unfold speed2, rwp.
  destruct vi as [|v1 [|v2 vi]]; cbn; try reflexivity; exact I.
Qed.

Lemma wp_pair_force_safe s i xi mi j :
  wp (pair_force eps2 i xi mi j) (fun _ _ => True) only_bounds s.
Proof.
  unfold pair_force. apply wp_bind. apply wp_get_body_safe. intros bj.
  apply wp_bind. apply wp_lift.
  pose proof (displacement_nonneg xi (x bj)) as Hd. unfold rwp in *.
  destruct (displacement xi (x bj)) as [[rvec r2]|e]; [|exact Hd].
  simpl in Hd. apply wp_bind. apply wp_lift.
  assert (Hpos : 0 < r2 + eps2) by (pose proof eps2_pos; lra).
  cbn [fadd ops]. rewrite (inv_r3_exact _ Hpos).
  eapply wp_mono;
    [apply (wp_for_each_range _ (fun _ _ => True)); [exact I|]
    | intros; exact I | intros e He; exact He].
  intros d s1 _ _.
  apply wp_bind. apply wp_lift. apply rwp_getindex. intros rd.
  apply wp_bind. apply wp_get_a_safe. intros aid.
  apply wp_bind. apply wp_set_a_safe. intros s2.
  apply wp_bind. apply wp_get_a_safe. intros ajd.
  apply wp_set_a_safe. intros s3. exact I.
Qed.

Lemma wp_accelerations_safe s :
  wp accelerations (fun _ _ => True) only_bounds s.
Proof.
  unfold accelerations.
  apply wp_bind. eapply wp_eq; [reflexivity|]. cbv beta.
  apply wp_bind.
  eapply wp_mono;
    [apply (wp_for_each_range _ (fun _ _ => True)); [exact I|]
    | | intros e He; exact He].
  { intros i s1 _ _. apply wp_fill_a_safe. intros; exact I. }
  intros u s1 _. cbv beta.
  eapply wp_mono;
    [apply (wp_for_each_range _ (fun _ _ => True)); [exact I|]
    | intros; exact I | intros e He; exact He].
  intros i s2 _ _. apply wp_bind. apply wp_get_body_safe. intros bi.
  eapply wp_mono;
    [apply (wp_for_each_range _ (fun _ _ => True)); [exact I|]
    | intros; exact I | intros e He; exact He].
  intros j s3 _ _. apply wp_pair_force_safe.
Qed.

Lemma wp_total_energy_safe s :
  wp total_energy (fun _ _ => True) only_bounds s.
Proof.
  unfold total_energy.
  apply wp_bind. eapply wp_eq; [reflexivity|]. cbv beta.
  apply wp_bind.
  eapply wp_mono;
    [apply (wp_for_range _ (fun _ _ _ => True)); [exact I|]
    | | intros e He; exact He].
  { intros i K s1 _ _. apply wp_bind. apply wp_get_body_safe. intros bi.
    apply wp_bind. apply wp_lift.
    pose proof (speed2_safe (v bi)) as Hs. unfold rwp in *.
    destruct (speed2 (v bi)); [|exact Hs]. apply wp_ret. exact I. }
  intros K s1 _. cbv beta. apply wp_bind.
  eapply wp_mono;
    [apply (wp_for_range _ (fun _ _ _ => True)); [exact I|]
    | | intros e He; exact He].
  { intros i U s2 _ _. apply wp_bind. apply wp_get_body_safe. intros bi.
    eapply wp_mono;
      [apply (wp_for_range _ (fun _ _ _ => True)); [exact I|]
      | intros; exact I | intros e He; exact He].
    intros j U' s3 _ _. apply wp_bind. apply wp_get_body_safe. intros bj.
    apply wp_bind. apply wp_lift.
    pose proof (dist2_nonneg (x bi) (x bj)) as Hd. unfold rwp in *.
    destruct (dist2 (x bi) (x bj)) as [r2|e]; [|exact Hd].
    apply wp_bind. apply wp_lift.
    assert (Hpos : 0 < r2 + eps2) by (pose proof eps2_pos; lra).
    fold eps2. rewrite (pair_potential_exact _ _ _ Hpos).
    apply wp_ret. exact I. }
  intros U s2 _. cbv beta. apply wp_ret. exact I.
Qed.

End Safety.


(** * The specification *)

Section Claims.

Import Exact.
Local Open Scope R_scope.

Implicit Types s : store R.

Lemma pair_sum_two s d :
  nbodies s = 2%nat ->
  pair_sum s 1 d = kick_i s 1 2 d /\ pair_sum s 2 d = kick_j s 1 2 d.
Proof.
  intros HN. unfold pair_sum, pair_kick. rewrite HN. simpl. split; lra.
Qed.

Lemma wf_one_body : wf one_body.
Proof.
  split; [|split]; repeat constructor.
Qed.

Lemma wf_two_bodies : wf two_bodies.
Proof.
  split; [|split]; repeat constructor.
Qed.

Lemma current_one_body : current one_body.
Proof. reflexivity. Qed.

Lemma current_two_bodies : current two_bodies.
Proof.
  apply current_pair_sum; [exact wf_two_bodies|].
  intros k d Hk Hd.
  destruct (pair_sum_two two_bodies d eq_refl) as [H1 H2].
  change (nbodies two_bodies) with 2%nat in Hk. unfold NDIM in Hd.
  assert (Hkd : ((k = 1 \/ k = 2) /\ (d = 1 \/ d = 2))%nat) by lia.
  destruct Hkd as [[-> | ->] [-> | ->]]; rewrite ?H1, ?H2; reflexivity.
Qed.


(** ** The force kernel *)

(** Claim C2.  For every body array the force kernel overwrites the
    acceleration buffer: whatever the buffer held, on return the
    acceleration of body [i] is the sum over every other body [j] of
    G m_j (x_j - x_i) / (|x_j - x_i|^2 + eps^2)^(3/2).  The bodies are not
    changed.  The buffer is the sum of the kicks of the pairs [i < j], each
    pair once, and the two kicks of a pair are equal and opposite forces. *)
Theorem accelerations_newton_sum s :
  wf s ->
  exists s',
    (forall buf, wf_buffer (nbodies s) buf ->
       accelerations (mkStore (bodies s) buf (stdout s)) = Ok (tt, s')) /\
    bodies s' = bodies s /\ stdout s' = stdout s /\ wf s' /\
    (forall i d, (1 <= i <= nbodies s)%nat -> (1 <= d <= NDIM)%nat ->
       acc s' i d = spec_acceleration s i d) /\
    (forall i d, (1 <= i <= nbodies s)%nat -> (1 <= d <= NDIM)%nat ->
       acc s' i d =
       Rsum (pairs (nbodies s))
            (fun p => pair_kick s (fst p) (snd p) i d)) /\
    NoDup (pairs (nbodies s)) /\
    (forall i j, In (i, j) (pairs (nbodies s)) <->
                 (1 <= i < j /\ j <= nbodies s)%nat) /\
    (forall i j d,
       mass s i * kick_i s i j d + mass s j * kick_j s i j d = 0).
Proof.
  intros Hwf.
  destruct (wp_Ok _ _ _ (wp_accelerations s Hwf))
    as ([] & s' & Hrun & Hb & Ho & Hwf' & Hacc).
  exists s'. split; [|split; [exact Hb|split; [exact Ho|split; [exact Hwf'|]]]].
  - intros buf Hbuf.
    set (s1 := mkStore (bodies s) buf (stdout s)).
    assert (Hwf1 : wf s1) by (split; [apply Hwf|exact Hbuf]).
    destruct (wp_Ok _ _ _ (wp_accelerations s1 Hwf1))
      as ([] & s1' & Hrun1 & Hb1 & Ho1 & Hwf1' & Hacc1).
    rewrite Hrun1. f_equal. f_equal.
    apply store_ext; try assumption.
    + simpl in Hb1. congruence.
    + simpl in Ho1. congruence.
    + intros i d Hi Hd. rewrite (nbodies_frame s1 s1' Hb1) in Hi.
      rewrite Hacc1 by assumption. rewrite Hacc by (assumption || exact Hi).
      apply pair_sum_frame; try reflexivity; assumption.
  - split; [|split; [|split; [apply NoDup_pairs|split; [apply in_pairs|]]]].
    + intros i d Hi Hd. rewrite Hacc by assumption. now apply pair_sum_newton.
    + intros i d Hi Hd. rewrite Hacc by assumption. apply pair_sum_pairs.
    + intros i j d. apply pair_opposite.
Qed.

Lemma accelerations_newton_sum_witness :
  wf two_bodies /\
  exists s',
    accelerations two_bodies = Ok (tt, s') /\
    acc s' 1 1 = spec_acceleration two_bodies 1 1.
Proof.
  split; [exact wf_two_bodies|].
  destruct (accelerations_newton_sum two_bodies wf_two_bodies)
    as (s' & Hrun & _ & _ & _ & Hacc & _).
  exists s'. split.
  - apply (Hrun (a two_bodies)). apply wf_two_bodies.
  - apply Hacc; [change (nbodies two_bodies) with 2%nat; lia|unfold NDIM; lia].
Defined.

(** Claim C7, in exact arithmetic.  For every two-body array the
    accelerations the force kernel produces satisfy, in every component,
    acceleration_1 * mass_1 = - (acceleration_2 * mass_2). *)
Theorem two_body_symmetry_exact s :
  wf s -> nbodies s = 2%nat ->
  exists s',
    accelerations s = Ok (tt, s') /\
    forall d, (1 <= d <= NDIM)%nat ->
              acc s' 1 d * mass s 1 = - (acc s' 2 d * mass s 2).
Proof.
  intros Hwf HN.
  destruct (wp_Ok _ _ _ (wp_accelerations s Hwf))
    as ([] & s' & Hrun & Hb & Ho & Hwf' & Hacc).
  exists s'. split; [exact Hrun|]. intros d Hd.
  rewrite !Hacc by (assumption || lia).
  destruct (pair_sum_two s d HN) as [-> ->].
  pose proof (pair_opposite s 1 2 d). lra.
Qed.

Lemma two_body_symmetry_exact_witness :
  wf two_bodies /\ nbodies two_bodies = 2%nat /\
  exists s',
    accelerations two_bodies = Ok (tt, s') /\
    acc s' 1 1 * mass two_bodies 1 = - (acc s' 2 1 * mass two_bodies 2).
Proof.
  split; [exact wf_two_bodies|]. split; [reflexivity|].
  destruct (two_body_symmetry_exact two_bodies wf_two_bodies eq_refl)
    as (s' & Hrun & Hsym).
  exists s'. split; [exact Hrun|]. apply Hsym. unfold NDIM. lia.
Defined.

(** ** The energy diagnostic *)

(** Claim C3.  For every body array the energy diagnostic returns K + U,
    with K the sum of 0.5 m_i |v_i|^2 and U minus the sum over the pairs
    [i < j] of G m_i m_j / sqrt(|x_j - x_i|^2 + eps^2), [eps] being the
    softening length of the force kernel; the store it returns is the store
    it was given, so that no body is modified. *)
Theorem total_energy_kinetic_plus_potential s :
  wf_bodies (bodies s) ->
  total_energy s = Ok (spec_kinetic s + spec_potential s, s).
Proof. apply total_energy_Ok. Qed.

Lemma total_energy_kinetic_plus_potential_witness :
  wf_bodies (bodies two_bodies) /\
  total_energy two_bodies =
  Ok (spec_kinetic two_bodies + spec_potential two_bodies, two_bodies).
Proof.
  split; [apply wf_two_bodies|].
  apply (total_energy_kinetic_plus_potential two_bodies). apply wf_two_bodies.
Defined.


(** ** The integrator step *)

(** Claim C1.  One call of the integrator step, for any bodies, buffer a_n
    and dt: first every position becomes x + v dt + 0.5 a_n dt^2 and every
    velocity v + 0.5 a_n dt; then the force kernel recomputes the buffer at
    the new positions, a_(n+1); then 0.5 a_(n+1) dt is added to every
    velocity.  On return the buffer holds a_(n+1), the accelerations at the
    updated positions: it is current, which is what the next call needs. *)
Theorem vv_step_velocity_verlet s dt :
  wf s ->
  exists s1 s2 s',
    (* the three phases, and the step as a whole *)
    drift_and_half_kick dt (nbodies s) s = Ok (tt, s1) /\
    accelerations s1 = Ok (tt, s2) /\
    half_kick dt (nbodies s) s2 = Ok (tt, s') /\
    vv_step dt s = Ok (tt, s') /\
    (* first phase *)
    a s1 = a s /\
    (forall i d, (1 <= i <= nbodies s)%nat -> (1 <= d <= NDIM)%nat ->
       pos s1 i d = pos s i d + vel s i d * dt + 0.5 * acc s i d * dt ^ 2 /\
       vel s1 i d = vel s i d + 0.5 * acc s i d * dt) /\
    (* second phase *)
    bodies s2 = bodies s1 /\
    (forall i d, (1 <= i <= nbodies s)%nat -> (1 <= d <= NDIM)%nat ->
       acc s2 i d = spec_acceleration s1 i d) /\
    (* third phase *)
    a s' = a s2 /\
    (forall i d, (1 <= i <= nbodies s)%nat -> (1 <= d <= NDIM)%nat ->
       pos s' i d = pos s1 i d /\
       vel s' i d = vel s1 i d + 0.5 * acc s2 i d * dt) /\
    (* on return *)
    wf s' /\ nbodies s' = nbodies s /\ stdout s' = stdout s /\
    (forall i, (1 <= i <= nbodies s)%nat -> mass s' i = mass s i) /\
    (forall i d, (1 <= i <= nbodies s)%nat -> (1 <= d <= NDIM)%nat ->
       acc s' i d = spec_acceleration s' i d) /\
    current s'.
Proof.
  intros Hwf.
  destruct (wp_Ok _ _ _ (wp_drift s dt Hwf))
    as ([] & s1 & Hrun1 & Hwf1 & Ha1 & Ho1 & HN1 & Hm1 & Hpv1).
  destruct (wp_Ok _ _ _ (wp_accelerations s1 Hwf1))
    as ([] & s2 & Hrun2 & Hb2 & Ho2 & Hwf2 & Hacc2).
  assert (HN2 : nbodies s2 = nbodies s)
    by (rewrite (nbodies_frame s1 s2 Hb2); exact HN1).
  destruct (wp_Ok _ _ _ (wp_kick s2 dt _ Hwf2 HN2))
    as ([] & s' & Hrun3 & Hwf3 & Ha3 & Ho3 & HN3 & Hm3 & Hpv3).
  assert (Hstep : vv_step dt s = Ok (tt, s')).
  { unfold vv_step. cbn [bind M_Monad]. unfold M_bind at 1.
    unfold length_bodies. fold (nbodies s).
    unfold M_bind at 1. rewrite Hrun1.
    unfold M_bind at 1. rewrite Hrun2. exact Hrun3. }
  destruct (wp_Ok _ _ _ (wp_vv_step s dt Hwf))
    as ([] & s'' & Hrun & Hwf' & Ho' & HN' & Hm' & Hpv' & Hcur').
  rewrite Hstep in Hrun. injection Hrun as <-.
  exists s1, s2, s'.
  repeat (split; [assumption|]).
  split.
  { intros i d Hi Hd. destruct (Hpv1 i d Hi Hd) as [-> ->]. split; ring. }
  split; [exact Hb2|]. split.
  { intros i d Hi Hd. rewrite Hacc2 by (rewrite ?HN1; assumption).
    apply pair_sum_newton. rewrite HN1. exact Hi. }
  split; [exact Ha3|]. split.
  { intros i d Hi Hd.
    destruct (Hpv3 i d) as [-> ->]; [rewrite HN2; exact Hi|exact Hd|].
    rewrite (pos_frame s1 s2 i d Hb2), (vel_frame s1 s2 i d Hb2). auto. }
  repeat (split; [assumption|]).
  split; [|exact Hcur'].
  intros i d Hi Hd. destruct (Hpv' i d Hi Hd) as (_ & _ & ->).
  apply pair_sum_newton. rewrite HN'. exact Hi.
Qed.

Lemma vv_step_velocity_verlet_witness :
  wf two_bodies /\
  exists s',
    vv_step 0.5 two_bodies = Ok (tt, s') /\
    pos s' 2 1 =
      pos two_bodies 2 1 + vel two_bodies 2 1 * 0.5 +
      0.5 * acc two_bodies 2 1 * 0.5 ^ 2 /\
    current s'.
Proof.
  split; [exact wf_two_bodies|].
  destruct (vv_step_velocity_verlet two_bodies 0.5 wf_two_bodies)
    as (s1 & s2 & s' & _ & _ & _ & Hrun & _ & Hp1 & _ & _ & _ & Hp3 & _ & _ & _
        & _ & _ & Hcur).
  exists s'. split; [exact Hrun|]. split; [|exact Hcur].
  assert (Hi : (1 <= 2 <= nbodies two_bodies)%nat)
    by (change (nbodies two_bodies) with 2%nat; lia).
  assert (Hd : (1 <= 1 <= NDIM)%nat) by (unfold NDIM; lia).
  destruct (Hp3 2%nat 1%nat Hi Hd) as [-> _].
  destruct (Hp1 2%nat 1%nat Hi Hd) as [-> _]. reflexivity.
Defined.

(** ** Momentum *)

Lemma momentum_step s dt :
  wf s -> current s ->
  exists s',
    vv_step dt s = Ok (tt, s') /\ wf s' /\ current s' /\
    nbodies s' = nbodies s /\
    forall d, (1 <= d <= NDIM)%nat -> momentum s' d = momentum s d.
Proof.
  intros Hwf Hcur.
  destruct (wp_Ok _ _ _ (wp_vv_step s dt Hwf))
    as ([] & s' & Hrun & Hwf' & Ho' & HN' & Hm' & Hpv' & Hcur').
  exists s'. repeat (split; [assumption|]).
  intros d Hd. unfold momentum. rewrite HN'.
  rewrite (Rsum_ext _ _ (fun i =>
             mass s i * vel s i d +
             (0.5 * dt * (mass s i * pair_sum s i d) +
              0.5 * dt * (mass s' i * pair_sum s' i d)))).
  2:{ intros i Hi. unfold range in Hi. apply in_seq in Hi.
      assert (Hi' : (1 <= i <= nbodies s)%nat) by lia.
      destruct (Hpv' i d Hi' Hd) as (_ & -> & Hacc').
      rewrite Hacc', (pair_sum_current s Hwf Hcur i d Hi' Hd), (Hm' i Hi').
      ring. }
  rewrite !Rsum_plus, !Rsum_scal.
  rewrite (pair_sum_momentum s d).
  rewrite <- HN', (pair_sum_momentum s' d). lra.
Qed.

(** Claim C4.  In exact arithmetic, from any bodies whose buffer is
    current and for any dt, the total linear momentum, the sum of
    m_i v_i, is the same after any number of steps. *)
Theorem momentum_conserved s dt (n : nat) :
  wf s -> current s ->
  exists s',
    steps dt n s = Ok (tt, s') /\
    forall d, (1 <= d <= NDIM)%nat -> momentum s' d = momentum s d.
Proof.
  intros Hwf Hcur.
  assert (H : exists s', steps dt n s = Ok (tt, s') /\ wf s' /\ current s' /\
                         forall d, (1 <= d <= NDIM)%nat ->
                                   momentum s' d = momentum s d).
  { induction n as [|n IH].
    - exists s. simpl. auto.
    - destruct IH as (s1 & Hrun1 & Hwf1 & Hcur1 & Hmom1).
      destruct (momentum_step s1 dt Hwf1 Hcur1)
        as (s2 & Hrun2 & Hwf2 & Hcur2 & _ & Hmom2).
      exists s2. split; [eapply steps_succ; eassumption|].
      split; [exact Hwf2|]. split; [exact Hcur2|].
      intros d Hd. rewrite Hmom2, Hmom1 by assumption. reflexivity. }
  destruct H as (s' & Hrun & _ & _ & Hmom). eauto.
Qed.

Lemma momentum_conserved_witness :
  wf two_bodies /\ current two_bodies /\
  exists s',
    steps 0.5 1000 two_bodies = Ok (tt, s') /\
    momentum s' 1 = 2 /\ momentum s' 2 = -3.
Proof.
  split; [exact wf_two_bodies|]. split; [exact current_two_bodies|].
  destruct (momentum_conserved two_bodies 0.5 1000 wf_two_bodies
                               current_two_bodies) as (s' & Hrun & Hmom).
  exists s'. split; [exact Hrun|].
  rewrite !Hmom by (unfold NDIM; lia).
  unfold momentum, mass, vel, body_at. simpl. split; lra.
Defined.


(** ** Degenerate inputs *)

(** Claim C8.  For every store, whatever the masses and the positions
    (zero or negative masses, bodies at the same place), neither the force
    kernel nor the energy diagnostic divides by zero or takes the square
    root of a negative number: the softened squared separation r^2 + eps^2
    is strictly positive for every pair, so that 1/(sqrt(r2e) r2e) and
    G m_i m_j / sqrt(r2e) have a value.  The only exception either function
    can raise is an index out of range, on arrays of the wrong shape. *)
Theorem no_division_by_zero :
  0 < eps2 /\
  (forall s, wf s ->
     exists s' E, accelerations s = Ok (tt, s') /\ total_energy s = Ok (E, s)) /\
  (forall s e, accelerations s = Raise e -> e = BoundsError) /\
  (forall s e, total_energy s = Raise e -> e = BoundsError) /\
  (forall xi xj rvec r2,
     displacement xi xj = Ok (rvec, r2) ->
     0 < r2 + eps2 /\
     inv_r3 (r2 + eps2) = Ok (1 / (sqrt (r2 + eps2) * (r2 + eps2))) /\
     sqrt (r2 + eps2) * (r2 + eps2) <> 0) /\
  (forall xi xj r2 mi mj,
     dist2 xi xj = Ok r2 ->
     0 < r2 + eps2 /\
     pair_potential eps2 mi mj r2 = Ok (G * mi * mj / sqrt (r2 + eps2)) /\
     sqrt (r2 + eps2) <> 0).
Proof.
  split; [exact eps2_pos|]. split; [|split; [|split; [|split]]].
  - intros s Hwf.
    destruct (wp_Ok _ _ _ (wp_accelerations s Hwf)) as ([] & s' & Hrun & _).
    exists s', (spec_kinetic s + spec_potential s).
    split; [exact Hrun|]. apply total_energy_Ok, Hwf.
  - intros s e Hrun. pose proof (wp_accelerations_safe s) as Hwp.
    unfold wp in Hwp. rewrite Hrun in Hwp. exact Hwp.
  - intros s e Hrun. pose proof (wp_total_energy_safe s) as Hwp.
    unfold wp in Hwp. rewrite Hrun in Hwp. exact Hwp.
  - intros xi xj rvec r2 Hd. pose proof (displacement_nonneg xi xj) as Hnn.
    unfold rwp in Hnn. rewrite Hd in Hnn. simpl in Hnn.
    assert (Hpos : 0 < r2 + eps2) by (pose proof eps2_pos; lra).
    split; [exact Hpos|]. split; [apply inv_r3_exact; exact Hpos|].
    assert (0 < sqrt (r2 + eps2)) by now apply sqrt_lt_R0. nra.
  - intros xi xj r2 mi mj Hd. pose proof (dist2_nonneg xi xj) as Hnn.
    unfold rwp in Hnn. rewrite Hd in Hnn.
    assert (Hpos : 0 < r2 + eps2) by (pose proof eps2_pos; lra).
    split; [exact Hpos|]. split; [apply pair_potential_exact; exact Hpos|].
    assert (0 < sqrt (r2 + eps2)) by now apply sqrt_lt_R0. lra.
Qed.

Lemma no_division_by_zero_witness :
  wf degenerate /\
  (exists s' E,
     accelerations degenerate = Ok (tt, s') /\
     total_energy degenerate = Ok (E, degenerate)) /\
  exists rvec r2,
    displacement [1; 2] [1; 2] = Ok (rvec, r2) /\ 0 < r2 + eps2 /\
    inv_r3 (r2 + eps2) = Ok (1 / (sqrt (r2 + eps2) * (r2 + eps2))).
Proof.
  assert (Hwf : wf degenerate) by (split; [|split]; repeat constructor).
  destruct no_division_by_zero as (_ & Hok & _ & _ & Hdisp & _).
  split; [exact Hwf|]. split; [exact (Hok degenerate Hwf)|].
  eexists. eexists. split; [reflexivity|].
  destruct (Hdisp [1; 2] [1; 2] _ _ eq_refl) as (Hpos & Hinv & _). auto.
Defined.

(** Claim C10.  With fewer than two bodies the force kernel returns a
    buffer of zeros and the energy diagnostic returns the kinetic energy
    alone, the potential being zero; so that one step on a single body whose
    buffer is current moves it by v dt and leaves its velocity as it was. *)
Theorem fewer_than_two_bodies s :
  wf s -> (nbodies s <= 1)%nat ->
  (exists s',
     accelerations s = Ok (tt, s') /\ bodies s' = bodies s /\
     forall i d, (1 <= i <= nbodies s)%nat -> (1 <= d <= NDIM)%nat ->
                 acc s' i d = 0) /\
  total_energy s = Ok (spec_kinetic s, s) /\
  spec_potential s = 0 /\
  (nbodies s = 1%nat -> current s ->
   forall dt,
   exists s',
     vv_step dt s = Ok (tt, s') /\
     forall d, (1 <= d <= NDIM)%nat ->
               pos s' 1 d = pos s 1 d + vel s 1 d * dt /\
               vel s' 1 d = vel s 1 d).
Proof.
  intros Hwf HN.
  assert (Hps1 : forall s1 k d, (nbodies s1 <= 1)%nat -> pair_sum s1 k d = 0).
  { intros s1 k d H1. unfold pair_sum. apply Rsum_zero. intros i Hi.
    unfold range in Hi. apply in_seq in Hi. lia. }
  assert (Hps : forall k d, pair_sum s k d = 0)
    by (intros k d; apply Hps1; exact HN).
  assert (HU : spec_potential s = 0).
  { unfold spec_potential. rewrite Rsum_upper.
    rewrite Rsum_zero; [lra|]. intros i Hi.
    unfold range in Hi. apply in_seq in Hi. lia. }
  split; [|split; [|split; [exact HU|]]].
  - destruct (wp_Ok _ _ _ (wp_accelerations s Hwf))
      as ([] & s' & Hrun & Hb & Ho & Hwf' & Hacc).
    exists s'. split; [exact Hrun|]. split; [exact Hb|].
    intros i d Hi Hd. rewrite Hacc by assumption. apply Hps.
  - rewrite total_energy_Ok by apply Hwf. rewrite HU.
    f_equal. f_equal. lra.
  - intros H1 Hcur dt.
    destruct (wp_Ok _ _ _ (wp_vv_step s dt Hwf))
      as ([] & s' & Hrun & Hwf' & Ho' & HN' & Hm' & Hpv' & Hcur').
    exists s'. split; [exact Hrun|]. intros d Hd.
    destruct (Hpv' 1%nat d ltac:(lia) Hd) as (-> & -> & ->).
    rewrite (pair_sum_current s Hwf Hcur 1 d ltac:(lia) Hd), Hps.
    rewrite (Hps1 s' 1%nat d) by lia.
    split; ring.
Qed.

Lemma fewer_than_two_bodies_witness :
  wf one_body /\ (nbodies one_body <= 1)%nat /\
  total_energy one_body = Ok (25, one_body) /\
  exists s',
    vv_step 0.5 one_body = Ok (tt, s') /\
    pos s' 1 1 = 2.5 /\ pos s' 1 2 = 4 /\ vel s' 1 1 = 3 /\ vel s' 1 2 = 4.
Proof.
  split; [exact wf_one_body|]. split; [apply le_n|].
  destruct (fewer_than_two_bodies one_body wf_one_body)
    as (_ & HE & _ & Hstep); [apply le_n|].
  split.
  - rewrite HE. f_equal. f_equal.
    unfold spec_kinetic, sqspeed, mass, vel, body_at. simpl. lra.
  - destruct (Hstep eq_refl current_one_body 0.5) as (s' & Hrun & Hpv).
    exists s'. split; [exact Hrun|].
    destruct (Hpv 1%nat) as [-> ->]; [unfold NDIM; lia|].
    destruct (Hpv 2%nat) as [-> ->]; [unfold NDIM; lia|].
    unfold pos, vel, body_at. simpl. repeat split; lra.
Defined.

(** ** The driver *)

(** Claim C6, amended.  For every body array that is not empty, every dt,
    every step count nsteps >= 0 and every output cadence
    output_every >= 1, the driver computes the initial accelerations once,
    before the loop; it then runs nsteps steps one after the other; and it
    records 1 + floor(nsteps / output_every) samples: sample j holds the
    time j output_every dt, the energy and the flattened positions after
    j output_every steps. *)
Theorem simulate_samples s0 dt (nsteps output_every : Z) :
  wf_bodies (bodies s0) -> (1 <= nbodies s0)%nat ->
  (0 <= nsteps)%Z -> (1 <= output_every)%Z ->
  exists boot ts es ps s_end,
    bootstrap s0 = Ok (tt, boot) /\
    simulate dt nsteps output_every s0 = Ok ((ts, es, ps), s_end) /\
    (exists s_n,
       steps dt (Z.to_nat nsteps) boot = Ok (tt, s_n) /\
       bodies s_end = bodies s_n /\ a s_end = a s_n) /\
    Z.of_nat (length ts) = (1 + nsteps / output_every)%Z /\
    length es = length ts /\ length ps = length ts /\
    forall j, (0 <= j <= nsteps / output_every)%Z ->
      exists sj,
        steps dt (Z.to_nat (j * output_every)) boot = Ok (tt, sj) /\
        nth (Z.to_nat j) ts 0 = IZR (j * output_every) * dt /\
        total_energy sj = Ok (nth (Z.to_nat j) es 0, sj) /\
        flat_positions sj = Ok (nth (Z.to_nat j) ps [], sj).
Proof.
  intros Hwf HN Hn HK.
  destruct (simulate_recorded s0 dt (Z.to_nat nsteps) (Z.to_nat output_every)
              Hwf HN ltac:(lia))
    as (boot & ts & es & ps & s_end & s_n & Hboot & Hrun & Hsteps & Hb & Ha
        & Hlt & Hle & Hlp & Hrec).
  rewrite !Z2Nat.id in Hrun by lia.
  assert (Hdiv : Z.of_nat (Z.to_nat nsteps / Z.to_nat output_every)
                 = (nsteps / output_every)%Z).
  { rewrite Nat2Z.inj_div, !Z2Nat.id by lia. reflexivity. }
  exists boot, ts, es, ps, s_end.
  split; [exact Hboot|]. split; [exact Hrun|].
  split; [exists s_n; auto|].
  split; [rewrite Hlt; lia|]. split; [congruence|]. split; [congruence|].
  intros j Hj. destruct (Hrec (Z.to_nat j)) as (sj & H1 & H2 & H3 & H4); [lia|].
  exists sj.
  assert (Hjk : (Z.to_nat j * Z.to_nat output_every)%nat
                = Z.to_nat (j * output_every)).
  { rewrite Z2Nat.inj_mul by lia. reflexivity. }
  rewrite Hjk in H1, H2.
  split; [exact H1|]. split; [|split; assumption].
  rewrite H2, INR_IZR_INZ, Z2Nat.id by nia. reflexivity.
Qed.

Lemma simulate_samples_witness :
  wf_bodies (bodies two_bodies) /\ (1 <= nbodies two_bodies)%nat /\
  exists ts es ps s_end,
    simulate 0.5 1000 100 two_bodies = Ok ((ts, es, ps), s_end) /\
    length ts = 11%nat /\ nth 3 ts 0 = 150.
Proof.
  assert (HN : (1 <= nbodies two_bodies)%nat) by (apply le_S, le_n).
  split; [apply wf_two_bodies|]. split; [exact HN|].
  destruct (simulate_samples two_bodies 0.5 1000 100)
    as (boot & ts & es & ps & s_end & _ & Hrun & _ & Hlen & _ & _ & Hrec);
    [apply wf_two_bodies|exact HN|lia|lia|].
  exists ts, es, ps, s_end. split; [exact Hrun|].
  change (1000 / 100)%Z with 10%Z in Hlen, Hrec. split; [lia|].
  destruct (Hrec 3%Z) as (sj & _ & Ht & _); [lia|].
  change (Z.to_nat 3) with 3%nat in Ht. rewrite Ht.
  change (3 * 100)%Z with 300%Z. lra.
Defined.

End Claims.


(** * The program on binary64 numbers *)

Section FloatClaims.

Import FloatRun Main.

(** The literals of the program, as the parser reads them. *)
Lemma literals_binary64 :
  (@G float _ = 6.67430e-11 /\ @SOFTENING float _ = 1e3 /\
   @half float _ = 0.5 /\ @DT float _ = 1.0 /\
   literal 5972 21 = 5.972e24 /\
   literal 7348 19 = 7.348e22 /\
   literal 4 7 = 4.0e7)%float.
Proof. vm_compute. repeat split; reflexivity. Qed.

(** Claim C7 fails on binary64 numbers: for the two bodies of the demo, and
    for two bodies of masses 3 and 7, acceleration_1 * mass_1 and
    - acceleration_2 * mass_2 differ in the last place. *)
Lemma two_body_symmetry_float :
  (exists s',
     accelerations demo = Ok (tt, s') /\
     nbodies demo = 2%nat /\
     PrimFloat.eqb (acc s' 1 1 * mass demo 1) (- (acc s' 2 1 * mass demo 2))
     = false) /\
  (exists s',
     accelerations small = Ok (tt, s') /\
     PrimFloat.eqb (acc s' 1 1 * mass small 1) (- (acc s' 2 1 * mass small 2))
     = false /\
     PrimFloat.eqb (acc s' 1 2 * mass small 1) (- (acc s' 2 2 * mass small 2))
     = false).
Proof.
  split.
  - eexists. split; [vm_compute; reflexivity|]. split; vm_compute; reflexivity.
  - eexists. split; [vm_compute; reflexivity|]. split; vm_compute; reflexivity.
Qed.

(** Claim C6 fails outside its domain: a cadence of zero raises at the
    first step, and an empty body array raises when the first sample is
    taken. *)
Lemma simulate_degenerate_inputs :
  simulate DT 1 0 demo = Raise DivideError /\
  simulate DT NSTEPS OUTPUT_EVERY (mkStore (F:=float) [] [] []) = Raise ArgumentError.
Proof. split; vm_compute; reflexivity. Qed.

End FloatClaims.


(** ** Text *)

Section Text.

Import Printf.
Local Open Scope string_scope.

Lemma append_nil_r (s : string) : s ++ "" = s.
Proof. induction s as [|c s IH]; simpl; [reflexivity|now rewrite IH]. Qed.

Lemma append_assoc (s1 s2 s3 : string) : (s1 ++ s2) ++ s3 = s1 ++ (s2 ++ s3).
Proof. induction s1 as [|c s1 IH]; simpl; [reflexivity|now rewrite IH]. Qed.

Lemma length_append (s1 s2 : string) :
  String.length (s1 ++ s2) = (String.length s1 + String.length s2)%nat.
Proof. induction s1 as [|c s1 IH]; simpl; [reflexivity|now rewrite IH]. Qed.

Lemma all_digits_app (s1 s2 : string) :
  all_digits (s1 ++ s2) = all_digits s1 && all_digits s2.
Proof.
  induction s1 as [|c s1 IH]; simpl; [reflexivity|].
  now rewrite IH, andb_assoc.
Qed.

Lemma one_line_app (s1 s2 : string) :
  one_line (s1 ++ s2) = one_line s1 && one_line s2.
Proof.
  induction s1 as [|c s1 IH]; simpl; [reflexivity|].
  now rewrite IH, andb_assoc.
Qed.

Lemma plain_app (s1 s2 : string) : plain (s1 ++ s2) = plain s1 && plain s2.
Proof.
  induction s1 as [|c s1 IH]; simpl; [reflexivity|].
  now rewrite IH, !andb_assoc.
Qed.

Lemma plain_one_line (s : string) : plain s = true -> one_line s = true.
Proof.
  induction s as [|c s IH]; simpl; [reflexivity|].
  intros Hp. apply andb_true_iff in Hp. destruct Hp as [Hc Hs].
  apply andb_true_iff in Hc. destruct Hc as [_ Hn].
  now rewrite Hn, IH.
Qed.

(** A digit is one of the ten. *)
Lemma digit_cases (n : Z) :
  In (digit n) ["0"; "1"; "2"; "3"; "4"; "5"; "6"; "7"; "8"; "9"]%char.
Proof.
  unfold digit.
  assert (Hk : (Z.to_nat (n mod 10) < 10)%nat)
    by (pose proof (Z.mod_pos_bound n 10 ltac:(lia)); lia).
  revert Hk. generalize (Z.to_nat (n mod 10)). intros k Hk.
  do 10 (destruct k as [|k]; [simpl; tauto|]). lia.
Qed.

Lemma digit_is_digit (n : Z) : is_digit (digit n) = true.
Proof.
  pose proof (digit_cases n) as Hc. simpl in Hc.
  repeat (destruct Hc as [<-|Hc]; [reflexivity|]). destruct Hc.
Qed.

Lemma is_digit_plain (c : ascii) :
  is_digit c = true ->
  negb (Ascii.eqb c ",") && negb (Ascii.eqb c (ascii_of_nat 10)) = true /\
  Ascii.eqb c "e" = false /\ Ascii.eqb c "." = false.
Proof.
  unfold is_digit. intros Hd. apply andb_true_iff in Hd. destruct Hd as [H1 H2].
  apply Nat.leb_le in H1, H2.
  assert (Hne : forall c', (nat_of_ascii c' < 48 \/ 57 < nat_of_ascii c')%nat ->
                           Ascii.eqb c c' = false).
  { intros c' Hc'. apply Ascii.eqb_neq. intros ->. lia. }
  rewrite !Hne by (vm_compute; lia). auto.
Qed.

Lemma all_digits_plain (s : string) : all_digits s = true -> plain s = true.
Proof.
  induction s as [|c s IH]; simpl; [reflexivity|].
  intros Hd. apply andb_true_iff in Hd. destruct Hd as [Hc Hs].
  destruct (is_digit_plain c Hc) as [-> _]. now apply IH.
Qed.

Lemma length_digits_fixed (w : nat) (n : Z) :
  String.length (digits_fixed w n) = w.
Proof.
  revert n. induction w as [|w IH]; intros n; cbn [digits_fixed]; [reflexivity|].
  rewrite length_append, IH. cbn [String.length]. lia.
Qed.

Lemma all_digits_fixed (w : nat) (n : Z) : all_digits (digits_fixed w n) = true.
Proof.
  revert n. induction w as [|w IH]; intros n; cbn [digits_fixed]; [reflexivity|].
  rewrite all_digits_app, IH. cbn [all_digits andb]. now rewrite digit_is_digit.
Qed.

(** Counting the digits of a mantissa. *)
Lemma significant_digits_run (ds rest : string) :
  all_digits ds = true ->
  significant_digits (ds ++ String "e" rest) = String.length ds.
Proof.
  induction ds as [|c ds IH]; simpl; [reflexivity|].
  intros Hd. apply andb_true_iff in Hd. destruct Hd as [Hc Hs].
  destruct (is_digit_plain c Hc) as (_ & -> & _). rewrite Hc. now rewrite IH.
Qed.

Lemma scientific_shape_digits (p : nat) (s : string) :
  scientific_shape p s ->
  significant_digits s = S p /\ decimal_places s = p.
Proof.
  intros (sgn & lead & frac & esgn & edig & -> & Hsgn & Hlead & Hlen & Hfrac & _).
  destruct (is_digit_plain lead Hlead) as (_ & He & Hdot).
  assert (Hrun : significant_digits (frac ++ String "e" (esgn ++ edig)) = p).
  { rewrite significant_digits_run by assumption. exact Hlen. }
  assert (Hbody : significant_digits
                    (String lead (String "." (frac ++ String "e" (esgn ++ edig))))
                  = S p /\
                  decimal_places
                    (String lead (String "." (frac ++ String "e" (esgn ++ edig))))
                  = p).
  { cbn [significant_digits decimal_places]. rewrite He, Hlead, Hdot.
    change (Ascii.eqb "." "e") with false. change (is_digit ".") with false.
    change (Ascii.eqb "." ".") with true. cbv iota. rewrite Hrun. auto. }
  destruct Hsgn as [-> | ->].
  - exact Hbody.
  - change ("-" ++ String lead ("." ++ frac ++ "e" ++ esgn ++ edig))
      with (String "-" (String lead (String "."
                          (frac ++ String "e" (esgn ++ edig))))).
    destruct Hbody as [H1 H2]. split.
    + rewrite <- H1. reflexivity.
    + rewrite <- H2. reflexivity.
Qed.

(** The lines of a text made of rows. *)
Lemma lines_row (l rest : string) :
  one_line l = true -> lines (l ++ newline ++ rest) = l :: lines rest.
Proof.
  induction l as [|c l IH]; intros Hl; [reflexivity|].
  simpl in Hl. apply andb_true_iff in Hl. destruct Hl as [Hc Hl].
  apply negb_true_iff in Hc.
  change (String c l ++ newline ++ rest) with (String c (l ++ newline ++ rest)).
  cbn [lines]. rewrite Hc, (IH Hl). reflexivity.
Qed.

Lemma concat_cons (x : string) (xs : list string) :
  String.concat "" (x :: xs) = x ++ String.concat "" xs.
Proof.
  destruct xs as [|y xs]; simpl; [now rewrite append_nil_r|reflexivity].
Qed.

Lemma lines_rows {A : Type} (row : A -> string) (l : list A) :
  (forall y, In y l -> one_line (row y) = true) ->
  lines (String.concat "" (map (fun y => row y ++ newline) l)) = map row l.
Proof.
  induction l as [|y l IH]; intros Hrow; [reflexivity|].
  change (map (fun y0 => row y0 ++ newline) (y :: l))
    with ((row y ++ newline) :: map (fun y0 => row y0 ++ newline) l).
  rewrite concat_cons, append_assoc, lines_row by (apply Hrow; now left).
  rewrite IH by (intros z Hz; apply Hrow; now right). reflexivity.
Qed.

End Text.


(** ** The printed numbers *)

Section Printed.

Import Printf.
Local Open Scope string_scope.

Lemma finite_cases (y : float) :
  PrimFloat.is_finite y = true ->
  (exists s, Prim2SF y = S754_zero s) \/
  (exists s m e, Prim2SF y = S754_finite s m e).
Proof.
  unfold PrimFloat.is_finite, Prim2SF. intros Hfin.
  apply negb_true_iff, orb_false_iff in Hfin. destruct Hfin as [-> ->].
  destruct (is_zero y); [eauto|].
  destruct (Z.frexp y) as [r ex].
  destruct (shr_fexp prec emax _ _ _) as [shr e'].
  destruct (shr_m shr); eauto 6.
Qed.

Lemma sign_string_cases (s : bool) : sign_string s = "" \/ sign_string s = "-".
Proof. destruct s; auto. Qed.

Lemma exponent_string_shape (k : Z) :
  exists esgn edig,
    exponent_string k = esgn ++ edig /\
    (esgn = "+" \/ esgn = "-") /\
    (2 <= String.length edig)%nat /\ all_digits edig = true.
Proof.
  unfold exponent_string.
  exists (if (k <? 0)%Z then "-" else "+"), (digits_fixed (Nat.max 2 (nb_digits (Z.abs k))) (Z.abs k)).
  split; [reflexivity|]. split; [destruct (k <? 0)%Z; auto|].
  rewrite length_digits_fixed, all_digits_fixed. split; [lia|reflexivity].
Qed.

Lemma mantissa_shape (sgn : bool) (p : nat) (n k : Z) :
  scientific_shape (S p)
    (sign_string sgn ++ mantissa_string (S p) n ++ "e" ++ exponent_string k).
Proof.
  destruct (exponent_string_shape k) as (esgn & edig & -> & Hes & Hlen & Hed).
  exists (sign_string sgn), (digit (n / 10 ^ Z.of_nat (S p))),
         (digits_fixed (S p) n), esgn, edig.
  split.
  { unfold mantissa_string. reflexivity. }
  split; [apply sign_string_cases|]. split; [apply digit_is_digit|].
  split; [apply length_digits_fixed|]. split; [apply all_digits_fixed|].
  auto.
Qed.

(** [%.pe] of a finite number, for p > 0. *)
Lemma printf_e_shape (p : nat) (y : float) :
  PrimFloat.is_finite y = true -> scientific_shape (S p) (printf_e (S p) y).
Proof.
  intros Hfin. unfold printf_e.
  destruct (finite_cases y Hfin) as [(s & ->) | (s & m & e & ->)].
  - apply mantissa_shape.
  - destruct (fraction m e) as [num den]. unfold scientific.
    destruct (10 ^ (Z.of_nat (S p) + 1) <=? _)%Z; apply mantissa_shape.
Qed.

Lemma fixed_string_shape (sgn : bool) (p : nat) (num den : Z) :
  fixed_shape (S p) (sign_string sgn ++ fixed (S p) num den).
Proof.
  unfold fixed.
  set (n := round_div (num * 10 ^ Z.of_nat (S p)) den).
  exists (sign_string sgn), (decimal (n / 10 ^ Z.of_nat (S p))), (digits_fixed (S p) n).
  split; [reflexivity|]. split; [apply sign_string_cases|].
  unfold decimal. rewrite !length_digits_fixed, !all_digits_fixed.
  split; [lia|]. auto.
Qed.

(** [%.pf] of a finite number, for p > 0. *)
Lemma printf_f_shape (p : nat) (y : float) :
  PrimFloat.is_finite y = true -> fixed_shape (S p) (printf_f (S p) y).
Proof.
  intros Hfin. unfold printf_f.
  destruct (finite_cases y Hfin) as [(s & ->) | (s & m & e & ->)].
  - apply fixed_string_shape.
  - destruct (fraction m e) as [num den]. apply fixed_string_shape.
Qed.

(** A printed number has no comma and no end of line in it. *)
Lemma sign_string_plain (s : bool) : plain (sign_string s) = true.
Proof. destruct s; reflexivity. Qed.

Lemma mantissa_plain (p : nat) (n k : Z) :
  plain (mantissa_string p n ++ "e" ++ exponent_string k) = true.
Proof.
  unfold mantissa_string, exponent_string.
  assert (Hd : forall c, is_digit c = true -> plain (String c "") = true).
  { intros c Hc. simpl. destruct (is_digit_plain c Hc) as [-> _]. reflexivity. }
  assert (He : plain ("e" ++ (if (k <? 0)%Z then "-" else "+") ++
                      digits_fixed (Nat.max 2 (nb_digits (Z.abs k))) (Z.abs k))
               = true).
  { rewrite !plain_app.
    rewrite (all_digits_plain (digits_fixed _ _)) by apply all_digits_fixed.
    destruct (k <? 0)%Z; reflexivity. }
  destruct p as [|p].
  - rewrite plain_app, Hd by apply digit_is_digit. exact He.
  - change (String (digit (n / 10 ^ Z.of_nat (S p))) "." ++ digits_fixed (S p) n)
      with (String (digit (n / 10 ^ Z.of_nat (S p))) "" ++ "." ++ digits_fixed (S p) n).
    rewrite !plain_app, Hd by apply digit_is_digit.
    rewrite (all_digits_plain (digits_fixed _ _)) by apply all_digits_fixed.
    rewrite !plain_app in He. exact He.
Qed.

Lemma printf_e_plain (p : nat) (y : float) : plain (printf_e p y) = true.
Proof.
  unfold printf_e. destruct (Prim2SF y) as [s|s| |s m e].
  - rewrite plain_app, sign_string_plain. apply mantissa_plain.
  - rewrite plain_app, sign_string_plain. reflexivity.
  - reflexivity.
  - destruct (fraction m e) as [num den]. unfold scientific.
    rewrite plain_app, sign_string_plain.
    destruct (10 ^ (Z.of_nat p + 1) <=? _)%Z; apply mantissa_plain.
Qed.

Lemma fixed_plain (p : nat) (num den : Z) : plain (fixed p num den) = true.
Proof.
  unfold fixed, decimal. destruct p as [|p].
  - apply all_digits_plain, all_digits_fixed.
  - rewrite !plain_app.
    rewrite !(all_digits_plain (digits_fixed _ _)) by apply all_digits_fixed.
    reflexivity.
Qed.

Lemma printf_f_plain (p : nat) (y : float) : plain (printf_f p y) = true.
Proof.
  unfold printf_f. destruct (Prim2SF y) as [s|s| |s m e].
  - rewrite plain_app, sign_string_plain. apply fixed_plain.
  - rewrite plain_app, sign_string_plain. reflexivity.
  - reflexivity.
  - destruct (fraction m e) as [num den].
    rewrite plain_app, sign_string_plain. apply fixed_plain.
Qed.

End Printed.


(** ** The two files *)

Section Files.

Import Printf FloatRun Main.
Local Open Scope string_scope.

Lemma one_line_uint (d : Decimal.uint) :
  one_line (NilEmpty.string_of_uint d) = true.
Proof. induction d; simpl; auto. Qed.

Lemma one_line_show_nat (i : nat) : one_line (show_nat i) = true.
Proof.
  unfold show_nat, NilZero.string_of_uint.
  destruct (Nat.to_uint i) eqn:Hi; try reflexivity;
    rewrite <- Hi; apply one_line_uint.
Qed.

Lemma one_line_concat (sep : string) (l : list string) :
  one_line sep = true -> (forall y, In y l -> one_line y = true) ->
  one_line (String.concat sep l) = true.
Proof.
  intros Hsep. induction l as [|y l IH]; intros Hl; [reflexivity|].
  destruct l as [|z l]; [apply Hl; now left|].
  change (String.concat sep (y :: z :: l))
    with (y ++ sep ++ String.concat sep (z :: l)).
  rewrite !one_line_app, Hsep, (Hl y) by (now left).
  rewrite IH by (intros w Hw; apply Hl; now right). reflexivity.
Qed.

Lemma one_line_header (N : nat) :
  one_line ("t," ++ String.concat "," (header_names N)) = true.
Proof.
  rewrite one_line_app. simpl one_line at 1. simpl andb.
  apply one_line_concat; [reflexivity|].
  intros y Hy. unfold header_names in Hy. apply in_flat_map in Hy.
  destruct Hy as (i & _ & Hy). apply in_map_iff in Hy.
  destruct Hy as (d & <- & _).
  rewrite !one_line_app, !one_line_show_nat. reflexivity.
Qed.

Lemma one_line_energy_row (t E : float) :
  one_line (printf_f 6 t ++ "," ++ printf_e 10 E) = true.
Proof.
  rewrite !one_line_app.
  rewrite (plain_one_line _ (printf_f_plain 6 t)).
  rewrite (plain_one_line _ (printf_e_plain 10 E)). reflexivity.
Qed.

Lemma one_line_position_row (t : float) (pos : list float) :
  one_line (printf_f 6 t ++
            String.concat "" (map (fun y => "," ++ printf_e 10 y) pos)) = true.
Proof.
  rewrite one_line_app, (plain_one_line _ (printf_f_plain 6 t)).
  apply one_line_concat; [reflexivity|].
  intros y Hy. apply in_map_iff in Hy. destruct Hy as (z & <- & _).
  rewrite one_line_app, (plain_one_line _ (printf_e_plain 10 z)). reflexivity.
Qed.

(** The rows of positions.csv, built one sample after the other. *)
Lemma position_rows (ps : list (list float)) (ts : list float) :
  forall (k : nat) (acc0 rows : list string),
    for_fold (combine (seq (S k) (length ts)) ts) acc0
      (fun kt rows =>
         pos <- getindex ps (fst kt) ;;
         ret (rows ++ [position_row printf_f printf_e (snd kt) pos])%list)
    = Ok rows ->
    rows = (acc0 ++ map (fun tp => position_row printf_f printf_e (fst tp) (snd tp))
                        (combine ts (skipn k ps)))%list.
Proof.
  induction ts as [|t ts IH]; intros k acc0 rows Hrun.
  - simpl in Hrun. injection Hrun as <-. simpl. now rewrite app_nil_r.
  - cbn [length seq combine for_fold] in Hrun.
    cbn [bind result_Monad result_bind fst snd] in Hrun.
    unfold getindex in Hrun at 1.
    destruct (nth_error ps k) as [pos|] eqn:Hk; [|discriminate Hrun].
    cbn [result_bind ret result_Monad] in Hrun.
    apply IH in Hrun. rewrite Hrun, <- app_assoc.
    assert (Hskip : skipn k ps = pos :: skipn (S k) ps).
    { clear -Hk. revert ps Hk. induction k as [|k IHk]; intros [|p ps] Hk;
        simpl in Hk; try discriminate.
      - now injection Hk as ->.
      - simpl. now apply IHk. }
    rewrite Hskip. reflexivity.
Qed.


Lemma length_header_names (N : nat) :
  length (header_names N) = (N * NDIM)%nat.
Proof.
  unfold header_names.
  assert (Hrows : forall l : list nat,
            length (flat_map
                      (fun i => map (fun d => "x" ++ show_nat i ++ "_" ++ show_nat d)
                                    (range 1 NDIM)) l)
            = (length l * NDIM)%nat).
  { induction l as [|i l IH]; [reflexivity|].
    cbn [flat_map]. rewrite length_app, IH, length_map.
    unfold range. rewrite length_seq. simpl. lia. }
  rewrite Hrows. unfold range. rewrite length_seq. lia.
Qed.

(** Claim C9, amended.  energies.csv is the header line t,E and one row
    per recorded sample, its time printed with 6 decimal places and its
    energy in scientific notation with 10 decimal places, that is 11
    significant digits; positions.csv is the header line
    t,x1_1,...,xN_d and one row per recorded sample, every position
    component printed in scientific notation with 10 decimal places, that
    is 11 significant digits. *)
Theorem csv_files_format :
  (* energies.csv *)
  (forall ts es,
     lines (energies_csv printf_f printf_e ts es) =
     "t,E" :: map (fun te => printf_f 6 (fst te) ++ "," ++ printf_e 10 (snd te))
                  (combine ts es)) /\
  (* positions.csv *)
  (forall N ts ps file,
     positions_csv printf_f printf_e N ts ps = Ok file ->
     lines file =
     ("t," ++ String.concat "," (header_names N)) ::
     map (fun tp => printf_f 6 (fst tp) ++
                    String.concat "" (map (fun y => "," ++ printf_e 10 y)
                                          (snd tp)))
         (combine ts ps)) /\
  (forall N, length (header_names N) = (N * NDIM)%nat) /\
  header_names 2 = ["x1_1"; "x1_2"; "x2_1"; "x2_2"] /\
  (* the numbers *)
  (forall y, PrimFloat.is_finite y = true ->
     fixed_shape 6 (printf_f 6 y) /\
     scientific_shape 10 (printf_e 10 y) /\
     decimal_places (printf_e 10 y) = 10%nat /\
     significant_digits (printf_e 10 y) = 11%nat).
Proof.
  split; [|split; [|split; [exact length_header_names|split; [reflexivity|]]]].
  - intros ts es. unfold energies_csv.
    rewrite append_assoc. rewrite lines_row by reflexivity. f_equal.
    unfold energy_row.
    rewrite (map_ext _ (fun te => (printf_f 6 (fst te) ++ "," ++ printf_e 10 (snd te))
                                  ++ newline))
      by (intros te; now rewrite !append_assoc).
    apply (lines_rows (fun te => printf_f 6 (fst te) ++ "," ++ printf_e 10 (snd te))).
    intros te _. apply one_line_energy_row.
  - intros N ts ps file Hrun. unfold positions_csv in Hrun.
    cbn [bind result_Monad] in Hrun.
    destruct (for_fold _ _ _) as [rows|e] eqn:Hrows; [|discriminate Hrun].
    cbn [result_bind ret result_Monad] in Hrun. injection Hrun as <-.
    apply (position_rows ps ts 0 [] rows) in Hrows.
    cbn [app skipn] in Hrows. subst rows.
    unfold positions_header.
    match goal with
    | |- lines (String "t" (String "," ((?C ++ newline) ++ ?R))) = _ =>
        replace (String "t" (String "," ((C ++ newline) ++ R)))
          with (("t," ++ C) ++ newline ++ R)
          by (now rewrite !append_assoc)
    end.
    rewrite lines_row by apply one_line_header. f_equal.
    unfold position_row.
    rewrite (map_ext _ (fun tp => (printf_f 6 (fst tp) ++
                 String.concat "" (map (fun y => "," ++ printf_e 10 y) (snd tp)))
                 ++ newline))
      by (intros tp; now rewrite !append_assoc).
    apply (lines_rows (fun tp => printf_f 6 (fst tp) ++
                 String.concat "" (map (fun y => "," ++ printf_e 10 y) (snd tp)))).
    intros tp _. apply one_line_position_row.
  - intros y Hfin.
    pose proof (printf_e_shape 9 y Hfin) as He.
    destruct (scientific_shape_digits 10 _ He) as [Hs Hd].
    split; [exact (printf_f_shape 5 y Hfin)|]. auto.
Qed.

Lemma csv_files_format_witness :
  PrimFloat.is_finite (-3.6610417629718478e+29)%float = true /\
  printf_e 10 (-3.6610417629718478e+29)%float = "-3.6610417630e+29" /\
  printf_f 6 100%float = "100.000000" /\
  significant_digits (printf_e 10 (-3.6610417629718478e+29)%float) = 11%nat.
Proof.
  split; [reflexivity|]. split; [vm_compute; reflexivity|].
  split; [vm_compute; reflexivity|].
  destruct csv_files_format as (_ & _ & _ & _ & Hnum).
  apply (Hnum (-3.6610417629718478e+29)%float). reflexivity.
Defined.

(** Claim C9 fails as it is stated: the energies and the positions are not
    printed with 10 significant digits but with 11, one before the point
    and ten after it.  These are the first rows of the two files that
    [main] writes. *)
Lemma csv_eleven_significant_digits :
  exists f,
    main = Ok f /\
    length (lines (energies_file f)) = 102%nat /\
    length (lines (positions_file f)) = 102%nat /\
    nth 0 (lines (energies_file f)) "" = "t,E" /\
    nth 1 (lines (energies_file f)) "" = "0.000000,-3.6610417630e+29" /\
    nth 0 (lines (positions_file f)) "" = "t,x1_1,x1_2,x2_1,x2_2" /\
    nth 1 (lines (positions_file f)) "" =
      "0.000000,-4.8618141157e+05,0.0000000000e+00,3.9513818588e+07,0.0000000000e+00" /\
    map significant_digits (fields (nth 1 (lines (energies_file f)) ""))
      = [7; 11]%nat /\
    map significant_digits (fields (nth 1 (lines (positions_file f)) ""))
      = [7; 11; 11; 11; 11]%nat /\
    significant_digits (printf_e 10 1%float) <> 10%nat.
Proof.
  eexists. split; [vm_compute; reflexivity|].
  repeat (split; [vm_compute; reflexivity|]).
  vm_compute. discriminate.
Qed.

End Files.


(** * Further properties of the program *)

Section KernelProperties.

Import Exact.
Local Open Scope R_scope.

Implicit Types s : store R.

(** The force kernel run twice gives what it gives run once: its output is
    current. *)
Theorem accelerations_idempotent s :
  wf s ->
  exists s',
    accelerations s = Ok (tt, s') /\ accelerations s' = Ok (tt, s').
Proof.
  intros Hwf.
  destruct (wp_Ok _ _ _ (wp_accelerations s Hwf))
    as ([] & s' & Hrun & Hb & Ho & Hwf' & Hacc).
  exists s'. split; [exact Hrun|].
  apply current_pair_sum; [exact Hwf'|].
  intros k d Hk Hd. rewrite (nbodies_frame s s' Hb) in Hk.
  rewrite Hacc by assumption.
  symmetry. apply pair_sum_frame; try assumption.
  - now apply nbodies_frame.
  - intros i _. now apply mass_frame.
  - intros i d' _ _. now apply pos_frame.
Qed.

Lemma accelerations_idempotent_witness :
  wf two_bodies_at_rest /\
  exists s',
    accelerations two_bodies_at_rest = Ok (tt, s') /\
    accelerations s' = Ok (tt, s').
Proof.
  assert (Hwf : wf two_bodies_at_rest) by (split; [|split]; repeat constructor).
  split; [exact Hwf|]. exact (accelerations_idempotent two_bodies_at_rest Hwf).
Defined.

(** The kicks depend on the positions through their differences only. *)
Lemma sqdist_shift s s' (c : nat -> R) i j :
  (forall k d, (1 <= k <= nbodies s)%nat -> (1 <= d <= NDIM)%nat ->
               pos s' k d = pos s k d + c d) ->
  (1 <= i <= nbodies s)%nat -> (1 <= j <= nbodies s)%nat ->
  sqdist s' i j = sqdist s i j.
Proof.
  intros Hp Hi Hj. unfold sqdist. apply Rsum_ext. intros d Hd.
  unfold range in Hd. apply in_seq in Hd.
  rewrite !Hp by (assumption || lia). ring.
Qed.

Lemma pair_sum_shift s s' (c : nat -> R) k d :
  nbodies s' = nbodies s ->
  (forall k, (1 <= k <= nbodies s)%nat -> mass s' k = mass s k) ->
  (forall k d, (1 <= k <= nbodies s)%nat -> (1 <= d <= NDIM)%nat ->
               pos s' k d = pos s k d + c d) ->
  (1 <= d <= NDIM)%nat ->
  pair_sum s' k d = pair_sum s k d.
Proof.
  intros HN Hm Hp Hd. unfold pair_sum. rewrite HN.
  apply Rsum_ext. intros i Hi. apply Rsum_ext. intros j Hj.
  unfold range in Hi, Hj. apply in_seq in Hi, Hj.
  unfold pair_kick, kick_i, kick_j, invr3.
  rewrite (sqdist_shift s s' c i j Hp) by lia.
  rewrite !Hm, !Hp by (assumption || lia).
  destruct (k =? i)%nat, (k =? j)%nat; ring.
Qed.

(** The force kernel reads the masses and the differences of the positions,
    nothing else: two stores with the same masses whose positions differ by
    one shift [c] (which may be zero) get the same accelerations, whatever
    their velocities, their buffers and what was printed. *)
Theorem accelerations_translation s1 s2 (c : nat -> R) :
  wf s1 -> wf s2 -> nbodies s2 = nbodies s1 ->
  (forall i, (1 <= i <= nbodies s1)%nat -> mass s2 i = mass s1 i) ->
  (forall i d, (1 <= i <= nbodies s1)%nat -> (1 <= d <= NDIM)%nat ->
               pos s2 i d = pos s1 i d + c d) ->
  exists s1' s2',
    accelerations s1 = Ok (tt, s1') /\ accelerations s2 = Ok (tt, s2') /\
    a s2' = a s1'.
Proof.
  intros Hwf1 Hwf2 HN Hm Hp.
  destruct (wp_Ok _ _ _ (wp_accelerations s1 Hwf1))
    as ([] & s1' & Hrun1 & Hb1 & Ho1 & Hwf1' & Hacc1).
  destruct (wp_Ok _ _ _ (wp_accelerations s2 Hwf2))
    as ([] & s2' & Hrun2 & Hb2 & Ho2 & Hwf2' & Hacc2).
  exists s1', s2'. split; [exact Hrun1|]. split; [exact Hrun2|].
  destruct Hwf1' as [_ Hbuf1], Hwf2' as [_ Hbuf2].
  rewrite (nbodies_frame s1 s1' Hb1) in Hbuf1.
  rewrite (nbodies_frame s2 s2' Hb2), HN in Hbuf2.
  apply (buffer_ext (nbodies s1)); [exact Hbuf2|exact Hbuf1|].
  intros i d Hi Hd. fold (acc s1' i d) (acc s2' i d).
  rewrite Hacc1 by assumption. rewrite Hacc2 by (rewrite ?HN; assumption).
  apply (pair_sum_shift s1 s2 c); assumption.
Qed.

Lemma accelerations_translation_witness :
  exists s1' s2',
    accelerations two_bodies = Ok (tt, s1') /\
    accelerations
      (mkStore [mkBody 2 [10; -20] [5; 6]; mkBody 3 [13; -16] [7; -7]]
               [[1; 1]; [1; 1]] [Wrote])
    = Ok (tt, s2') /\
    a s2' = a s1'.
Proof.
  apply (accelerations_translation two_bodies _
           (fun d => if (d =? 1)%nat then 10 else -20)).
  - exact wf_two_bodies.
  - split; [|split]; repeat constructor.
  - reflexivity.
  - intros i Hi. change (nbodies two_bodies) with 2%nat in Hi.
    assert (Hc : (i = 1 \/ i = 2)%nat) by lia.
    destruct Hc as [-> | ->]; reflexivity.
  - intros i d Hi Hd. change (nbodies two_bodies) with 2%nat in Hi.
    unfold NDIM in Hd.
    assert (Hc : ((i = 1 \/ i = 2) /\ (d = 1 \/ d = 2))%nat) by lia.
    destruct Hc as ([-> | ->] & [-> | ->]); unfold pos, body_at; simpl; lra.
Defined.

(** The energy is the same in every frame at rest with respect to this
    one: two systems with the same masses and velocities whose positions
    differ by one shift have the same total energy. *)
Theorem total_energy_translation s1 s2 (c : nat -> R) :
  wf_bodies (bodies s1) -> wf_bodies (bodies s2) -> nbodies s2 = nbodies s1 ->
  (forall i, (1 <= i <= nbodies s1)%nat -> mass s2 i = mass s1 i) ->
  (forall i d, (1 <= i <= nbodies s1)%nat -> (1 <= d <= NDIM)%nat ->
               vel s2 i d = vel s1 i d) ->
  (forall i d, (1 <= i <= nbodies s1)%nat -> (1 <= d <= NDIM)%nat ->
               pos s2 i d = pos s1 i d + c d) ->
  exists E, total_energy s1 = Ok (E, s1) /\ total_energy s2 = Ok (E, s2).
Proof.
  intros Hwf1 Hwf2 HN Hm Hv Hp.
  exists (spec_kinetic s1 + spec_potential s1).
  split; [apply total_energy_Ok; exact Hwf1|].
  rewrite (total_energy_Ok s2 Hwf2). do 2 f_equal.
  unfold spec_kinetic, spec_potential. rewrite HN. f_equal.
  - apply Rsum_ext. intros i Hi. unfold range in Hi. apply in_seq in Hi.
    rewrite Hm by lia. f_equal. unfold sqspeed. apply Rsum_ext.
    intros d Hd. unfold range in Hd. apply in_seq in Hd.
    rewrite Hv by lia. reflexivity.
  - f_equal. apply Rsum_ext. intros i Hi. apply Rsum_ext. intros j Hj.
    apply filter_In in Hj. destruct Hj as [Hj _].
    unfold range in Hi, Hj. apply in_seq in Hi, Hj.
    rewrite (sqdist_shift s1 s2 c i j Hp) by lia.
    rewrite !Hm by lia. reflexivity.
Qed.

Lemma total_energy_translation_witness :
  exists E,
    total_energy two_bodies = Ok (E, two_bodies) /\
    total_energy
      (mkStore [mkBody 2 [10; -20] [1; 0]; mkBody 3 [13; -16] [0; -1]]
               [] [Wrote])
    = Ok (E, mkStore [mkBody 2 [10; -20] [1; 0]; mkBody 3 [13; -16] [0; -1]]
                     [] [Wrote]).
Proof.
  apply (total_energy_translation two_bodies _
           (fun d => if (d =? 1)%nat then 10 else -20)).
  - apply wf_two_bodies.
  - repeat constructor.
  - reflexivity.
  - intros i Hi. change (nbodies two_bodies) with 2%nat in Hi.
    assert (Hc : (i = 1 \/ i = 2)%nat) by lia.
    destruct Hc as [-> | ->]; reflexivity.
  - intros i d Hi Hd. change (nbodies two_bodies) with 2%nat in Hi.
    unfold NDIM in Hd.
    assert (Hc : ((i = 1 \/ i = 2) /\ (d = 1 \/ d = 2))%nat) by lia.
    destruct Hc as ([-> | ->] & [-> | ->]); reflexivity.
  - intros i d Hi Hd. change (nbodies two_bodies) with 2%nat in Hi.
    unfold NDIM in Hd.
    assert (Hc : ((i = 1 \/ i = 2) /\ (d = 1 \/ d = 2))%nat) by lia.
    destruct Hc as ([-> | ->] & [-> | ->]); unfold pos, body_at; simpl; lra.
Defined.

(** Newton's third law for any number of bodies: the accelerations the
    kernel returns, weighted by the masses, sum to zero in every
    component. *)
Theorem accelerations_no_net_force s :
  wf s ->
  exists s',
    accelerations s = Ok (tt, s') /\
    forall d, (1 <= d <= NDIM)%nat ->
      Rsum (range 1 (nbodies s)) (fun i => mass s i * acc s' i d) = 0.
Proof.
  intros Hwf.
  destruct (wp_Ok _ _ _ (wp_accelerations s Hwf))
    as ([] & s' & Hrun & Hb & Ho & Hwf' & Hacc).
  exists s'. split; [exact Hrun|]. intros d Hd.
  rewrite <- (pair_sum_momentum s d). apply Rsum_ext.
  intros i Hi. unfold range in Hi. apply in_seq in Hi.
  rewrite Hacc by (assumption || lia). reflexivity.
Qed.

Lemma accelerations_no_net_force_witness :
  wf two_bodies /\
  exists s',
    accelerations two_bodies = Ok (tt, s') /\
    2 * acc s' 1 1 + 3 * acc s' 2 1 = 0.
Proof.
  split; [exact wf_two_bodies|].
  destruct (accelerations_no_net_force two_bodies wf_two_bodies)
    as (s' & Hrun & Hsum).
  exists s'. split; [exact Hrun|].
  specialize (Hsum 1%nat ltac:(unfold NDIM; lia)).
  unfold mass, body_at in Hsum. simpl in Hsum. lra.
Defined.

(** Bodies at the same place do not act on each other: where every body
    has the same position, the kernel returns zeros (the softening keeps
    the factor finite and the displacement is zero). *)
Theorem accelerations_coincident s :
  wf s ->
  (forall i j d, (1 <= i <= nbodies s)%nat -> (1 <= j <= nbodies s)%nat ->
                 (1 <= d <= NDIM)%nat -> pos s i d = pos s j d) ->
  exists s',
    accelerations s = Ok (tt, s') /\
    forall i d, (1 <= i <= nbodies s)%nat -> (1 <= d <= NDIM)%nat ->
                acc s' i d = 0.
Proof.
  intros Hwf Hsame.
  destruct (wp_Ok _ _ _ (wp_accelerations s Hwf))
    as ([] & s' & Hrun & Hb & Ho & Hwf' & Hacc).
  exists s'. split; [exact Hrun|]. intros k d Hk Hd.
  rewrite Hacc by assumption. unfold pair_sum.
  apply Rsum_zero. intros i Hi. apply Rsum_zero. intros j Hj.
  unfold range in Hi, Hj. apply in_seq in Hi, Hj.
  unfold pair_kick, kick_i, kick_j.
  rewrite (Hsame j i d) by (assumption || lia).
  destruct (k =? i)%nat, (k =? j)%nat; ring.
Qed.

Lemma accelerations_coincident_witness :
  wf degenerate /\
  exists s',
    accelerations degenerate = Ok (tt, s') /\
    acc s' 1 1 = 0 /\ acc s' 2 2 = 0.
Proof.
  assert (Hwf : wf degenerate) by (split; [|split]; repeat constructor).
  split; [exact Hwf|].
  destruct (accelerations_coincident degenerate Hwf) as (s' & Hrun & Hz).
  - intros i j d Hi Hj Hd. change (nbodies degenerate) with 2%nat in Hi, Hj.
    unfold NDIM in Hd.
    assert (Hc : ((i = 1 \/ i = 2) /\ (j = 1 \/ j = 2) /\ (d = 1 \/ d = 2))%nat)
      by lia.
    destruct Hc as ([-> | ->] & [-> | ->] & [-> | ->]); reflexivity.
  - exists s'. split; [exact Hrun|].
    split; apply Hz; change (nbodies degenerate) with 2%nat; unfold NDIM; lia.
Defined.

End KernelProperties.


Section StepProperties.

Import Exact.
Local Open Scope R_scope.

Implicit Types s : store R.

Lemma G_pos : 0 < @G R _.
Proof. unfold G. cbn. unfold literal. simpl. lra. Qed.




(** A step can be undone: from a store whose buffer is current, a step of
    dt followed by a step of -dt gives the store back, bodies and buffer. *)
Theorem vv_step_reversible s dt :
  wf s -> current s ->
  exists s1,
    vv_step dt s = Ok (tt, s1) /\ vv_step (- dt) s1 = Ok (tt, s).
Proof.
  intros Hwf Hcur.
  destruct (wp_Ok _ _ _ (wp_vv_step s dt Hwf))
    as ([] & s1 & Hrun1 & Hwf1 & Ho1 & HN1 & Hm1 & Hpv1 & Hcur1).
  destruct (wp_Ok _ _ _ (wp_vv_step s1 (- dt) Hwf1))
    as ([] & s2 & Hrun2 & Hwf2 & Ho2 & HN2 & Hm2 & Hpv2 & Hcur2).
  exists s1. split; [exact Hrun1|]. rewrite Hrun2. f_equal. f_equal.
  assert (Hmass : forall k, (1 <= k <= nbodies s)%nat -> mass s2 k = mass s k).
  { intros k Hk. rewrite Hm2 by (rewrite HN1; exact Hk). now apply Hm1. }
  assert (Hpos : forall k d, (1 <= k <= nbodies s)%nat -> (1 <= d <= NDIM)%nat ->
                             pos s2 k d = pos s k d).
  { intros k d Hk Hd.
    destruct (Hpv2 k d) as (-> & _ & _); [rewrite HN1; exact Hk|exact Hd|].
    destruct (Hpv1 k d Hk Hd) as (-> & -> & _). ring. }
  assert (Hacc : forall k d, (1 <= k <= nbodies s)%nat -> (1 <= d <= NDIM)%nat ->
                             acc s2 k d = acc s k d).
  { intros k d Hk Hd.
    destruct (Hpv2 k d) as (_ & _ & ->); [rewrite HN1; exact Hk|exact Hd|].
    rewrite (pair_sum_current s Hwf Hcur k d Hk Hd).
    apply pair_sum_frame; (assumption || lia). }
  assert (Hvel : forall k d, (1 <= k <= nbodies s)%nat -> (1 <= d <= NDIM)%nat ->
                             vel s2 k d = vel s k d).
  { intros k d Hk Hd. pose proof (Hacc k d Hk Hd) as Ha.
    destruct (Hpv2 k d) as (_ & -> & _); [rewrite HN1; exact Hk|exact Hd|].
    rewrite Ha. destruct (Hpv1 k d Hk Hd) as (_ & -> & _). ring. }
  apply store_ext; try assumption.
  - apply bodies_ext_store; try assumption; [lia| |].
    + intros k Hk. apply Hmass. lia.
    + intros k d Hk Hd. split; [apply Hpos|apply Hvel]; (assumption || lia).
  - congruence.
  - intros k d Hk Hd. apply Hacc; (assumption || lia).
Qed.

Lemma vv_step_reversible_witness :
  wf two_bodies /\ current two_bodies /\
  exists s1,
    vv_step 0.5 two_bodies = Ok (tt, s1) /\
    vv_step (- (0.5)) s1 = Ok (tt, two_bodies).
Proof.
  split; [exact wf_two_bodies|]. split; [exact current_two_bodies|].
  exact (vv_step_reversible two_bodies 0.5 wf_two_bodies current_two_bodies).
Defined.





End StepProperties.


Section Conservation.

Import Exact.
Local Open Scope R_scope.

Implicit Types s : store R.

Lemma Rsum_combine {I : Type} (l : list I) (c1 c2 : R) (f g : I -> R) :
  Rsum l (fun i => c1 * f i - c2 * g i) = c1 * Rsum l f - c2 * Rsum l g.
Proof. induction l as [|i l IH]; simpl; [lra|]. rewrite IH. lra. Qed.

(** The kicks of all pairs carry no net torque: the force between two
    bodies lies along the line that joins them. *)
Lemma pair_sum_torque s :
  Rsum (range 1 (nbodies s))
       (fun k => mass s k * (pos s k 1 * pair_sum s k 2 -
                             pos s k 2 * pair_sum s k 1)) = 0.
Proof.
  set (N := nbodies s).
  rewrite (Rsum_ext _ _ (fun k =>
             Rsum (range 1 (N - 1)) (fun i =>
               Rsum (range (i + 1) N) (fun j =>
                 mass s k * (pos s k 1 * pair_kick s i j k 2 -
                             pos s k 2 * pair_kick s i j k 1))))).
  2:{ intros k _. unfold pair_sum. fold N.
      transitivity (Rsum (range 1 (N - 1)) (fun i =>
                 mass s k * pos s k 1 *
                   Rsum (range (i + 1) N) (fun j => pair_kick s i j k 2) -
                 mass s k * pos s k 2 *
                   Rsum (range (i + 1) N) (fun j => pair_kick s i j k 1))).
      - rewrite Rsum_combine. ring.
      - apply Rsum_ext. intros i _. rewrite <- Rsum_combine.
        apply Rsum_ext. intros j _. ring. }
  rewrite Rsum_swap. apply Rsum_zero. intros i Hi.
  rewrite Rsum_swap. apply Rsum_zero. intros j Hj.
  unfold range in Hi, Hj. apply in_seq in Hi, Hj.
  rewrite (Rsum_ext _ _ (fun k =>
             (if (k =? i)%nat
              then mass s k * (pos s k 1 * kick_i s i j 2 - pos s k 2 * kick_i s i j 1)
              else 0) +
             (if (k =? j)%nat
              then mass s k * (pos s k 1 * kick_j s i j 2 - pos s k 2 * kick_j s i j 1)
              else 0))).
  2:{ intros k _. unfold pair_kick.
      destruct (k =? i)%nat, (k =? j)%nat; ring. }
  rewrite Rsum_plus. unfold range.
  rewrite (Rsum_pick_l 1 (N + 1 - 1) i
             (fun k => mass s k * (pos s k 1 * kick_i s i j 2 - pos s k 2 * kick_i s i j 1))).
  rewrite (Rsum_pick_l 1 (N + 1 - 1) j
             (fun k => mass s k * (pos s k 1 * kick_j s i j 2 - pos s k 2 * kick_j s i j 1))).
  destruct (Nat.leb_spec 1 i), (Nat.ltb_spec i (1 + (N + 1 - 1))),
           (Nat.leb_spec 1 j), (Nat.ltb_spec j (1 + (N + 1 - 1))); try lia.
  simpl andb. cbv iota. unfold kick_i, kick_j. ring.
Qed.

(** What one step does to the momentum, to the first moment of the masses
    and to the angular momentum. *)
Lemma mechanics_step s dt :
  wf s -> current s ->
  exists s',
    vv_step dt s = Ok (tt, s') /\ wf s' /\ current s' /\
    (forall d, (1 <= d <= NDIM)%nat -> momentum s' d = momentum s d) /\
    (forall d, (1 <= d <= NDIM)%nat ->
               mass_moment s' d = mass_moment s d + dt * momentum s d) /\
    angular_momentum s' = angular_momentum s.
Proof.
  intros Hwf Hcur.
  destruct (momentum_step s dt Hwf Hcur) as (s' & Hrun & Hwf' & Hcur' & HN & Hmom).
  destruct (wp_Ok _ _ _ (wp_vv_step s dt Hwf))
    as ([] & s'' & Hrun' & _ & _ & _ & Hm & Hpv & _).
  rewrite Hrun in Hrun'. injection Hrun' as <-.
  exists s'. do 4 (split; [assumption|]).
  assert (Hin : forall i, In i (range 1 (nbodies s)) -> (1 <= i <= nbodies s)%nat).
  { intros i Hi. unfold range in Hi. apply in_seq in Hi. lia. }
  assert (Hd1 : (1 <= 1 <= NDIM)%nat) by (unfold NDIM; lia).
  assert (Hd2 : (1 <= 2 <= NDIM)%nat) by (unfold NDIM; lia).
  split.
  - intros d Hd. unfold mass_moment, momentum. rewrite HN.
    rewrite (Rsum_ext _ _ (fun i =>
               mass s i * pos s i d +
               (dt * (mass s i * vel s i d) +
                0.5 * dt * dt * (mass s i * pair_sum s i d)))).
    2:{ intros i Hi. apply Hin in Hi.
        destruct (Hpv i d Hi Hd) as (-> & _ & _).
        rewrite (pair_sum_current s Hwf Hcur i d Hi Hd), (Hm i Hi). ring. }
    rewrite !Rsum_plus, !Rsum_scal, (pair_sum_momentum s d). lra.
  - unfold angular_momentum. rewrite HN.
    rewrite (Rsum_ext _ _ (fun i =>
               mass s i * (pos s i 1 * vel s i 2 - pos s i 2 * vel s i 1) +
               (0.5 * dt * (mass s i * (pos s i 1 * pair_sum s i 2 -
                                        pos s i 2 * pair_sum s i 1)) +
                0.5 * dt * (mass s' i * (pos s' i 1 * pair_sum s' i 2 -
                                         pos s' i 2 * pair_sum s' i 1))))).
    2:{ intros i Hi. apply Hin in Hi.
        destruct (Hpv i 1%nat Hi Hd1) as (Hp1 & Hv1 & Ha1).
        destruct (Hpv i 2%nat Hi Hd2) as (Hp2 & Hv2 & Ha2).
        rewrite Hv1, Hv2, Ha1, Ha2, (Hm i Hi).
        rewrite <- (pair_sum_current s Hwf Hcur i 1 Hi Hd1).
        rewrite <- (pair_sum_current s Hwf Hcur i 2 Hi Hd2).
        rewrite Hp1, Hp2. ring. }
    rewrite !Rsum_plus, !Rsum_scal, (pair_sum_torque s).
    rewrite <- HN, (pair_sum_torque s'). lra.
Qed.

(** The centre of mass moves in a straight line at constant speed: after
    n steps from a store whose buffer is current, the first moment of the
    masses has advanced by n dt times the momentum. *)
Theorem centre_of_mass_drift s dt (n : nat) :
  wf s -> current s ->
  exists s',
    steps dt n s = Ok (tt, s') /\
    forall d, (1 <= d <= NDIM)%nat ->
      mass_moment s' d = mass_moment s d + INR n * dt * momentum s d.
Proof.
  intros Hwf Hcur.
  assert (H : exists s', steps dt n s = Ok (tt, s') /\ wf s' /\ current s' /\
                (forall d, (1 <= d <= NDIM)%nat -> momentum s' d = momentum s d) /\
                forall d, (1 <= d <= NDIM)%nat ->
                  mass_moment s' d = mass_moment s d + INR n * dt * momentum s d).
  { induction n as [|n IH].
    - exists s. simpl. repeat (split; [auto|]). intros d _. lra.
    - destruct IH as (s1 & Hrun1 & Hwf1 & Hcur1 & Hmom1 & Hcm1).
      destruct (mechanics_step s1 dt Hwf1 Hcur1)
        as (s2 & Hrun2 & Hwf2 & Hcur2 & Hmom2 & Hcm2 & _).
      exists s2. split; [eapply steps_succ; eassumption|].
      split; [exact Hwf2|]. split; [exact Hcur2|]. split.
      + intros d Hd. rewrite Hmom2, Hmom1 by assumption. reflexivity.
      + intros d Hd. rewrite Hcm2, Hcm1, Hmom1 by assumption.
        rewrite S_INR. ring. }
  destruct H as (s' & Hrun & _ & _ & _ & Hcm). eauto.
Qed.

Lemma centre_of_mass_drift_witness :
  wf two_bodies /\ current two_bodies /\
  exists s',
    steps 0.5 10 two_bodies = Ok (tt, s') /\
    mass_moment s' 1 = 19 /\ mass_moment s' 2 = -3.
Proof.
  split; [exact wf_two_bodies|]. split; [exact current_two_bodies|].
  destruct (centre_of_mass_drift two_bodies 0.5 10 wf_two_bodies
                                 current_two_bodies) as (s' & Hrun & Hcm).
  exists s'. split; [exact Hrun|].
  rewrite !Hcm by (unfold NDIM; lia).
  unfold mass_moment, momentum, mass, pos, vel, body_at. simpl. split; lra.
Defined.

(** Angular momentum is conserved: in exact arithmetic, from a store whose
    buffer is current, the angular momentum about the origin is the same
    after any number of steps. *)
Theorem angular_momentum_constant s dt (n : nat) :
  wf s -> current s ->
  exists s',
    steps dt n s = Ok (tt, s') /\ angular_momentum s' = angular_momentum s.
Proof.
  intros Hwf Hcur.
  assert (H : exists s', steps dt n s = Ok (tt, s') /\ wf s' /\ current s' /\
                         angular_momentum s' = angular_momentum s).
  { induction n as [|n IH].
    - exists s. simpl. auto.
    - destruct IH as (s1 & Hrun1 & Hwf1 & Hcur1 & HL1).
      destruct (mechanics_step s1 dt Hwf1 Hcur1)
        as (s2 & Hrun2 & Hwf2 & Hcur2 & _ & _ & HL2).
      exists s2. split; [eapply steps_succ; eassumption|].
      split; [exact Hwf2|]. split; [exact Hcur2|]. congruence. }
  destruct H as (s' & Hrun & _ & _ & HL). eauto.
Qed.

Lemma angular_momentum_constant_witness :
  wf two_bodies /\ current two_bodies /\
  exists s',
    steps 0.5 1000 two_bodies = Ok (tt, s') /\ angular_momentum s' = -9.
Proof.
  split; [exact wf_two_bodies|]. split; [exact current_two_bodies|].
  destruct (angular_momentum_constant two_bodies 0.5 1000 wf_two_bodies
                                       current_two_bodies) as (s' & Hrun & HL).
  exists s'. split; [exact Hrun|]. rewrite HL.
  unfold angular_momentum, mass, pos, vel, body_at. simpl. lra.
Defined.

End Conservation.


Section DriverEdges.

Context {F : Type} `{Float64Ops F}.

Implicit Types s : store F.

Lemma bind_ext_M {A B} (c : M F A) (k1 k2 : A -> M F B) s :
  (forall r s', k1 r s' = k2 r s') -> bind c k1 s = bind c k2 s.
Proof.
  intros Hk. cbn. unfold M_bind. destruct (c s) as [[r s']|e]; [apply Hk|reflexivity].
Qed.

Lemma bind_cong_M {A B} (c1 c2 : M F A) (k : A -> M F B) s :
  c1 s = c2 s -> bind c1 k s = bind c2 k s.
Proof. intros Hc. cbn. unfold M_bind. now rewrite Hc. Qed.

Lemma for_fold_ext_M {I B} (l : list I) (body1 body2 : I -> B -> M F B) :
  (forall i b s, body1 i b s = body2 i b s) ->
  forall b s, for_fold l b body1 s = for_fold l b body2 s.
Proof.
  intros Hb. induction l as [|i l IH]; intros b s; simpl; [reflexivity|].
  unfold M_bind. rewrite Hb.
  destruct (body2 i b s) as [[r s']|e]; [apply IH|reflexivity].
Qed.

Lemma rem_opp (k n : Z) : rem k (- n) = rem k n.
Proof.
  unfold rem. destruct (Z.eqb_spec n 0) as [->|Hn]; [reflexivity|].
  destruct (Z.eqb_spec (- n) 0); [lia|]. now rewrite Z.rem_opp_r.
Qed.

Lemma range1Z_nonpos (n : Z) : (n <= 0)%Z -> range1Z n = [].
Proof.
  intros Hn. unfold range1Z. replace (Z.to_nat n) with 0%nat by lia. reflexivity.
Qed.

(** Only the size of the cadence counts: [k % output_every] has the sign of
    [k], so that the driver run with the cadence [- c] does what it does
    with the cadence [c], whatever the arithmetic. *)
Theorem simulate_cadence_sign s dt (nsteps c : Z) :
  simulate dt nsteps (- c) s = simulate dt nsteps c s.
Proof.
  unfold simulate.
  apply bind_ext_M. intros N s1.
  apply bind_ext_M. intros [] s2.
  apply bind_ext_M. intros [] s3.
  apply bind_ext_M. intros E0 s4.
  apply bind_ext_M. intros p0 s5.
  apply bind_cong_M. apply for_fold_ext_M. intros k rec s6.
  apply bind_ext_M. intros [] s7. cbv zeta.
  now rewrite rem_opp.
Qed.


Lemma fill_loop_short (y : F) (n : nat) :
  forall lo s,
    1 <= lo <= length (a s) + 1 -> length (a s) + 1 < lo + n ->
    for_fold (seq lo n) tt (fun i _ => fill_a i y) s = Raise BoundsError.
Proof.
  induction n as [|n IH]; intros lo s Hlo Hn; [lia|].
  simpl. unfold M_bind. destruct lo as [|k]; [lia|].
  unfold fill_a at 1. unfold getindex, setindex.
  destruct (nth_error (a s) k) as [row|] eqn:Hrow.
  - assert (Hk : k < length (a s)) by (apply nth_error_Some; congruence).
    apply Nat.ltb_lt in Hk. rewrite Hk. apply Nat.ltb_lt in Hk.
    apply IH; simpl; rewrite length_replace_nth; lia.
  - reflexivity.
Qed.

(** The kernel checks the buffer before it computes anything: with fewer
    rows in the buffer than there are bodies, it raises [BoundsError]
    while zeroing the rows. *)
Theorem accelerations_short_buffer s :
  length (a s) < length (bodies s) -> accelerations s = Raise BoundsError.
Proof.
  intros Hlen. unfold accelerations. cbn [bind M_Monad].
  unfold M_bind at 1. unfold length_bodies. unfold M_bind at 1.
  unfold for_each at 1, range at 1.
  rewrite fill_loop_short; [reflexivity|lia|lia].
Qed.

End DriverEdges.

Section DriverEdgesExact.

Import Exact.
Local Open Scope R_scope.

Implicit Types s : store R.


Lemma accelerations_short_buffer_witness :
  accelerations (mkStore [mkBody 2 [0; 0] [1; 0]; mkBody 3 [3; 4] [0; -1]]
                         [[0; 0]] [])
  = Raise BoundsError.
Proof. apply accelerations_short_buffer. simpl. lia. Defined.

(** What the driver does before its loop, on a system that is not empty. *)
Lemma simulate_start s0 :
  wf_bodies (bodies s0) -> (1 <= nbodies s0)%nat ->
  exists boot,
    bootstrap s0 = Ok (tt, boot) /\ wf boot /\
    bodies boot = bodies s0 /\ stdout boot = stdout s0 /\
    forall dt nsteps c (Q : _ -> store R -> Prop) E,
      wp (for_fold (range1Z nsteps)
            (mkRecording [zero] [spec_kinetic s0 + spec_potential s0]
                         [concat (map x (bodies s0))] zero)
            (fun k rec =>
               vv_step dt ;;
               let t' := fadd (t rec) dt in
               r <- lift (rem k c) ;;
               if (r =? 0)%Z then
                 E <- total_energy ;;
                 p <- flat_positions ;;
                 print (Progress k t' E) ;;
                 ret (mkRecording (times rec ++ [t']) (energies rec ++ [E])
                                  (samples rec ++ [p]) t')
               else
                 ret (mkRecording (times rec) (energies rec) (samples rec) t')))
         (fun rec s' => Q (times rec, energies rec, samples rec) s') E boot ->
      wp (simulate dt nsteps c) Q E s0.
Proof.
  intros Hwf0 HN.
  pose proof (wf_alloc s0 Hwf0) as Hwfa.
  set (s_alloc := mkStore (bodies s0) _ (stdout s0)) in Hwfa.
  destruct (wp_Ok _ _ _ (wp_accelerations s_alloc Hwfa))
    as ([] & boot & Hboot & Hbb & Hbo & Hwfb & Haccb).
  assert (HNb : nbodies boot = nbodies s0) by (apply (nbodies_frame s_alloc boot Hbb)).
  assert (Hwfbb : wf_bodies (bodies boot)) by apply Hwfb.
  pose proof (total_energy_Ok boot Hwfbb) as HE0.
  pose proof (flat_positions_Ok boot Hwfbb ltac:(lia)) as Hp0.
  rewrite (energy_frame s0 boot Hbb) in HE0. rewrite Hbb in Hp0.
  exists boot. split.
  { unfold bootstrap. cbn [bind M_Monad]. unfold M_bind at 1.
    unfold length_bodies. unfold M_bind at 1. unfold alloc_a.
    fold (nbodies s0). fold s_alloc. exact Hboot. }
  split; [exact Hwfb|]. split; [exact Hbb|]. split; [exact Hbo|].
  intros dt nsteps c Q E Hloop.
  unfold simulate.
  apply wp_bind. eapply wp_eq; [reflexivity|]. cbv beta. fold (nbodies s0).
  apply wp_bind. eapply wp_eq; [reflexivity|]. fold s_alloc.
  apply wp_bind. eapply wp_eq; [exact Hboot|]. cbv beta.
  apply wp_bind. eapply wp_eq; [exact HE0|]. cbv beta.
  apply wp_bind. eapply wp_eq; [exact Hp0|]. cbv beta.
  apply wp_bind. eapply wp_mono; [exact Hloop| |auto].
  intros rec s' HQ. apply wp_ret. exact HQ.
Qed.

(** With no step to run, the cadence is never looked at: for a step count
    that is zero or negative and any cadence, zero included, the driver
    returns the one sample taken at t = 0, moves no body and prints
    nothing. *)
Theorem simulate_no_steps s0 dt (nsteps c : Z) :
  wf_bodies (bodies s0) -> (1 <= nbodies s0)%nat -> (nsteps <= 0)%Z ->
  exists s_end,
    simulate dt nsteps c s0
    = Ok (([0], [spec_kinetic s0 + spec_potential s0],
           [concat (map x (bodies s0))]), s_end) /\
    bootstrap s0 = Ok (tt, s_end) /\
    bodies s_end = bodies s0 /\ stdout s_end = stdout s0.
Proof.
  intros Hwf0 HN Hn.
  destruct (simulate_start s0 Hwf0 HN) as (boot & Hboot & _ & Hb & Ho & Hsim).
  exists boot.
  assert (Hwp : wp (simulate dt nsteps c)
                   (fun r s' => r = ([0], [spec_kinetic s0 + spec_potential s0],
                                     [concat (map x (bodies s0))]) /\ s' = boot)
                   never s0).
  { apply Hsim. rewrite (range1Z_nonpos nsteps Hn). apply wp_ret.
    cbn [times energies samples]. rewrite zero_R. split; reflexivity. }
  destruct (wp_Ok _ _ _ Hwp) as (r & s' & Hrun & -> & ->).
  auto.
Qed.

Lemma simulate_no_steps_witness :
  exists s_end,
    simulate 0.5 (-3) 0 two_bodies
    = Ok (([0], [spec_kinetic two_bodies + spec_potential two_bodies],
           [[0; 0; 3; 4]]), s_end) /\
    bootstrap two_bodies = Ok (tt, s_end) /\
    bodies s_end = bodies two_bodies /\ stdout s_end = stdout two_bodies.
Proof.
  apply (simulate_no_steps two_bodies 0.5 (-3) 0).
  - apply wf_two_bodies.
  - apply le_S, le_n.
  - lia.
Defined.



End DriverEdgesExact.


Section ProgressLog.

Import Exact.
Local Open Scope R_scope.

Implicit Types s : store R.

Lemma progress_log_push (K : nat) (ts es : list R) (t' E : R) :
  (1 <= length ts)%nat -> length es = length ts ->
  progress_log K (ts ++ [t']) (es ++ [E])
  = progress_log K ts es ++ [Progress (Z.of_nat (length ts * K)) t' E].
Proof.
  intros Hts Hes. unfold progress_log. rewrite length_app. simpl.
  replace (length ts + 1 - 1)%nat with (S (length ts - 1)) by lia.
  rewrite seq_snoc, map_app. f_equal.
  - apply map_ext_in. intros j Hj. apply in_seq in Hj.
    rewrite !app_nth1 by lia. reflexivity.
  - cbn [map]. replace (1 + (length ts - 1))%nat with (length ts) by lia.
    rewrite nth_middle. rewrite <- Hes at 2. rewrite nth_middle. reflexivity.
Qed.

(** The log follows the samples: on the domain of the driver, what a run
    adds to the standard output is one progress line for each sample
    recorded after the first, in order, with the step number, the time and
    the energy of that sample, and nothing else. *)
Theorem simulate_progress_log s0 dt (nsteps output_every : Z) :
  wf_bodies (bodies s0) -> (1 <= nbodies s0)%nat ->
  (0 <= nsteps)%Z -> (1 <= output_every)%Z ->
  exists ts es ps s_end,
    simulate dt nsteps output_every s0 = Ok ((ts, es, ps), s_end) /\
    stdout s_end = stdout s0 ++ progress_log (Z.to_nat output_every) ts es.
Proof.
  intros Hwf0 HN Hn HK.
  destruct (simulate_start s0 Hwf0 HN) as (boot & _ & Hwfb & Hbb & Hbo & Hsim).
  set (K := Z.to_nat output_every).
  assert (HK1 : (1 <= K)%nat) by (unfold K; lia).
  cut (wp (simulate dt nsteps output_every)
          (fun r s_end =>
             stdout s_end = stdout s0 ++ progress_log K (fst (fst r)) (snd (fst r)))
          never s0).
  { intros Hwp. apply wp_Ok in Hwp.
    destruct Hwp as ([[ts es] ps] & s_end & Hrun & Hout).
    exists ts, es, ps, s_end. auto. }
  apply Hsim. unfold range1Z. apply wp_for_fold_map.
  eapply wp_mono;
    [apply (wp_for_seq _
      (fun i rec s =>
         wf s /\ nbodies s = nbodies s0 /\
         length (times rec) = S ((i - 1) / K) /\
         length (energies rec) = S ((i - 1) / K) /\
         stdout s = stdout s0 ++ progress_log K (times rec) (energies rec)))
    | | intros e He; exact He].
  - (* before the loop *)
    assert (H0 : ((1 - 1) / K = 0)%nat) by apply Nat.Div0.div_0_l.
    rewrite H0. split; [exact Hwfb|].
    split; [exact (nbodies_frame s0 boot Hbb)|].
    cbn [times energies]. unfold progress_log. simpl.
    rewrite app_nil_r. auto.
  - (* one step *)
    intros i rec s Hi (Hwf & HNi & Hlt & Hle & Hout).
    destruct (wp_Ok _ _ _ (wp_vv_step s dt Hwf))
      as ([] & s' & Hrun & Hwf' & Ho' & HN' & _).
    apply wp_bind. eapply wp_eq; [exact Hrun|]. cbv beta zeta.
    apply wp_bind.
    assert (Hrem : rem (Z.of_nat i) output_every = Ok (Z.of_nat (i mod K))).
    { rewrite <- (rem_nat K i HK1). unfold K. rewrite Z2Nat.id by lia.
      reflexivity. }
    eapply wp_eq; [unfold lift; rewrite Hrem; reflexivity|].
    cbv beta. replace (S i - 1)%nat with i by lia.
    destruct (Z.eqb_spec (Z.of_nat (i mod K)) 0) as [Hz|Hnz].
    + (* a recorded step *)
      destruct (div_step K i HK1 ltac:(lia)) as [Hdiv _].
      destruct (Hdiv ltac:(lia)) as [Hq Hqi].
      assert (Hwfb' : wf_bodies (bodies s')) by apply Hwf'.
      apply wp_bind. eapply wp_eq; [apply total_energy_Ok; exact Hwfb'|]. cbv beta.
      apply wp_bind.
      eapply wp_eq; [apply flat_positions_Ok; [exact Hwfb'|lia]|]. cbv beta.
      apply wp_bind. eapply wp_eq; [reflexivity|]. cbv beta.
      apply wp_ret. cbn [times energies samples t bodies a stdout].
      split; [exact Hwf'|]. split; [exact (eq_trans HN' HNi)|].
      rewrite !length_app, Hlt, Hle. simpl.
      split; [lia|]. split; [lia|].
      rewrite progress_log_push by lia.
      rewrite Ho', Hout, Hlt, <- Hq, Hqi, app_assoc. reflexivity.
    + destruct (div_step K i HK1 ltac:(lia)) as [_ Hdiv].
      rewrite (Hdiv ltac:(lia)).
      apply wp_ret. cbn [times energies samples t].
      split; [exact Hwf'|]. split; [lia|].
      split; [exact Hlt|]. split; [exact Hle|]. congruence.
  - (* after the loop *)
    intros rec s (_ & _ & _ & _ & Hout). cbv beta. cbn [fst snd]. exact Hout.
Qed.

Lemma simulate_progress_log_witness :
  exists ts es ps s_end,
    simulate 0.5 10 5 two_bodies = Ok ((ts, es, ps), s_end) /\
    stdout s_end = stdout two_bodies ++ progress_log 5 ts es.
Proof.
  apply (simulate_progress_log two_bodies 0.5 10 5).
  - apply wf_two_bodies.
  - apply le_S, le_n.
  - lia.
  - lia.
Defined.

End ProgressLog.


Section Setups.

Import Exact.
Local Open Scope R_scope.

Lemma literal_pos (m e : Z) : (0 < m)%Z -> 0 < literal m e.
Proof.
  intros Hm. unfold literal. apply Rmult_lt_0_compat.
  - now apply IZR_lt.
  - apply powerRZ_lt. lra.
Qed.




(** The demonstration system is set in the frame of its centre of mass:
    [two_body_demo] returns two bodies on the first axis, a distance r = 4e7
    apart, whose first moment of mass and whose momentum are zero, and whose
    relative speed is the circular one, v^2 r = G (m1 + m2). *)
Theorem two_body_demo_barycentric :
  exists b1 b2,
    two_body_demo = Ok [b1; b2] /\
    wf_bodies [b1; b2] /\
    (forall d, (1 <= d <= NDIM)%nat ->
       mass_moment (mkStore [b1; b2] [] []) d = 0 /\
       momentum (mkStore [b1; b2] [] []) d = 0) /\
    nth 0 (x b2) 0 - nth 0 (x b1) 0 = literal 4 7 /\
    nth 1 (x b2) 0 - nth 1 (x b1) 0 = 0 /\
    nth 0 (v b2) 0 - nth 0 (v b1) 0 = 0 /\
    (nth 1 (v b2) 0 - nth 1 (v b1) 0) * (nth 1 (v b2) 0 - nth 1 (v b1) 0)
      * literal 4 7 = G * (m b1 + m b2).
Proof.
  pose proof (literal_pos 5972 21 ltac:(lia)) as Hm1.
  pose proof (literal_pos 7348 19 ltac:(lia)) as Hm2.
  pose proof (literal_pos 4 7 ltac:(lia)) as Hr.
  pose proof G_pos as HG.
  unfold two_body_demo. cbv zeta.
  cbn [lit fadd fmul fneg fdiv fsqrt ops] in *.
  set (m1 := literal 5972 21) in *.
  set (m2 := literal 7348 19) in *.
  set (r := literal 4 7) in *.
  unfold div_checked, sqrt_checked.
  destruct (Req_dec_T r 0) as [Hz|_]; [lra|].
  cbn [bind ret result_Monad result_bind].
  assert (Hq : 0 < G * (m1 + m2) / r).
  { apply Rdiv_lt_0_compat; [|exact Hr]. apply Rmult_lt_0_compat; lra. }
  destruct (Rlt_dec (G * (m1 + m2) / r) 0) as [Hneg|_]; [lra|].
  cbn [result_bind].
  destruct (Req_dec_T (m1 + m2) 0) as [Hz|_]; [lra|].
  cbn [result_bind].
  eexists. eexists. split; [reflexivity|].
  cbn [m x v nth]. rewrite zero_R.
  pose proof (sqrt_sqrt _ (Rlt_le _ _ Hq)) as Hsq.
  set (vc := sqrt (G * (m1 + m2) / r)) in *.
  split; [repeat constructor|].
  split.
  - intros d Hd. unfold NDIM in Hd.
    assert (Hc : (d = 1 \/ d = 2)%nat) by lia.
    unfold mass_moment, momentum, mass, pos, vel, body_at.
    destruct Hc as [-> | ->]; simpl; split; field; lra.
  - split; [field; lra|]. split; [ring|]. split; [ring|].
    replace (m1 / (m1 + m2) * vc - - m2 / (m1 + m2) * vc) with vc by (field; lra).
    rewrite Hsq. field. lra.
Qed.

End Setups.


Section PositionsFile.

Context {F : Type}.
Variable fmt_f : nat -> F -> string.
Variable fmt_e : nat -> F -> string.


Lemma position_rows_firstn (ps : list (list F)) (ts : list F) (n : nat) :
  forall (k : nat) (acc0 : list string),
    k + length ts <= n -> k + length ts <= length ps ->
    exists rows,
      for_fold (combine (seq (S k) (length ts)) ts) acc0
        (fun kt rows =>
           pos <- getindex ps (fst kt) ;;
           ret (rows ++ [position_row fmt_f fmt_e (snd kt) pos])%list)
      = Ok rows /\
      for_fold (combine (seq (S k) (length ts)) ts) acc0
        (fun kt rows =>
           pos <- getindex (firstn n ps) (fst kt) ;;
           ret (rows ++ [position_row fmt_f fmt_e (snd kt) pos])%list)
      = Ok rows.
Proof.
  induction ts as [|t ts IH]; intros k acc0 Hn Hlen.
  - exists acc0. split; reflexivity.
  - cbn [length] in Hn, Hlen.
    cbn [length seq combine for_fold].
    cbn [bind result_Monad result_bind fst snd].
    unfold getindex at 1 3. rewrite nth_error_firstn.
    assert (Hk : k < n) by lia. apply Nat.ltb_lt in Hk. rewrite Hk.
    destruct (nth_error ps k) as [pos|] eqn:Hpos.
    + cbn [result_bind ret result_Monad]. apply IH; lia.
    + apply nth_error_None in Hpos. lia.
Qed.


(** With a sample for every time the file is written, and the samples
    beyond the last time are not read: the file is the one of the first
    [length times] samples. *)
Theorem positions_csv_extra_samples (N : nat) (ts : list F)
    (ps : list (list F)) :
  length ts <= length ps ->
  exists file,
    positions_csv fmt_f fmt_e N ts ps = Ok file /\
    positions_csv fmt_f fmt_e N ts (firstn (length ts) ps) = Ok file.
Proof.
  intros Hlen.
  destruct (position_rows_firstn ps ts (length ts) 0 []) as (rows & H1 & H2);
    [lia|lia|].
  unfold positions_csv. cbn [bind result_Monad] in H1, H2 |- *.
  rewrite H1, H2. cbn [result_bind ret result_Monad]. eauto.
Qed.

End PositionsFile.

Section PositionsFileRun.

Import Printf.
Local Open Scope float_scope.


Lemma positions_csv_extra_samples_witness :
  exists file,
    positions_csv printf_f printf_e 1 [0] [[2; 3]; [4; 5]] = Ok file /\
    positions_csv printf_f printf_e 1 [0] [[2; 3]] = Ok file.
Proof.
  apply (positions_csv_extra_samples printf_f printf_e 1 [0] [[2; 3]; [4; 5]]).
  simpl. lia.
Defined.

End PositionsFileRun.
